(** * open-engineer: the structured-response and diff-application engine

    A shallow embedding of [main.py]: Python strings and the string
    operations the program uses, [pathlib] paths, a POSIX-like file system
    with directories, hard links and symbolic links, the exceptions the
    program raises and catches, the conversation history, and the helper
    functions of the program itself.

    Strings are byte strings ([string]); the console and the logger are an
    append-only list of events (only [logger.warning] and [logger.error] are
    kept: the [debug] and [info] lines change no state the program reads). *)

From stdpp Require Import base decidable option list gmap strings pretty.
From Stdlib Require Import Ascii String.

Local Open Scope string_scope.
Local Open Scope list_scope.
Local Open Scope nat_scope.
Set Warnings "-register-all".

(** ** Python string operations *)

Module Str.

(** [s[n:]] *)
Fixpoint drop (n : nat) (s : string) : string :=
  match n, s with
  | 0, _ => s
  | S n', String _ s' => drop n' s'
  | S _, "" => ""
  end.

(** [s[:n]] *)
Fixpoint take (n : nat) (s : string) : string :=
  match n, s with
  | 0, _ => ""
  | S n', String c s' => String c (take n' s')
  | S _, "" => ""
  end.

(** [s.startswith(p)] *)
Fixpoint startswith (p s : string) : bool :=
  match p, s with
  | "", _ => true
  | String c p', String d s' => if decide (c = d) then startswith p' s' else false
  | String _ _, "" => false
  end.

(** [s.find(sub)]: the lowest index at which [sub] occurs. *)
Fixpoint find (sub s : string) : option nat :=
  if startswith sub s then Some 0
  else match s with
       | "" => None
       | String _ s' => S <$> find sub s'
       end.

(** [sub in s] *)
Definition contains (sub s : string) : bool := bool_decide (is_Some (find sub s)).

(** [s.replace(old, new, 1)] *)
Definition replace_first (old new s : string) : string :=
  match find old s with
  | Some i => take i s +:+ new +:+ drop (i + String.length old) s
  | None => s
  end.

(** [c in s] for a single character. *)
Fixpoint has_char (c : ascii) (s : string) : bool :=
  match s with
  | "" => false
  | String d s' => if decide (c = d) then true else has_char c s'
  end.

(** [s.split(sep)] for a one-character separator: never empty. *)
Fixpoint split (sep : ascii) (s : string) : list string :=
  match s with
  | "" => [""]
  | String c s' =>
      if decide (c = sep) then "" :: split sep s'
      else match split sep s' with
           | w :: ws => String c w :: ws
           | [] => [String c ""]
           end
  end.

(** [sep.join(l)] *)
Fixpoint join (sep : string) (l : list string) : string :=
  match l with
  | [] => ""
  | [w] => w
  | w :: ws => w +:+ sep +:+ join sep ws
  end.

(** ASCII white space as [str.split()] and [str.strip()] see it. *)
Definition isspace (c : ascii) : bool :=
  match c with
  | "009" | "010" | "011" | "012" | "013" | "028" | "029" | "030" | "031"
  | " " => true
  | _ => false
  end%char.

(** [s.split()]: maximal runs of non-space characters. *)
Fixpoint split_ws_go (cur : option string) (s : string) : list string :=
  match s with
  | "" => option_list (String.rev <$> cur)
  | String c s' =>
      if isspace c then option_list (String.rev <$> cur) ++ split_ws_go None s'
      else split_ws_go (Some (String c (default "" cur))) s'
  end.
Definition split_ws : string → list string := split_ws_go None.

(** [s.lstrip(chars)], [s.rstrip(chars)], [s.strip(chars)] *)
Fixpoint lstrip (chars : string) (s : string) : string :=
  match s with
  | "" => ""
  | String c s' => if has_char c chars then lstrip chars s' else s
  end.
Definition rstrip (chars s : string) : string :=
  String.rev (lstrip chars (String.rev s)).
Definition strip (chars s : string) : string := rstrip chars (lstrip chars s).

(** [s.strip()] *)
Fixpoint lstrip_ws (s : string) : string :=
  match s with
  | "" => ""
  | String c s' => if isspace c then lstrip_ws s' else s
  end.
Definition strip_ws (s : string) : string :=
  String.rev (lstrip_ws (String.rev (lstrip_ws s))).

(** [s.lower()] on ASCII letters. *)
Definition lower_char (c : ascii) : ascii :=
  let n := nat_of_ascii c in
  if ((65 <=? n) && (n <=? 90))%nat then ascii_of_nat (n + 32) else c.
Fixpoint lower (s : string) : string :=
  match s with
  | "" => ""
  | String c s' => String (lower_char c) (lower s')
  end.

End Str.

(** The characters the program writes with escapes. *)
Definition nl : string := String "010" "".
Definition dquote : ascii := "034".
Definition nul : ascii := "000".

(** ** pathlib: pure paths

    A [PurePosixPath] is its root ([""], ["/"] or ["//"]) and its parts. *)

Record Path := mkPath { root : string; parts : list string }.

Global Instance Path_eq_dec : EqDecision Path.
Proof. solve_decision. Defined.

(** [posixpath.splitroot]: exactly two leading slashes are a root of their
    own, one slash or three and more are the root ["/"]. *)
Definition splitroot (s : string) : string * string :=
  if Str.startswith "///" s then ("/", Str.drop 1 s)
  else if Str.startswith "//" s then ("//", Str.drop 2 s)
  else if Str.startswith "/" s then ("/", Str.drop 1 s)
  else ("", s).

(** [Path(s)]: empty and ["."] components are dropped, [".."] is kept. *)
Definition Path_of (s : string) : Path :=
  let '(r, rel) := splitroot s in
  mkPath r (filter (λ x, x ≠ "" ∧ x ≠ ".") (Str.split "/" rel)).

(** [str(p)] *)
Definition Path_str (p : Path) : string :=
  match root p, parts p with
  | "", [] => "."
  | r, ps => r +:+ Str.join "/" ps
  end.

Definition is_absolute (p : Path) : bool := bool_decide (root p ≠ "").

(** [p / key] for a string [key]: an absolute [key] replaces [p]. *)
Definition truediv (p : Path) (key : string) : Path :=
  if Str.startswith "/" key then Path_of key
  else mkPath (root p) (parts p ++ parts (Path_of key)).

(** [p.parent] *)
Definition parent (p : Path) : Path := mkPath (root p) (removelast (parts p)).

(** ** The file system

    A location is the list of names from the root to an entry.  An entry is
    a directory, a regular file (a hard link to an inode) or a symbolic link;
    the root directory always exists.  File contents live in the inodes, so
    two entries with one inode are one file. *)

Definition loc := list string.

Inductive node :=
| Dir
| File (ino : nat)
| Link (target : string).

Global Instance node_eq_dec : EqDecision node.
Proof. solve_decision. Defined.

Record filesystem := mkFS {
  cwd : string;
  entries : gmap loc node;
  data : nat → string
}.

(** [os.lstat]: the entry at a location, links not followed. *)
Definition lstat (fs : filesystem) (l : loc) : option node :=
  match l with
  | [] => Some Dir
  | _ => entries fs !! l
  end.

Definition link_target (fs : filesystem) (l : loc) : option string :=
  match lstat fs l with
  | Some (Link t) => Some t
  | _ => None
  end.

(** Where a symbolic link's target starts from, and its components. *)
Definition target_base (dir : loc) (target : string) : loc :=
  if Str.startswith "/" target then [] else dir.

(** *** The kernel's path walk

    What [open], [stat] and [mkdir] do with a path: every name is looked up
    in a directory that must exist, symbolic links are followed, and a walk
    that follows more than [MAXSYMLINKS] links fails with ELOOP. *)

Inductive errno := ENOENT | ENOTDIR | ELOOP.

Inductive walked :=
| Reached (l : loc)
| Failed (e : errno).

Definition MAXSYMLINKS : nat := 40.

Fixpoint namei (fs : filesystem) (fuel : nat) : loc → list string → walked :=
  fix go (dir : loc) (rest : list string) {struct rest} : walked :=
    match rest with
    | [] => Reached dir
    | name :: rest' =>
        match lstat fs dir with
        | Some Dir =>
            if decide (name = "" ∨ name = ".") then go dir rest'
            else if decide (name = "..") then go (removelast dir) rest'
            else match link_target fs (dir ++ [name]) with
                 | Some target =>
                     match fuel with
                     | 0 => Failed ELOOP
                     | S fuel' =>
                         namei fs fuel' (target_base dir target)
                               (Str.split "/" target ++ rest')
                     end
                 | None => go (dir ++ [name]) rest'
                 end
        | Some _ => Failed ENOTDIR
        | None => Failed ENOENT
        end
    end.

Global Arguments namei : simpl never.

(** What a system call is given: the text of the path, whether it is
    absolute, and its names.  A string is split by the kernel; a [Path]
    brings its parts. *)
Record ospath := mkOspath {
  op_text : string;
  op_abs : bool;
  op_names : list string
}.

Definition of_str (s : string) : ospath :=
  mkOspath s (Str.startswith "/" s) (Str.split "/" s).

Definition of_Path (p : Path) : ospath :=
  mkOspath (Path_str p) (is_absolute p) (parts p).

(** The names a walk starts with: a relative path starts in the current
    directory, which has to be one. *)
Definition walk_start (fs : filesystem) (absolute : bool) : list string :=
  if absolute then [] else Str.split "/" (cwd fs) ++ ["."].

Definition lookup_path (fs : filesystem) (o : ospath) : walked :=
  namei fs MAXSYMLINKS [] (walk_start fs (op_abs o) ++ op_names o).

(** *** [os.path.realpath], not strict

    Python's own walk, used by [Path.resolve()]: nothing has to exist, a name
    that is no symbolic link is kept as it is, [".."] drops the last resolved
    name, and a link met again while it is being resolved is kept as a plain
    name (Python 3.13: no exception).  The flag tells whether that happened.
    [None] is the [ValueError] of [os.lstat] on a name with a NUL character.
    [fuel] bounds the nesting of links. *)

Definition mark_loop (r : option (loc * bool)) : option (loc * bool) :=
  (λ x, (fst x, true)) <$> r.

Fixpoint realpath_walk (fs : filesystem) (fuel : nat) (active : list loc)
  : loc → list string → option (loc * bool) :=
  fix go (path : loc) (rest : list string) {struct rest} : option (loc * bool) :=
    match rest with
    | [] => Some (path, false)
    | name :: rest' =>
        if decide (name = "" ∨ name = ".") then go path rest'
        else if decide (name = "..") then go (removelast path) rest'
        else if Str.has_char nul name then None
        else
          let newpath := path ++ [name] in
          match link_target fs newpath with
          | None => go newpath rest'
          | Some target =>
              match fuel with
              | S fuel' =>
                  if decide (newpath ∈ active) then mark_loop (go newpath rest')
                  else
                    match realpath_walk fs fuel' (newpath :: active)
                            (target_base path target) (Str.split "/" target) with
                    | Some (p, l1) =>
                        match go p rest' with
                        | Some (q, l2) => Some (q, l1 || l2)
                        | None => None
                        end
                    | None => None
                    end
              | 0 => mark_loop (go newpath rest')
              end
          end
    end.

Global Arguments realpath_walk : simpl never.

Definition realpath (fs : filesystem) (s : string) : option (loc * bool) :=
  realpath_walk fs (size (entries fs)) [] []
    ((if Str.startswith "/" s then [] else Str.split "/" (cwd fs)) ++ Str.split "/" s).

(** The text of an absolute location. *)
Definition loc_str (l : loc) : string := "/" +:+ Str.join "/" l.

(** [Path.resolve()] *)
Definition resolve (fs : filesystem) (p : Path) : option Path :=
  (λ r, Path_of (loc_str (fst r))) <$> realpath fs (Path_str p).

(** ** Exceptions

    Each carries the text [str(e)] gives.  [RequestException] is what
    [requests] raises (a subclass of [OSError]); [JSONDecodeError] and
    pydantic's [ValidationError] are subclasses of [ValueError]. *)

Inductive exn :=
| FileNotFoundError (msg : string)
| IsADirectoryError (msg : string)
| NotADirectoryError (msg : string)
| FileExistsError (msg : string)
| OSError (msg : string)
| RequestException (msg : string)
| ValueError (msg : string)
| JSONDecodeError (msg : string)
| ValidationError (msg : string)
| KeyError (msg : string)
| TypeError (msg : string).

Definition exn_str (e : exn) : string :=
  match e with
  | FileNotFoundError m | IsADirectoryError m | NotADirectoryError m
  | FileExistsError m | OSError m | RequestException m | ValueError m
  | JSONDecodeError m | ValidationError m | KeyError m | TypeError m => m
  end.

Definition is_FileNotFoundError (e : exn) : bool :=
  match e with FileNotFoundError _ => true | _ => false end.

Definition is_OSError (e : exn) : bool :=
  match e with
  | FileNotFoundError _ | IsADirectoryError _ | NotADirectoryError _
  | FileExistsError _ | OSError _ | RequestException _ => true
  | _ => false
  end.

Definition is_ValueError (e : exn) : bool :=
  match e with
  | ValueError _ | JSONDecodeError _ | ValidationError _ => true
  | _ => false
  end.

Definition is_JSONDecodeError (e : exn) : bool :=
  match e with JSONDecodeError _ => true | _ => false end.

Inductive result (A : Type) :=
| Ok (a : A)
| Raise (e : exn).
Arguments Ok {A} a.
Arguments Raise {A} e.

(** ** System calls *)

Definition errno_exn (e : errno) (s : string) : exn :=
  match e with
  | ENOENT => FileNotFoundError ("[Errno 2] No such file or directory: '" +:+ s +:+ "'")
  | ENOTDIR => NotADirectoryError ("[Errno 20] Not a directory: '" +:+ s +:+ "'")
  | ELOOP => OSError ("[Errno 40] Too many levels of symbolic links: '" +:+ s +:+ "'")
  end.

Definition embedded_null : exn := ValueError "embedded null byte".

(** [open(o, "r").read()] *)
Definition open_read (fs : filesystem) (o : ospath) : result string :=
  if Str.has_char nul (op_text o) then Raise embedded_null
  else match lookup_path fs o with
       | Failed e => Raise (errno_exn e (op_text o))
       | Reached l =>
           match lstat fs l with
           | Some (File i) => Ok (data fs i)
           | Some _ => Raise (IsADirectoryError
                                ("[Errno 21] Is a directory: '" +:+ op_text o +:+ "'"))
           | None => Raise (errno_exn ENOENT (op_text o))
           end
       end.

(** The inodes in use. *)
Definition used_inodes (fs : filesystem) : gset nat :=
  map_fold (λ _ n acc, match n with File i => {[ i ]} ∪ acc | _ => acc end) ∅ (entries fs).

Definition set_data (fs : filesystem) (i : nat) (c : string) : filesystem :=
  mkFS (cwd fs) (entries fs) (λ j, if decide (j = i) then c else data fs j).

Definition add_entry (fs : filesystem) (l : loc) (n : node) : filesystem :=
  mkFS (cwd fs) (<[ l := n ]> (entries fs)) (data fs).

(** [open(o, "w").write(c)]: an existing file is overwritten in place, a
    missing one is created, with a fresh inode, in its directory. *)
Definition open_write (fs : filesystem) (o : ospath) (c : string) : result filesystem :=
  if Str.has_char nul (op_text o) then Raise embedded_null
  else match lookup_path fs o with
       | Failed e => Raise (errno_exn e (op_text o))
       | Reached l =>
           match lstat fs l with
           | Some (File i) => Ok (set_data fs i c)
           | Some _ => Raise (IsADirectoryError
                                ("[Errno 21] Is a directory: '" +:+ op_text o +:+ "'"))
           | None =>
               match lstat fs (removelast l) with
               | Some Dir =>
                   let i := fresh (used_inodes fs) in
                   Ok (set_data (add_entry fs l (File i)) i c)
               | _ => Raise (errno_exn ENOENT (op_text o))
               end
           end
       end.

(** [p.exists()], [p.is_dir()]: false when the walk fails. *)
Definition path_exists (fs : filesystem) (p : Path) : bool :=
  if Str.has_char nul (Path_str p) then false
  else match lookup_path fs (of_Path p) with
       | Reached l => bool_decide (is_Some (lstat fs l))
       | Failed _ => false
       end.

Definition path_is_dir (fs : filesystem) (p : Path) : bool :=
  if Str.has_char nul (Path_str p) then false
  else match lookup_path fs (of_Path p) with
       | Reached l => bool_decide (lstat fs l = Some Dir)
       | Failed _ => false
       end.

(** [os.mkdir(p)]: the directory of the last name must exist, the last name
    itself must not (a symbolic link there is not followed). *)
Definition os_mkdir (fs : filesystem) (p : Path) : result filesystem :=
  let s := Path_str p in
  let eexist := FileExistsError ("[Errno 17] File exists: '" +:+ s +:+ "'") in
  if Str.has_char nul s then Raise embedded_null
  else
    match last (parts p) with
    | None => Raise eexist
    | Some name =>
        match namei fs MAXSYMLINKS []
                (walk_start fs (is_absolute p) ++ removelast (parts p)) with
        | Failed e => Raise (errno_exn e s)
        | Reached d =>
            match lstat fs d with
            | Some Dir =>
                if decide (name = "" ∨ name = "." ∨ name = "..") then Raise eexist
                else match lstat fs (d ++ [name]) with
                     | Some _ => Raise eexist
                     | None => Ok (add_entry fs (d ++ [name]) Dir)
                     end
            | Some _ => Raise (errno_exn ENOTDIR s)
            | None => Raise (errno_exn ENOENT s)
            end
        end
    end.

(** [p.mkdir(parents=True, exist_ok=True)], as pathlib writes it: try
    [os.mkdir]; on [FileNotFoundError] make the parent first and try once
    more; on any other [OSError] accept an existing directory.  [n] counts
    the parts of [p]. *)
Fixpoint Path_mkdir (n : nat) (p : Path) (fs : filesystem) : result filesystem :=
  let accept_existing (fs0 : filesystem) (e : exn) :=
    if is_OSError e && path_is_dir fs0 p then Ok fs0 else Raise e in
  match os_mkdir fs p with
  | Ok fs' => Ok fs'
  | Raise e =>
      if is_FileNotFoundError e then
        match n with
        | 0 => Raise e
        | S n' =>
            if decide (parent p = p) then Raise e
            else match Path_mkdir n' (parent p) fs with
                 | Raise e' => Raise e'
                 | Ok fs1 =>
                     match os_mkdir fs1 p with
                     | Ok fs2 => Ok fs2
                     | Raise e2 =>
                         if is_FileNotFoundError e2 then Raise e2
                         else accept_existing fs1 e2
                     end
                 end
        end
      else accept_existing fs e
  end.

(** ** The program state and its monad

    The program's global state: the file system it works on, the
    conversation history, and what it has printed and logged.  A computation
    returns a value or raises, and its effects on the state stay either way. *)

Inductive role := system | user | assistant.

Global Instance role_eq_dec : EqDecision role.
Proof. solve_decision. Defined.

Record message := mkMsg { msg_role : role; msg_content : string }.

Global Instance message_eq_dec : EqDecision message.
Proof. solve_decision. Defined.

Inductive event :=
| LogWarning (text : string)
| LogError (text : string)
| ConsolePrint (text : string)
| ConsolePanel (title body : string)
| ConsoleTable (rows : list (string * string * string)).

Record state := mkState {
  fs : filesystem;
  conversation_history : list message;
  output : list event
}.

Definition M (A : Type) : Type := state → result A * state.

Definition ret {A} (a : A) : M A := λ st, (Ok a, st).
Definition raise {A} (e : exn) : M A := λ st, (Raise e, st).
Definition bind {A B} (m : M A) (k : A → M B) : M B :=
  λ st, match m st with
        | (Ok a, st') => k a st'
        | (Raise e, st') => (Raise e, st')
        end.

Declare Scope prog_scope.
Delimit Scope prog_scope with prog.
Notation "x <- m ;; k" := (bind m (λ x, k))
  (at level 100, m at next level, right associativity) : prog_scope.
Notation "m ;; k" := (bind m (λ _, k))
  (at level 100, right associativity) : prog_scope.
Local Open Scope prog_scope.

(** [try: m except E: h e] where [E] is the class test [catch]. *)
Definition try_except {A} (m : M A) (catch : exn → bool) (h : exn → M A) : M A :=
  λ st, match m st with
        | (Raise e, st') => if catch e then h e st' else (Raise e, st')
        | r => r
        end.

Definition lift {A} (r : result A) : M A := λ st, (r, st).
Definition get_fs : M filesystem := λ st, (Ok (fs st), st).
Definition put_fs (f : filesystem) : M unit :=
  λ st, (Ok tt, mkState f (conversation_history st) (output st)).
Definition get_history : M (list message) := λ st, (Ok (conversation_history st), st).

(** [conversation_history.append({"role": r, "content": c})] *)
Definition history_append (r : role) (c : string) : M unit :=
  λ st, (Ok tt, mkState (fs st) (conversation_history st ++ [mkMsg r c]) (output st)).

Definition emit (e : event) : M unit :=
  λ st, (Ok tt, mkState (fs st) (conversation_history st) (output st ++ [e])).

Global Instance result_ret : MRet result := @Ok.
Global Instance result_bind : MBind result := λ A B k r,
  match r with
  | Ok a => k a
  | Raise e => Raise e
  end.

Global Instance result_fmap : FMap result := λ A B f r,
  match r with
  | Ok a => Ok (f a)
  | Raise e => Raise e
  end.

(** ** JSON values and the Python operations the program applies to them

    What [json.loads] returns: [None], booleans, numbers (integers here; only
    their type and truth value matter), strings, lists and dicts.  A dict is
    its items in insertion order. *)

Inductive json :=
| JNull
| JBool (b : bool)
| JNum (n : Z)
| JStr (s : string)
| JList (l : list json)
| JDict (items : list (string * json)).

Definition dict_get (key : string) (items : list (string * json)) : option json :=
  snd <$> List.find (λ kv, bool_decide (fst kv = key)) items.

Fixpoint dict_set (key : string) (x : json) (items : list (string * json))
  : list (string * json) :=
  match items with
  | [] => [(key, x)]
  | (k, v) :: items' =>
      if decide (k = key) then (k, x) :: items' else (k, v) :: dict_set key x items'
  end.

Definition type_name (v : json) : string :=
  match v with
  | JNull => "NoneType"
  | JBool _ => "bool"
  | JNum _ => "int"
  | JStr _ => "str"
  | JList _ => "list"
  | JDict _ => "dict"
  end.

(** [key in v] *)
Definition py_in (key : string) (v : json) : result bool :=
  match v with
  | JDict items => Ok (bool_decide (is_Some (dict_get key items)))
  | JList l => Ok (existsb (λ x, match x with JStr s => bool_decide (s = key) | _ => false end) l)
  | JStr s => Ok (Str.contains key s)
  | _ => Raise (TypeError ("argument of type '" +:+ type_name v +:+ "' is not iterable"))
  end.

(** [v[key]] for a string [key] *)
Definition py_getitem (v : json) (key : string) : result json :=
  match v with
  | JDict items =>
      match dict_get key items with
      | Some x => Ok x
      | None => Raise (KeyError ("'" +:+ key +:+ "'"))
      end
  | JList _ => Raise (TypeError "list indices must be integers or slices, not str")
  | JStr _ => Raise (TypeError "string indices must be integers, not 'str'")
  | _ => Raise (TypeError ("'" +:+ type_name v +:+ "' object is not subscriptable"))
  end.

(** [v[key] = x] *)
Definition py_setitem (v : json) (key : string) (x : json) : result json :=
  match v with
  | JDict items => Ok (JDict (dict_set key x items))
  | JList _ => Raise (TypeError "list indices must be integers or slices, not str")
  | _ => Raise (TypeError ("'" +:+ type_name v +:+ "' object does not support item assignment"))
  end.

(** [bool(v)] *)
Definition py_truthy (v : json) : bool :=
  match v with
  | JNull => false
  | JBool b => b
  | JNum n => bool_decide (n ≠ 0%Z)
  | JStr s => bool_decide (s ≠ "")
  | JList l => bool_decide (l ≠ [])
  | JDict items => bool_decide (items ≠ [])
  end.

Fixpoint chars (s : string) : list string :=
  match s with
  | "" => []
  | String c s' => String c "" :: chars s'
  end.

(** [len(v)] and [for x in v] *)
Definition py_len (v : json) : result nat :=
  match v with
  | JStr s => Ok (String.length s)
  | JList l => Ok (List.length l)
  | JDict items => Ok (List.length items)
  | _ => Raise (TypeError ("object of type '" +:+ type_name v +:+ "' has no len()"))
  end.

Definition py_iter (v : json) : result (list json) :=
  match v with
  | JStr s => Ok (JStr <$> chars s)
  | JList l => Ok l
  | JDict items => Ok (JStr ∘ fst <$> items)
  | _ => Raise (TypeError ("'" +:+ type_name v +:+ "' object is not iterable"))
  end.

(** [str(v)] inside an f-string; exact for scalars, containers are
    abbreviated. *)
Definition py_str (v : json) : string :=
  match v with
  | JNull => "None"
  | JBool true => "True"
  | JBool false => "False"
  | JNum n => pretty n
  | JStr s => s
  | JList _ => "[...]"
  | JDict _ => "{...}"
  end.

(** [Path(v)]: only a string is a path. *)
Definition py_fspath (v : json) : result string :=
  match v with
  | JStr s => Ok s
  | _ => Raise (TypeError ("expected str, bytes or os.PathLike object, not " +:+ type_name v))
  end.

(** ** The pydantic schema (section 2 of [main.py]) *)

Record FileToCreate := mkFileToCreate {
  create_path : string;
  create_content : string
}.

Record FileToEdit := mkFileToEdit {
  edit_path : string;
  original_snippet : string;
  new_snippet : string
}.

Record AssistantResponse := mkAssistantResponse {
  assistant_reply : string;
  files_to_create : option (list FileToCreate);
  files_to_edit : option (list FileToEdit)
}.

(** Validation of keyword arguments against the models: a [str] field takes
    a string, a nested model takes a dict with its required fields, an
    [Optional] field may be missing or [None]; unknown keys are ignored. *)
Definition missing (field : string) : exn :=
  ValidationError (field +:+ ": field required").

Definition validate_str (field : string) (items : list (string * json)) : result string :=
  match dict_get field items with
  | Some (JStr s) => Ok s
  | Some _ => Raise (ValidationError (field +:+ ": str type expected"))
  | None => Raise (missing field)
  end.

Definition validate_FileToCreate (v : json) : result FileToCreate :=
  match v with
  | JDict items =>
      p ← validate_str "path" items;
      c ← validate_str "content" items;
      mret (mkFileToCreate p c)
  | _ => Raise (ValidationError "files_to_create: value is not a valid dict")
  end.

Definition validate_FileToEdit (v : json) : result FileToEdit :=
  match v with
  | JDict items =>
      p ← validate_str "path" items;
      o ← validate_str "original_snippet" items;
      n ← validate_str "new_snippet" items;
      mret (mkFileToEdit p o n)
  | _ => Raise (ValidationError "files_to_edit: value is not a valid dict")
  end.

Fixpoint validate_each {A} (f : json → result A) (l : list json) : result (list A) :=
  match l with
  | [] => Ok []
  | v :: l' => a ← f v; r ← validate_each f l'; mret (a :: r)
  end.

Definition validate_optional_list {A} (field : string) (f : json → result A)
    (items : list (string * json)) : result (option (list A)) :=
  match dict_get field items with
  | None | Some JNull => Ok None
  | Some (JList l) => Some <$> validate_each f l
  | Some _ => Raise (ValidationError (field +:+ ": value is not a valid list"))
  end.

(** [AssistantResponse] called with the items of [v] as keyword arguments. *)
Definition AssistantResponse_of (v : json) : result AssistantResponse :=
  match v with
  | JDict items =>
      reply ← validate_str "assistant_reply" items;
      creates ← validate_optional_list "files_to_create" validate_FileToCreate items;
      edits ← validate_optional_list "files_to_edit" validate_FileToEdit items;
      mret (mkAssistantResponse reply creates edits)
  | _ => Raise (TypeError "argument after ** must be a mapping")
  end.

(** ** Helper functions of the program (section 4 of [main.py]) *)

(** [normalize_path]: [str(Path(path_str).resolve())].  The only failure is
    the [ValueError] that [os.lstat] raises on a NUL character. *)
Definition normalize_path (f : filesystem) (path_str : string) : result string :=
  match resolve f (Path_of path_str) with
  | Some p => Ok (Path_str p)
  | None => Raise embedded_null
  end.

Definition read_local_file (file_path : ospath) : M string :=
  f <- get_fs ;; lift (open_read f file_path).

(** The framing of a file's content in the history. *)
Definition file_marker (normalized_path : string) : string :=
  "Content of file '" +:+ normalized_path +:+ "'".

Definition file_message (normalized_path content : string) : string :=
  file_marker normalized_path +:+ ":" +:+ nl +:+ nl +:+ content.

(** [any(file_marker in msg["content"] for msg in conversation_history)] *)
Definition marker_in_history (marker : string) (h : list message) : bool :=
  existsb (λ m, Str.contains marker (msg_content m)) h.

Definition create_file (path : string) (content : string) (project_dir : Path) : M unit :=
  let file_path := truediv project_dir path in
  f <- get_fs ;;
  f1 <- lift (Path_mkdir (List.length (parts (parent file_path))) (parent file_path) f) ;;
  f2 <- lift (open_write f1 (of_Path file_path) content) ;;
  put_fs f2;;
  emit (ConsolePrint ("[green]✓[/green] Created/updated file at '[cyan]"
                      +:+ Path_str file_path +:+ "[/cyan]'")) ;;
  history_append assistant ("✓ Created/updated file at '" +:+ Path_str file_path +:+ "'") ;;
  normalized_path <- lift (normalize_path f2 (Path_str file_path)) ;;
  history_append system (file_message normalized_path content).

Definition apply_diff_edit (path original_snippet new_snippet : string)
    (project_dir : Path) : M unit :=
  let file_path := truediv project_dir path in
  try_except
    (content <- read_local_file (of_Path file_path) ;;
     if Str.contains original_snippet content then
       let updated_content := Str.replace_first original_snippet new_snippet content in
       create_file path updated_content project_dir;;
       emit (ConsolePrint ("[green]✓[/green] Applied diff edit to '[cyan]"
                           +:+ Path_str file_path +:+ "[/cyan]'")) ;;
       history_append assistant ("✓ Applied diff edit to '" +:+ Path_str file_path +:+ "'")
     else
       emit (LogWarning ("Original snippet not found in " +:+ Path_str file_path)) ;;
       emit (ConsolePrint ("[yellow]⚠[/yellow] Original snippet not found in '[cyan]"
                           +:+ Path_str file_path +:+ "[/cyan]'. No changes made.")) ;;
       emit (ConsolePrint (nl +:+ "Expected snippet:")) ;;
       emit (ConsolePanel "Expected" original_snippet) ;;
       emit (ConsolePrint (nl +:+ "Actual file content:")) ;;
       emit (ConsolePanel "Actual" content))
    is_FileNotFoundError
    (λ _,
       let error_msg := "File not found for diff editing: " +:+ Path_str file_path in
       emit (LogError error_msg) ;;
       emit (ConsolePrint ("[red]✗[/red] " +:+ error_msg))).

Definition ensure_file_in_context (file_path : string) : M bool :=
  try_except
    (f <- get_fs ;;
     normalized_path <- lift (normalize_path f file_path) ;;
     content <- read_local_file (of_str normalized_path) ;;
     h <- get_history ;;
     (if marker_in_history (file_marker normalized_path) h then ret tt
      else history_append system (file_message normalized_path content)) ;;
     ret true)
    is_OSError
    (λ _,
       let error_msg := "Could not read file '" +:+ file_path +:+ "' for editing context" in
       emit (LogError error_msg) ;;
       emit (ConsolePrint ("[red]✗[/red] " +:+ error_msg)) ;;
       ret false).

(** ** Section 6 of [main.py]: the backend round trip *)

Definition recognized_extensions : list string :=
  [".css"; ".html"; ".js"; ".py"; ".json"; ".md"].

Definition quote_chars : string := String "'" (String "," (String dquote "")).

(** [for x in xs: acc = body(acc, x)] *)
Fixpoint for_each {A B} (xs : list A) (body : B → A → M B) (acc : B) : M B :=
  match xs with
  | [] => ret acc
  | x :: xs' => acc' <- body acc x ;; for_each xs' body acc'
  end.

(** The body of the loop of [guess_files_in_message]. *)
Definition guess_word (potential_paths : list string) (word : string) : M (list string) :=
  if existsb (λ ext, Str.contains ext word) recognized_extensions
     || Str.contains "/" word
  then
    let path := Str.strip quote_chars word in
    try_except
      (f <- get_fs ;;
       normalized_path <- lift (normalize_path f path) ;;
       ret (potential_paths ++ [normalized_path]))
      (λ e, is_OSError e || is_ValueError e)
      (λ _, ret potential_paths)
  else ret potential_paths.

Definition guess_files_in_message (user_message : string) : M (list string) :=
  for_each (Str.split_ws user_message) guess_word [].

(** [try_handle_add_command]: the in-band [/add <path>] command. *)
Definition try_handle_add_command (user_input : string) : M bool :=
  let prefix := "/add " in
  if Str.startswith prefix (Str.lower (Str.strip_ws user_input)) then
    let file_path := Str.strip_ws (Str.drop (String.length prefix) user_input) in
    try_except
      (content <- read_local_file (of_str file_path) ;;
       history_append system (file_message file_path content) ;;
       emit (ConsolePrint ("[green]✓[/green] Added file '[cyan]" +:+ file_path
                           +:+ "[/cyan]' to conversation." +:+ nl)))
      is_OSError
      (λ e,
         let error_msg := "Could not add file '" +:+ file_path +:+ "': " +:+ exn_str e in
         emit (LogError error_msg) ;;
         emit (ConsolePrint ("[red]✗[/red] " +:+ error_msg +:+ nl))) ;;
    ret true
  else ret false.

(** What the backend sends back: the request fails, or a stream of lines
    arrives, possibly cut short by an exception. *)
Inductive http_reply :=
| HttpError (e : exn)
| HttpStream (lines : list string) (broken : option exn).

(** The reply built on both failure paths:
    [AssistantResponse(assistant_reply=error_msg, files_to_create=[])]. *)
Definition error_response (error_msg : string) : AssistantResponse :=
  mkAssistantResponse error_msg (Some []) None.

(** Lines 340-356: read every guessed file and put it into the context once.
    [preload_file] is the body of the loop. *)
Definition preload_file (valid_files : gmap string string) (path : string)
  : M (gmap string string) :=
  try_except
    (content <- read_local_file (of_str path) ;;
     h <- get_history ;;
     (if marker_in_history (file_marker path) h then ret tt
      else history_append system (file_message path content)) ;;
     ret (<[ path := content ]> valid_files))
    is_OSError
    (λ _,
       let error_msg := "Cannot proceed: File '" +:+ path
                        +:+ "' does not exist or is not accessible" in
       emit (LogError error_msg) ;;
       emit (ConsolePrint ("[red]✗[/red] " +:+ error_msg)) ;;
       ret valid_files).

Definition preload_files (potential_paths : list string) : M (gmap string string) :=
  for_each potential_paths preload_file ∅.

(** Lines 412-424: keep the edits whose file is in this turn's context or can
    be read now, with their path made canonical.  [filter_edit] is the body
    of the loop. *)
Definition filter_edit (valid_files : gmap string string)
    (new_files_to_edit : list json) (edit : json) : M (list json) :=
  try_except
    (p <- lift (py_getitem edit "path") ;;
     s <- lift (py_fspath p) ;;
     f <- get_fs ;;
     edit_abs_path <- lift (normalize_path f s) ;;
     readable <-
       ((if bool_decide (is_Some (valid_files !! edit_abs_path)) then ret true
         else ensure_file_in_context edit_abs_path) : M bool) ;;
     if readable then
       edit' <- lift (py_setitem edit "path" (JStr edit_abs_path)) ;;
       ret (new_files_to_edit ++ [edit'])
     else ret new_files_to_edit)
    (λ e, is_OSError e || is_ValueError e)
    (λ _,
       p <- lift (py_getitem edit "path") ;;
       emit (LogWarning ("Invalid path in edit request: " +:+ py_str p)) ;;
       p <- lift (py_getitem edit "path") ;;
       emit (ConsolePrint ("[yellow]⚠[/yellow] Skipping invalid path: '"
                           +:+ py_str p +:+ "'")) ;;
       ret new_files_to_edit).

Definition filter_edits (valid_files : gmap string string) (edits : list json)
  : M (list json) :=
  for_each edits (filter_edit valid_files) [].

(** Lines 334-360: guess and preload the files the message names, then
    append the message. *)
Definition begin_turn (user_message : string) : M (gmap string string) :=
  potential_paths <- guess_files_in_message user_message ;;
  valid_files <- preload_files potential_paths ;;
  history_append user user_message ;;
  ret valid_files.

Section Backend.

(** [json.loads] ([None] when it raises [JSONDecodeError]) and the backend
    behind [requests.post], which sees the messages sent. *)
Variable json_loads : string → option json.
Variable ollama : list message → http_reply.

Definition loads (s : string) : M json :=
  match json_loads s with
  | Some v => ret v
  | None => raise (JSONDecodeError "Expecting value: line 1 column 1 (char 0)")
  end.

(** Lines 385-395: accumulate the content fragments of the streamed chunks.
    [receive_line] is the body of the loop. *)
Definition receive_line (full_content line : string) : M string :=
  if decide (line = "") then ret full_content
  else
    try_except
      (chunk <- loads line ;;
       has_message <- lift (py_in "message" chunk) ;;
       has_content <-
         ((if has_message
           then m <- lift (py_getitem chunk "message") ;; lift (py_in "content" m)
           else ret false) : M bool) ;;
       if has_content then
         m <- lift (py_getitem chunk "message") ;;
         content_chunk <- lift (py_getitem m "content") ;;
         match content_chunk with
         | JStr c => emit (ConsolePrint c) ;; ret (full_content +:+ c)
         | _ => raise (TypeError ("can only concatenate str (not "
                                  +:+ String dquote (type_name content_chunk)
                                  +:+ String dquote ") to str"))
         end
       else ret full_content)
      is_JSONDecodeError
      (λ _, emit (LogWarning "Failed to parse streaming chunk as JSON") ;;
            ret full_content).

Definition receive_stream (lines : list string) : M string :=
  for_each lines receive_line "".

(** Lines 402-427: decode the accumulated text, repair and filter it, and
    build the response. *)
Definition build_response (full_content : string) (valid_files : gmap string string)
  : M AssistantResponse :=
  parsed_response <- loads full_content ;;
  has_reply <- lift (py_in "assistant_reply" parsed_response) ;;
  parsed_response <-
    ((if has_reply then ret parsed_response
      else lift (py_setitem parsed_response "assistant_reply" (JStr ""))) : M json) ;;
  has_key <- lift (py_in "files_to_edit" parsed_response) ;;
  has_edits <-
    ((if has_key
      then v <- lift (py_getitem parsed_response "files_to_edit") ;; ret (py_truthy v)
      else ret false) : M bool) ;;
  parsed_response <-
    ((if has_edits then
        v <- lift (py_getitem parsed_response "files_to_edit") ;;
        lift (py_len v) ;;
        edits <- lift (py_iter v) ;;
        new_files_to_edit <- filter_edits valid_files edits ;;
        lift (py_setitem parsed_response "files_to_edit" (JList new_files_to_edit))
      else ret parsed_response) : M json) ;;
  lift (AssistantResponse_of parsed_response).

(** Lines 402-437, the body of the inner [try]: build the response, record
    the reply in the history and return. *)
Definition decode_response (full_content : string) (valid_files : gmap string string)
  : M AssistantResponse :=
  response_obj <- build_response full_content valid_files ;;
  history_append assistant (assistant_reply response_obj) ;;
  ret response_obj.

Definition parse_failure : string := "Failed to parse JSON response from assistant".

(** Lines 400-446: the inner [try] with its [except json.JSONDecodeError]. *)
Definition parse_response (full_content : string) (valid_files : gmap string string)
  : M AssistantResponse :=
  try_except
    (decode_response full_content valid_files)
    is_JSONDecodeError
    (λ _,
       let error_msg := parse_failure in
       emit (LogError (error_msg +:+ ". Response content: "
                       +:+ Str.take 200 full_content +:+ "...")) ;;
       emit (ConsolePrint ("[red]✗[/red] " +:+ error_msg)) ;;
       ret (error_response error_msg)).

(** Lines 363-437: the body of the outer [try]. *)
Definition round_trip (valid_files : gmap string string) : M AssistantResponse :=
  messages <- get_history ;;
  match ollama messages with
  | HttpError e => raise e
  | HttpStream lines broken =>
      emit (ConsolePrint (nl +:+ "Assistant> ")) ;;
      full_content <- receive_stream lines ;;
      match broken with
      | Some e => raise e
      | None =>
          emit (ConsolePrint "") ;;
          parse_response full_content valid_files
      end
  end.

Definition stream_openai_response (user_message : string) : M AssistantResponse :=
  valid_files <- begin_turn user_message ;;
  try_except
    (round_trip valid_files)
    (λ _, true)
    (λ e,
       let error_msg := "Ollama API error: " +:+ exn_str e in
       emit (LogError error_msg) ;;
       emit (ConsolePrint (nl +:+ "[red]✗[/red] " +:+ error_msg)) ;;
       ret (error_response error_msg)).

End Backend.

(** [get_unique_project_dir]: the [while] loop probes [base_name-1],
    [base_name-2], ...; [fuel] is the number of further probes allowed. *)
Definition candidate (projects_dir : Path) (base_name : string) (counter : nat) : Path :=
  truediv projects_dir (base_name +:+ "-" +:+ pretty counter).

Fixpoint probe (f : filesystem) (projects_dir : Path) (base_name : string)
    (fuel counter : nat) : option nat :=
  if path_exists f (candidate projects_dir base_name counter) then
    match fuel with
    | 0 => None
    | S fuel' => probe f projects_dir base_name fuel' (S counter)
    end
  else Some counter.

Definition get_unique_project_dir (f : filesystem) (base_name : string)
    (projects_dir : Path) : option string :=
  if negb (path_exists f (truediv projects_dir base_name)) then Some base_name
  else
    counter ← probe f projects_dir base_name (size (entries f)) 1;
    Some (base_name +:+ "-" +:+ pretty counter).

(** ** Section 7 of [main.py]: what the loop does with a response *)

Definition show_diff_table (files_to_edit : list FileToEdit) : M unit :=
  match files_to_edit with
  | [] => ret tt
  | _ => emit (ConsoleTable
                 ((λ e, (edit_path e, original_snippet e, new_snippet e)) <$> files_to_edit))
  end.

(** Lines 552-572 and 600-620: create the files, then show the edits and
    apply them when the answer typed at the prompt is [y]. *)
Definition apply_response (response_data : AssistantResponse) (answer : string)
    (project_dir : Path) : M unit :=
  for_each (default [] (files_to_create response_data))
    (λ _ file_info, create_file (create_path file_info) (create_content file_info) project_dir)
    tt;;
  match default [] (files_to_edit response_data) with
  | [] => ret tt
  | edits =>
      show_diff_table edits;;
      if decide (Str.lower (Str.strip_ws answer) = "y") then
        for_each edits
          (λ _ edit_info,
             apply_diff_edit (edit_path edit_info) (original_snippet edit_info)
                             (new_snippet edit_info) project_dir)
          tt
      else emit (ConsolePrint "[yellow]ℹ[/yellow] Skipped applying diff edits.")
  end.

(** ** Section 6 of [main.py]: naming the project

    The naming request is not streamed: a body comes back, or the request
    (or its [raise_for_status]) raises.  The request carries a fixed prompt
    and the user's message, so the backend is a function of the message. *)
Inductive http_body :=
| BodyError (e : exn)
| Body (text : string).

Record ProjectNameResponse := mkProjectNameResponse {
  project_name : string;
  explanation : string
}.

Definition unnamed_project : string := "unnamed-project".

Section Naming.

Variable json_loads : string → option json.
Variable naming_backend : string → http_body.

(** [ProjectNameResponse.parse_raw(content)]: the content has to be a text
    that decodes to a dict with the two string fields; every failure is a
    [ValidationError] (its text is abbreviated here). *)
Definition ProjectNameResponse_parse_raw (content : json) : result ProjectNameResponse :=
  match content with
  | JStr s =>
      match json_loads s with
      | Some (JDict items) =>
          name ← validate_str "project_name" items;
          why ← validate_str "explanation" items;
          mret (mkProjectNameResponse name why)
      | Some _ => Raise (ValidationError "ProjectNameResponse expected dict")
      | None => Raise (ValidationError "Expecting value: line 1 column 1 (char 0)")
      end
  | _ => Raise (ValidationError "the JSON object must be str, bytes or bytearray")
  end.

(** [get_project_name]: [None] is Python's [None], which the function
    returns when it runs off its end. *)
Definition get_project_name (user_message : string) : M (option string) :=
  try_except
    (match naming_backend user_message with
     | BodyError e => raise e
     | Body text =>
         try_except
           (result <- loads json_loads text ;;
            has_message <- lift (py_in "message" result) ;;
            has_content <-
              ((if has_message
                then m <- lift (py_getitem result "message") ;; lift (py_in "content" m)
                else ret false) : M bool) ;;
            if has_content then
              m <- lift (py_getitem result "message") ;;
              content <- lift (py_getitem m "content") ;;
              project_info <- lift (ProjectNameResponse_parse_raw content) ;;
              ret (Some (project_name project_info))
            else ret None)
           (λ _, true)
           (λ e,
              emit (LogError ("Failed to parse project name response: " +:+ exn_str e)) ;;
              ret (Some unnamed_project))
     end)
    (λ _, true)
    (λ e,
       emit (LogError ("Failed to get project name from Ollama: " +:+ exn_str e)) ;;
       ret (Some unnamed_project)).

End Naming.

(** ** Section 7 of [main.py]: starting a session *)

(** [p.mkdir(exist_ok=True)], as pathlib writes it: [os.mkdir]; a
    [FileNotFoundError] comes out (no parents are made); any other [OSError]
    is accepted when the path is a directory already. *)
Definition Path_mkdir_exist_ok (p : Path) (f : filesystem) : result filesystem :=
  match os_mkdir f p with
  | Ok f' => Ok f'
  | Raise e =>
      if is_FileNotFoundError e then Raise e
      else if is_OSError e && path_is_dir f p then Ok f
           else Raise e
  end.

Definition welcome : string :=
  "[bold blue]Welcome to Qwen Engineer (qwen2.5-coder:14b) with Structured Output"
  +:+ "[/bold blue] [green](and streaming)[/green]!🚀".

Definition usage : string :=
  nl +:+ "To include a file in the conversation, use "
  +:+ "'[bold magenta]/add path/to/file[/bold magenta]'." +:+ nl
  +:+ "Type '[bold red]exit[/bold red]' or '[bold red]quit[/bold red]' to end." +:+ nl.

Definition exiting : string := nl +:+ "[yellow]Exiting.[/yellow]".
Definition goodbye : string := "[yellow]Goodbye![/yellow]".
Definition session_finished : string := "[blue]Session finished.[/blue]".

(** How [main] ends: it returns, or an exception leaves it.  The
    [EOFError] of a [console.input] that meets the end of the input is
    raised in [main] only and caught by no function above, so it is kept
    apart from [exn]. *)
Inductive session_end :=
| Finished
| Uncaught (e : exn)
| UncaughtEOFError.

(** How the processing of one message ends: the loop goes on, having asked
    for a confirmation or not, or an exception leaves [main]. *)
Inductive turn_end :=
| TurnDone (asked : bool)
| TurnCrash (c : session_end).

Section Session.

Variable json_loads : string → option json.
Variable naming_backend : string → http_body.
Variable ollama : list message → http_reply.

(** Lines 513-545 of [main]: greet, name the project after the line typed
    at the first prompt, and make its directory under [projects].  The
    result is [project_dir]; [None] stands for a [while] loop of
    [get_unique_project_dir] that has not ended within its probes.  A name
    that is [None] makes [projects_dir / base_name] a [TypeError]. *)
Definition start_session (typed : string) : M (option Path) :=
  emit (ConsolePanel "" welcome) ;;
  emit (ConsolePrint (nl +:+ "First, please describe your project idea:")) ;;
  let project_description := Str.strip_ws typed in
  base_project_name <-
    ((if decide (project_description = "") then
        emit (LogWarning "No project description provided, using default name") ;;
        ret (Some unnamed_project)
      else get_project_name json_loads naming_backend project_description)
     : M (option string)) ;;
  let projects_dir := Path_of "projects" in
  f <- get_fs ;;
  f1 <- lift (Path_mkdir_exist_ok projects_dir f) ;;
  put_fs f1 ;;
  match base_project_name with
  | None => raise (TypeError
                     "unsupported operand type(s) for /: 'PosixPath' and 'NoneType'")
  | Some base_name =>
      match get_unique_project_dir f1 base_name projects_dir with
      | None => ret None
      | Some project_name =>
          let project_dir := truediv projects_dir project_name in
          f2 <- lift (Path_mkdir_exist_ok project_dir f1) ;;
          put_fs f2 ;;
          emit (ConsolePrint (nl +:+ "[green]✓[/green] Created project directory: [cyan]"
                              +:+ Path_str project_dir +:+ "[/cyan]")) ;;
          emit (ConsolePrint usage) ;;
          ret (Some project_dir)
      end
  end.


(** Lines 550-572 and 598-620: send the message and process the response.
    [typed] is the line typed at the confirmation prompt should the
    response propose edits, [None] at the end of the input: the prompt is
    outside every [try], so the [EOFError] leaves [main], after the files
    have been created and the table shown.  Without edits nothing is asked
    and [apply_response] does not look at the answer. *)
Definition turn (user_message : string) (project_dir : Path) (typed : option string)
  : state → turn_end * state :=
  λ st,
    match stream_openai_response json_loads ollama user_message st with
    | (Raise e, st1) => (TurnCrash (Uncaught e), st1)
    | (Ok response_data, st1) =>
        match default [] (files_to_edit response_data), typed with
        | (_ :: _) as edits, None =>
            match (for_each (default [] (files_to_create response_data))
                     (λ _ file_info,
                        create_file (create_path file_info) (create_content file_info)
                                    project_dir)
                     tt ;;
                   show_diff_table edits) st1 with
            | (Raise e, st2) => (TurnCrash (Uncaught e), st2)
            | (Ok _, st2) => (TurnCrash UncaughtEOFError, st2)
            end
        | edits, _ =>
            match apply_response response_data (default "" typed) project_dir st1 with
            | (Raise e, st2) => (TurnCrash (Uncaught e), st2)
            | (Ok _, st2) => (TurnDone (bool_decide (edits ≠ [])), st2)
            end
        end
    end.

(** Lines 574-623: the loop, over the lines typed from here on; the end of
    the list is the end of the input.  A turn that has asked for a
    confirmation has read the next line. *)
Fixpoint main_loop (project_dir : Path) (inputs : list string) (st : state)
  : session_end * state :=
  match inputs with
  | [] =>
      (Finished, snd ((emit (ConsolePrint exiting) ;;
                       emit (ConsolePrint session_finished)) st))
  | typed :: rest =>
      let user_input := Str.strip_ws typed in
      if decide (user_input = "") then main_loop project_dir rest st
      else if bool_decide (Str.lower user_input ∈ ["exit"; "quit"]) then
        (Finished, snd ((emit (ConsolePrint goodbye) ;;
                         emit (ConsolePrint session_finished)) st))
      else
        match try_handle_add_command user_input st with
        | (Raise e, st1) => (Uncaught e, st1)
        | (Ok true, st1) => main_loop project_dir rest st1
        | (Ok false, st1) =>
            match turn user_input project_dir (head rest) st1, rest with
            | (TurnCrash c, st2), _ => (c, st2)
            | (TurnDone true, st2), _ :: rest' => main_loop project_dir rest' st2
            | (TurnDone _, st2), _ => main_loop project_dir rest st2
            end
        end
  end.

(** Lines 547-623: the description, when there is one, is processed as the
    first message; it is not looked at for a command. *)
Definition session (project_description : string) (project_dir : Path)
    (inputs : list string) : state → session_end * state :=
  λ st,
    if decide (project_description = "") then main_loop project_dir inputs st
    else
      match turn project_description project_dir (head inputs) st, inputs with
      | (TurnCrash c, st1), _ => (c, st1)
      | (TurnDone true, st1), _ :: rest => main_loop project_dir rest st1
      | (TurnDone _, st1), _ => main_loop project_dir inputs st1
      end.

(** [main], over all the lines typed.  The first prompt is outside every
    [try] as well.  [None] is the [None] of [start_session]. *)
Definition main (inputs : list string) : state → option (session_end * state) :=
  λ st,
    match inputs with
    | [] =>
        Some (UncaughtEOFError,
              snd ((emit (ConsolePanel "" welcome) ;;
                    emit (ConsolePrint (nl +:+ "First, please describe your project idea:")))
                     st))
    | typed :: rest =>
        match start_session typed st with
        | (Raise e, st1) => Some (Uncaught e, st1)
        | (Ok None, _) => None
        | (Ok (Some project_dir), st1) =>
            Some (session (Str.strip_ws typed) project_dir rest st1)
        end
    end.

End Session.

(** ** Vocabulary of the specification *)

(** [sub] occurs in [s] at offset [i]. *)
Definition occurs_at (sub s : string) (i : nat) : Prop :=
  ∃ pre post, s = pre +:+ sub +:+ post ∧ String.length pre = i.

(** The texts the file system hands out are C strings: no NUL in the
    current directory or in a link target. *)
Definition fs_text_ok (f : filesystem) : bool :=
  negb (Str.has_char nul (cwd f))
  && forallb (λ kv, match snd kv with
                    | Link t => negb (Str.has_char nul t)
                    | _ => true
                    end) (map_to_list (entries f)).

(** What [apply_diff_edit] prints and logs when the snippet is missing from
    the file, and when the file itself is missing. *)
Definition snippet_not_found_report (file_path : Path) (snippet content : string)
  : list event :=
  [ LogWarning ("Original snippet not found in " +:+ Path_str file_path);
    ConsolePrint ("[yellow]⚠[/yellow] Original snippet not found in '[cyan]"
                  +:+ Path_str file_path +:+ "[/cyan]'. No changes made.");
    ConsolePrint (nl +:+ "Expected snippet:");
    ConsolePanel "Expected" snippet;
    ConsolePrint (nl +:+ "Actual file content:");
    ConsolePanel "Actual" content ].

Definition file_not_found_report (file_path : Path) : list event :=
  [ LogError ("File not found for diff editing: " +:+ Path_str file_path);
    ConsolePrint ("[red]✗[/red] File not found for diff editing: " +:+ Path_str file_path) ].

Definition applied_report (file_path : Path) : list event :=
  [ ConsolePrint ("[green]✓[/green] Created/updated file at '[cyan]"
                  +:+ Path_str file_path +:+ "[/cyan]'");
    ConsolePrint ("[green]✓[/green] Applied diff edit to '[cyan]"
                  +:+ Path_str file_path +:+ "[/cyan]'") ].

(** The operations that touch the conversation history between turns. *)
Inductive operation :=
| OpAppend (r : role) (text : string)
| OpPreload (potential_paths : list string)
| OpEnsure (file_path : string)
| OpCreate (path content : string)
| OpPatch (path original new : string).

Definition run_operation (project_dir : Path) (op : operation) : M unit :=
  match op with
  | OpAppend r text => history_append r text
  | OpPreload potential_paths => preload_files potential_paths ;; ret tt
  | OpEnsure file_path => ensure_file_in_context file_path ;; ret tt
  | OpCreate path content => create_file path content project_dir
  | OpPatch path original new => apply_diff_edit path original new project_dir
  end.

Definition run_operations (project_dir : Path) (ops : list operation) : M unit :=
  for_each ops (λ _ op, run_operation project_dir op) tt.

(** The operations that check the history before they append. *)
Definition checks_first (op : operation) : bool :=
  match op with
  | OpPreload _ | OpEnsure _ => true
  | _ => false
  end.

(** The messages of a history that carry the framing of the file at a
    canonical path, and the invariant the specification states. *)
Definition file_messages_for (normalized_path : string) (h : list message) : list message :=
  filter (λ m, Str.contains (file_marker normalized_path) (msg_content m) = true) h.

Definition no_duplicate_file_content (h : list message) : Prop :=
  ∀ normalized_path, List.length (file_messages_for normalized_path h) ≤ 1.

(** The message a file's content is framed in. *)
Definition file_entry (pc : string * string) : message :=
  mkMsg system (file_message (fst pc) (snd pc)).

(** [st'] is [st] with file contents appended to the history, each for a
    canonical path of its own whose marker was nowhere in the history of
    [st]; the file system is the same. *)
Definition extends_context (st st' : state) : Prop :=
  fs st' = fs st ∧
  ∃ added : list (string * string),
    conversation_history st' = conversation_history st ++ (file_entry <$> added) ∧
    NoDup (fst <$> added) ∧
    Forall (λ p, marker_in_history (file_marker p) (conversation_history st) = false)
           (fst <$> added).

(** The state in which a turn sends its request, and the files it has read
    by then. *)
Definition turn_start (user_message : string) (st : state) : state :=
  snd (begin_turn user_message st).

Definition turn_files (user_message : string) (st : state) : gmap string string :=
  match fst (begin_turn user_message st) with
  | Ok valid_files => valid_files
  | Raise _ => ∅
  end.

(** The text accumulated from the stream of a turn, when the request goes
    through and the stream ends normally. *)
Definition accumulated_output (json_loads : string → option json)
    (ollama : list message → http_reply) (user_message : string) (st : state)
  : option string :=
  let st1 := turn_start user_message st in
  match ollama (conversation_history st1) with
  | HttpStream lines None =>
      match fst (receive_stream json_loads lines st1) with
      | Ok full_content => Some full_content
      | Raise _ => None
      end
  | _ => None
  end.

(** The state differs in what was printed only. *)
Definition only_output (st st' : state) : Prop :=
  fs st' = fs st ∧ conversation_history st' = conversation_history st.

(** [m] reads nothing of the state and only adds to what was printed. *)
Definition writes_only {A} (m : M A) : Prop :=
  ∃ r evs, ∀ st, m st = (r, mkState (fs st) (conversation_history st) (output st ++ evs)).

(** Whatever [m] does, the state afterwards extends the context of the
    state before. *)
Definition grows {A} (m : M A) : Prop :=
  ∀ st, extends_context st (snd (m st)).

(** The state in which the accumulated text is decoded: the start of the
    turn plus what the stream loop printed. *)
Definition stream_end (json_loads : string → option json)
    (ollama : list message → http_reply) (user_message : string) (st : state) : state :=
  let st1 := turn_start user_message st in
  match ollama (conversation_history st1) with
  | HttpStream lines None =>
      snd ((emit (ConsolePrint (nl +:+ "Assistant> ")) ;;
            receive_stream json_loads lines ;;
            emit (ConsolePrint "")) st1)
  | _ => st1
  end.

(** The structured response an accumulated text decodes to in this turn, or
    the exception decoding it raises. *)
Definition structured_response (json_loads : string → option json)
    (ollama : list message → http_reply) (user_message : string) (st : state)
    (full_content : string) : result AssistantResponse :=
  fst (build_response json_loads full_content (turn_files user_message st)
         (stream_end json_loads ollama user_message st)).

(** A failed turn: no text was accumulated (the request, the stream or the
    reading of a chunk raised), or the accumulated text does not decode to
    a structured response. *)
Definition failed_turn (json_loads : string → option json)
    (ollama : list message → http_reply) (user_message : string) (st : state) : Prop :=
  match accumulated_output json_loads ollama user_message st with
  | None => True
  | Some full_content =>
      match structured_response json_loads ollama user_message st full_content with
      | Ok _ => False
      | Raise _ => True
      end
  end.

(** The text the reply that reports [e] carries: the inner handler's for a
    [JSONDecodeError], the outer handler's for anything else. *)
Definition diagnostic (e : exn) : string :=
  if is_JSONDecodeError e then parse_failure
  else "Ollama API error: " +:+ exn_str e.

(** A reply that reports a failure: a diagnostic text and no file effects. *)
Definition synthetic (r : AssistantResponse) : Prop :=
  ∃ error_msg, error_msg ≠ "" ∧ r = error_response error_msg.

(** A proposed edit as the backend sends it: a dict with the three string
    fields of [FileToEdit]. *)
Definition describes (j : json) (e : FileToEdit) : Prop :=
  ∃ items, j = JDict items ∧
    dict_get "path" items = Some (JStr (edit_path e)) ∧
    dict_get "original_snippet" items = Some (JStr (original_snippet e)) ∧
    dict_get "new_snippet" items = Some (JStr (new_snippet e)).

(** The file at a canonical path can be read now, the way
    [ensure_file_in_context] tries it. *)
Definition can_read_now (f : filesystem) (canonical : string) : bool :=
  match normalize_path f canonical with
  | Ok p => match open_read f (of_str p) with
            | Ok _ => true
            | Raise _ => false
            end
  | Raise _ => false
  end.

(** The specification's rule for one proposed edit: canonicalize its path;
    drop it when that fails; keep it, with the canonical path, when the path
    is among the files read this turn or can be read now. *)
Definition admitted_edit (f : filesystem) (valid_files : gmap string string)
    (e : FileToEdit) : option FileToEdit :=
  match normalize_path f (edit_path e) with
  | Ok canonical =>
      if bool_decide (is_Some (valid_files !! canonical)) || can_read_now f canonical
      then Some (mkFileToEdit canonical (original_snippet e) (new_snippet e))
      else None
  | Raise _ => None
  end.

Definition invalid_path_warning (p : string) : event :=
  LogWarning ("Invalid path in edit request: " +:+ p).

(** *** Canonical paths *)

(** A name is proper when a walk does not skip it. *)
Definition proper (x : string) : Prop := x ≠ "" ∧ x ≠ ".".

Global Instance proper_dec (x : string) : Decision (proper x).
Proof. unfold proper. apply _. Defined.

(** The names of a resolved location: proper, not [".."], without slash
    and without NUL. *)
Definition plain_name (x : string) : Prop :=
  x ≠ "" ∧ x ≠ "." ∧ x ≠ ".." ∧ Str.has_char "/" x = false ∧ Str.has_char nul x = false.

(** A location is resolved when its names are plain and none of its
    prefixes is a symbolic link. *)
Definition resolved (f : filesystem) (l : loc) : Prop :=
  Forall plain_name l ∧ ∀ i, link_target f (take i l) = None.

(** Resolving the path meets a symbolic-link loop. *)
Definition meets_loop (f : filesystem) (path_str : string) : bool :=
  match realpath f path_str with
  | Some (_, looped) => looped
  | None => false
  end.

(** The kernel's walk as a relation that counts the links it follows:
    [walks f d rest k l] when the walk of [rest] from [d] reaches [l] and
    follows [k] links on the way. *)
Inductive walks (f : filesystem) : loc → list string → nat → loc → Prop :=
| walks_nil d :
    walks f d [] 0 d
| walks_skip d name rest k l :
    lstat f d = Some Dir → name = "" ∨ name = "." →
    walks f d rest k l → walks f d (name :: rest) k l
| walks_up d rest k l :
    lstat f d = Some Dir →
    walks f (removelast d) rest k l → walks f d (".." :: rest) k l
| walks_down d name rest k l :
    lstat f d = Some Dir → ¬ (name = "" ∨ name = ".") → name ≠ ".." →
    link_target f (d ++ [name]) = None →
    walks f (d ++ [name]) rest k l → walks f d (name :: rest) k l
| walks_link d name rest target k l :
    lstat f d = Some Dir → ¬ (name = "" ∨ name = ".") → name ≠ ".." →
    link_target f (d ++ [name]) = Some target →
    walks f (target_base d target) (Str.split "/" target ++ rest) k l →
    walks f d (name :: rest) (S k) l.

(** Following a link that is being resolved again costs at least [k]
    links, for every link of [active]. *)
Definition no_way_back (f : filesystem) (active : list loc) (k : nat) : Prop :=
  ∀ L target X k' l',
    L ∈ active → link_target f L = Some target →
    walks f (target_base (removelast L) target) (Str.split "/" target ++ X) k' l' →
    k ≤ k'.

(** *** Guessing files *)

(** A word of a message that [guess_files_in_message] takes for a file: it
    holds a recognized extension or a slash. *)
Definition names_a_file (word : string) : bool :=
  existsb (λ ext, Str.contains ext word) recognized_extensions || Str.contains "/" word.

(** The path guessed from a word: the canonical path of the word without
    the quotes and commas around it. *)
Definition guessed_path (f : filesystem) (word : string) : option string :=
  if names_a_file word then
    match normalize_path f (Str.strip quote_chars word) with
    | Ok normalized_path => Some normalized_path
    | Raise _ => None
    end
  else None.

(** The content of the file at a path, when it can be read. *)
Definition read_now (f : filesystem) (path : string) : option string :=
  match open_read f (of_str path) with
  | Ok content => Some content
  | Raise _ => None
  end.

(** *** Changes of the file system *)

(** [f'] is [f] with directories added and nothing else changed. *)
Definition adds_dirs (f f' : filesystem) : Prop :=
  cwd f' = cwd f ∧ data f' = data f ∧ entries f ⊆ entries f' ∧
  ∀ l n, entries f' !! l = Some n →
         entries f !! l = Some n ∨ (entries f !! l = None ∧ n = Dir).

(** [f'] has every entry of [f], and no symbolic link that [f] has not. *)
Definition extends_fs (f f' : filesystem) : Prop :=
  cwd f' = cwd f ∧ entries f ⊆ entries f' ∧
  ∀ l t, entries f' !! l = Some (Link t) → entries f !! l = Some (Link t).

(** [m] leaves the file system as it finds it. *)
Definition keeps_fs {A} (m : M A) : Prop :=
  ∀ st, fs (snd (m st)) = fs st.

(** *** Sessions *)

(** [st'] has the history and the output of [st], with more at the end. *)
Definition continues (st st' : state) : Prop :=
  conversation_history st `prefix_of` conversation_history st' ∧
  output st `prefix_of` output st'.

(** Whatever [m] does, it takes back nothing of what was recorded or
    printed. *)
Definition appends {A} (m : M A) : Prop :=
  ∀ st, continues st (snd (m st)).

(** A line the loop deals with by itself: blank, [exit] or [quit], or an
    [/add] command. *)
Definition local_command (typed : string) : bool :=
  let user_input := Str.strip_ws typed in
  bool_decide (user_input = "")
  || bool_decide (Str.lower user_input ∈ ["exit"; "quit"])
  || Str.startswith "/add " (Str.lower user_input).

(** No white space in front. *)
Definition stripped_left (s : string) : Prop :=
  match s with
  | "" => True
  | String c _ => Str.isspace c = false
  end.

(** ** Example inputs *)

Definition example_fs : filesystem :=
  mkFS "/home/u"
    (list_to_map
       [ (["home"], Dir);
         (["home"; "u"], Dir);
         (["home"; "u"; "app.py"], File 1);
         (["home"; "u"; "projects"], Dir);
         (["home"; "u"; "projects"; "demo"], Dir);
         (["home"; "u"; "projects"; "demo"; "main.py"], File 2) ])
    (λ i, if decide (i = 1) then "x = 1; y = 1"
          else if decide (i = 2) then "print(1)" else "").

Definition example_state : state := mkState example_fs [] [].

Definition example_dir : Path := Path_of "projects/demo".

(** A decoded response with three proposed edits: one to a file that can be
    read, one to a file that is not there, one whose path cannot be
    canonicalized.  [example_loads] is a stand-in for [json.loads] that
    decodes one text, to this response. *)
Definition edit_json (e : FileToEdit) : json :=
  JDict [ ("path", JStr (edit_path e));
          ("original_snippet", JStr (original_snippet e));
          ("new_snippet", JStr (new_snippet e)) ].

Definition example_edits : list FileToEdit :=
  [ mkFileToEdit "app.py" "x = 1" "x = 2";
    mkFileToEdit "missing.py" "a" "b";
    mkFileToEdit (String nul "") "a" "b" ].

Definition example_response : list (string * json) :=
  [ ("assistant_reply", JStr "done");
    ("files_to_edit", JList (edit_json <$> example_edits)) ].

(** The stand-in decodes two more texts: a streamed chunk that carries the
    fragment [<response>] and one that carries a fragment that is no JSON. *)
Definition chunk_json (content : string) : json :=
  JDict [ ("message", JDict [ ("content", JStr content) ]) ].

Definition example_loads (s : string) : option json :=
  if decide (s = "<response>") then Some (JDict example_response)
  else if decide (s = "<chunk>") then Some (chunk_json "<response>")
  else if decide (s = "<garbled chunk>") then Some (chunk_json "Sure! Here is")
  else None.

(** Three backends: one that answers with the response, one whose answer is
    no JSON, one that refuses the connection. *)
Definition example_ollama : list message → http_reply :=
  λ _, HttpStream ["<chunk>"] None.

Definition example_ollama_garbled : list message → http_reply :=
  λ _, HttpStream ["<garbled chunk>"] None.

Definition example_ollama_down : list message → http_reply :=
  λ _, HttpError (RequestException "Connection refused").

(** A projects directory with two projects and a regular file, and an
    empty one. *)
Definition example_projects_fs : filesystem :=
  mkFS "/home/u"
    (list_to_map
       [ (["home"], Dir);
         (["home"; "u"], Dir);
         (["home"; "u"; "projects"], Dir);
         (["home"; "u"; "projects"; "foo"], Dir);
         (["home"; "u"; "projects"; "foo-1"], Dir);
         (["home"; "u"; "projects"; "notes"], File 1) ])
    (λ _, "").

Definition example_empty_root_fs : filesystem :=
  mkFS "/home/u"
    (list_to_map [ (["home"], Dir); (["home"; "u"], Dir); (["home"; "u"; "projects"], Dir) ])
    (λ _, "").

(** A directory with a file that has two hard links, a symbolic link to a
    directory, and two symbolic links that form a loop. *)
Definition example_links_fs : filesystem :=
  mkFS "/home/u"
    (list_to_map
       [ (["home"], Dir);
         (["home"; "u"], Dir);
         (["home"; "u"; "src"], Dir);
         (["home"; "u"; "src"; "main.py"], File 1);
         (["home"; "u"; "copy.py"], File 1);
         (["home"; "u"; "cur"], Link "src");
         (["home"; "u"; "lp"], Link "lq/c");
         (["home"; "u"; "lq"], Link "lp") ])
    (λ i, if decide (i = 1) then "print(1)" else "").

(** Replies to the naming request: one that suggests a name, and one that
    carries no message.  [example_naming_loads] is a stand-in for
    [json.loads] that decodes their texts. *)
Definition example_naming_loads (s : string) : option json :=
  if decide (s = "<reply>") then
    Some (JDict [ ("message", JDict [ ("role", JStr "assistant");
                                      ("content", JStr "<suggestion>") ]) ])
  else if decide (s = "<suggestion>") then
    Some (JDict [ ("project_name", JStr "todo-app");
                  ("explanation", JStr "a to-do list") ])
  else if decide (s = "<error reply>") then
    Some (JDict [ ("error", JStr "model not found") ])
  else None.

Definition example_naming_backend : string → http_body := λ _, Body "<reply>".

Definition example_naming_backend_error : string → http_body := λ _, Body "<error reply>".

(** * Properties *)

(** The functions below are reasoned about through their lemmas. *)
Global Arguments Path_str : simpl never.
Global Arguments Path_of : simpl never.
Global Arguments truediv : simpl never.
Global Arguments lookup_path : simpl never.
Global Arguments open_read : simpl never.
Global Arguments open_write : simpl never.
Global Arguments Path_mkdir : simpl never.
Global Arguments normalize_path : simpl never.
Global Arguments file_message : simpl never.
Global Arguments file_marker : simpl never.
Global Arguments Str.contains : simpl never.
Global Arguments Str.replace_first : simpl never.
Global Arguments dict_get : simpl never.
Global Arguments dict_set : simpl never.

(** ** Strings *)

Lemma str_app_nil_l (s : string) : "" +:+ s = s.
Proof. reflexivity. Qed.

Lemma str_app_cons (c : ascii) (s t : string) : String c s +:+ t = String c (s +:+ t).
Proof. reflexivity. Qed.

Lemma str_app_nil_r (s : string) : s +:+ "" = s.
Proof. induction s as [|c s IH]; [reflexivity|]. by rewrite str_app_cons, IH. Qed.

Lemma str_app_assoc (s t u : string) : (s +:+ t) +:+ u = s +:+ (t +:+ u).
Proof. induction s as [|c s IH]; [reflexivity|]. by rewrite !str_app_cons, IH. Qed.

Lemma str_length_app (s t : string) :
  String.length (s +:+ t) = String.length s + String.length t.
Proof. induction s as [|c s IH]; [reflexivity|]. rewrite str_app_cons. simpl. by rewrite IH. Qed.

Lemma take_app_length (s t : string) : Str.take (String.length s) (s +:+ t) = s.
Proof. induction s as [|c s IH]; [by destruct t|]. rewrite str_app_cons. simpl. by rewrite IH. Qed.

Lemma drop_app_length (s t : string) : Str.drop (String.length s) (s +:+ t) = t.
Proof. induction s as [|c s IH]; [by destruct t|]. by rewrite str_app_cons. Qed.

Lemma take_drop (n : nat) (s : string) : Str.take n s +:+ Str.drop n s = s.
Proof.
  revert s. induction n as [|n IH]; intros [|c s]; simpl; try done.
  by rewrite str_app_cons, IH.
Qed.

Lemma startswith_spec (p s : string) :
  Str.startswith p s = true ↔ ∃ t, s = p +:+ t.
Proof.
  revert s. induction p as [|c p IH]; intros s; simpl.
  - split; [intros _; by exists s | done].
  - destruct s as [|d s]; [split; [done | intros [t Ht]; discriminate]|].
    destruct (decide (c = d)) as [->|Hne].
    + rewrite IH. split; intros [t Ht]; exists t.
      * by rewrite str_app_cons, Ht.
      * rewrite str_app_cons in Ht. by injection Ht.
    + split; [done|]. intros [t Ht]. rewrite str_app_cons in Ht. by injection Ht.
Qed.

Lemma startswith_app (p t : string) : Str.startswith p (p +:+ t) = true.
Proof. apply startswith_spec. by exists t. Qed.

Lemma occurs_at_0 (sub s : string) : occurs_at sub s 0 ↔ Str.startswith sub s = true.
Proof.
  rewrite startswith_spec. split.
  - intros ([|c pre] & post & -> & Hl); [|done]. by exists post.
  - intros [t ->]. by exists "", t.
Qed.

Lemma occurs_at_S (sub : string) (c : ascii) (s : string) (i : nat) :
  occurs_at sub (String c s) (S i) ↔ occurs_at sub s i.
Proof.
  split.
  - intros ([|d pre] & post & Heq & Hl); [done|].
    rewrite str_app_cons in Heq. injection Heq as -> ->. simpl in Hl.
    exists pre, post. split; [done | lia].
  - intros (pre & post & -> & <-). by exists (String c pre), post.
Qed.

Lemma occurs_at_nil_S (sub : string) (i : nat) : ¬ occurs_at sub "" (S i).
Proof. by intros ([|d pre] & post & Heq & Hl). Qed.

(** [find] returns the leftmost occurrence, and [None] only when there is
    none. *)
Lemma find_Some (sub s : string) (i : nat) :
  Str.find sub s = Some i ↔ occurs_at sub s i ∧ ∀ j, j < i → ¬ occurs_at sub s j.
Proof.
  revert i. induction s as [|c s IH]; intros i; simpl.
  - destruct (Str.startswith sub "") eqn:Hp.
    + split.
      * intros [= <-]. split; [by apply occurs_at_0 | lia].
      * intros [_ Hmin]. destruct i as [|i]; [done|].
        destruct (Hmin 0); [lia | by apply occurs_at_0].
    + split; [done|]. intros [Ho _]. destruct i as [|i].
      * apply occurs_at_0 in Ho. congruence.
      * by apply occurs_at_nil_S in Ho.
  - destruct (Str.startswith sub (String c s)) eqn:Hp.
    + split.
      * intros [= <-]. split; [by apply occurs_at_0 | lia].
      * intros [_ Hmin]. destruct i as [|i]; [done|].
        destruct (Hmin 0); [lia | by apply occurs_at_0].
    + split.
      * intros Hf. destruct (Str.find sub s) as [k|]; [|done].
        simpl in Hf. injection Hf as <-.
        destruct (proj1 (IH k) eq_refl) as [Ho Hmin]. split.
        -- by apply occurs_at_S.
        -- intros [|j] Hj Hoj.
           ++ apply occurs_at_0 in Hoj. congruence.
           ++ apply occurs_at_S in Hoj. apply (Hmin j); [lia | done].
      * intros [Ho Hmin]. destruct i as [|i].
        -- apply occurs_at_0 in Ho. congruence.
        -- apply occurs_at_S in Ho.
           rewrite (proj2 (IH i)); [done|].
           split; [done|]. intros j Hj Hoj.
           apply (Hmin (S j)); [lia | by apply occurs_at_S].
Qed.

Lemma find_None (sub s : string) :
  Str.find sub s = None ↔ ∀ i, ¬ occurs_at sub s i.
Proof.
  split.
  - induction s as [|c s IH]; simpl; intros Hf i Ho.
    + destruct (Str.startswith sub "") eqn:Hp; [done|].
      destruct i; [apply occurs_at_0 in Ho; congruence | by apply occurs_at_nil_S in Ho].
    + destruct (Str.startswith sub (String c s)) eqn:Hp; [done|].
      destruct (Str.find sub s) eqn:Hk; [done|].
      destruct i; [apply occurs_at_0 in Ho; congruence|].
      apply occurs_at_S in Ho. by apply (IH eq_refl i).
  - intros Hno. destruct (Str.find sub s) as [k|] eqn:Hk; [|done].
    apply find_Some in Hk as [Ho _]. by destruct (Hno k).
Qed.

Lemma contains_spec (sub s : string) :
  Str.contains sub s = true ↔ ∃ i, occurs_at sub s i.
Proof.
  unfold Str.contains. rewrite bool_decide_eq_true. split.
  - intros [i Hi]. apply find_Some in Hi as [Ho _]. eauto.
  - intros [i Ho]. destruct (Str.find sub s) eqn:Hf; [done|].
    by eapply find_None in Hf.
Qed.

Lemma contains_false (sub s : string) :
  Str.contains sub s = false ↔ ∀ i, ¬ occurs_at sub s i.
Proof.
  rewrite <- find_None. unfold Str.contains. rewrite bool_decide_eq_false.
  destruct (Str.find sub s); split; try done.
  intros H. destruct H. eauto.
Qed.

Lemma contains_app (pre sub post : string) : Str.contains sub (pre +:+ sub +:+ post) = true.
Proof. apply contains_spec. exists (String.length pre), pre, post. done. Qed.

(** [replace_first] splices [new] in place of the occurrence [find] returns. *)
Lemma replace_first_spec (old new pre post : string) :
  Str.find old (pre +:+ old +:+ post) = Some (String.length pre) →
  Str.replace_first old new (pre +:+ old +:+ post) = pre +:+ new +:+ post.
Proof.
  intros Hf. unfold Str.replace_first. rewrite Hf.
  rewrite take_app_length. f_equal. f_equal.
  rewrite <- str_length_app, <- str_app_assoc. apply drop_app_length.
Qed.

Lemma replace_first_absent (old new s : string) :
  Str.contains old s = false → Str.replace_first old new s = s.
Proof.
  intros H. unfold Str.replace_first. unfold Str.contains in H.
  apply bool_decide_eq_false in H. destruct (Str.find old s); [|done].
  destruct H. eauto.
Qed.

Lemma has_char_app (c : ascii) (s t : string) :
  Str.has_char c (s +:+ t) = Str.has_char c s || Str.has_char c t.
Proof.
  induction s as [|d s IH]; [reflexivity|]. rewrite str_app_cons. simpl.
  by destruct (decide (c = d)).
Qed.

Lemma has_char_join (c : ascii) (sep : string) (l : list string) :
  Str.has_char c sep = false →
  Str.has_char c (Str.join sep l) = false ↔ Forall (λ x, Str.has_char c x = false) l.
Proof.
  intros Hsep. induction l as [|x l IH]; simpl.
  - split; [constructor | done].
  - destruct l as [|y l].
    + split; [by repeat constructor | by inversion 1].
    + rewrite !has_char_app, Hsep, !orb_false_iff, IH. split.
      * intros (? & _ & ?). by constructor.
      * inversion 1; subst. done.
Qed.

Lemma Forall_removelast {A} (P : A → Prop) (l : list A) : Forall P l → Forall P (removelast l).
Proof.
  induction 1 as [|x l Hx Hl IH]; simpl; [constructor|].
  destruct l; [constructor | by constructor].
Qed.

Lemma removelast_snoc {A} (l : list A) (x : A) : removelast (l ++ [x]) = l.
Proof. by rewrite removelast_app, app_nil_r. Qed.

Lemma last_snoc_eq {A} (l : list A) (x : A) : last (l ++ [x]) = Some x.
Proof. by rewrite last_snoc. Qed.

(** ** Paths *)

Lemma Path_str_no_nul (p : Path) :
  Str.has_char nul (Path_str p) = false ↔
  Str.has_char nul (root p) = false ∧ Forall (λ x, Str.has_char nul x = false) (parts p).
Proof.
  unfold Path_str. destruct (root p) as [|c r] eqn:Hr.
  - destruct (parts p) as [|x l] eqn:Hp.
    + split; [by split; [|constructor] | done].
    + rewrite str_app_nil_l, has_char_join by done. split; [by intros ? | by intros [_ ?]].
  - rewrite has_char_app, orb_false_iff, has_char_join by done. done.
Qed.

Lemma parent_no_nul (p : Path) :
  Str.has_char nul (Path_str p) = false → Str.has_char nul (Path_str (parent p)) = false.
Proof.
  rewrite !Path_str_no_nul. simpl. intros [? ?]. split; [done|].
  by apply Forall_removelast.
Qed.

Lemma truediv_absolute (d : Path) (key : string) :
  Str.startswith "/" key = true → truediv d key = Path_of key.
Proof. intros H. unfold truediv. by rewrite H. Qed.

(** ** The kernel's walk *)

Lemma namei_nil (f : filesystem) (fuel : nat) (d : loc) : namei f fuel d [] = Reached d.
Proof. by destruct fuel. Qed.

Lemma namei_cons (f : filesystem) (fuel : nat) (d : loc) (name : string)
    (rest : list string) :
  namei f fuel d (name :: rest) =
    match lstat f d with
    | Some Dir =>
        if decide (name = "" ∨ name = ".") then namei f fuel d rest
        else if decide (name = "..") then namei f fuel (removelast d) rest
        else match link_target f (d ++ [name]) with
             | Some target =>
                 match fuel with
                 | 0 => Failed ELOOP
                 | S fuel' =>
                     namei f fuel' (target_base d target) (Str.split "/" target ++ rest)
                 end
             | None => namei f fuel (d ++ [name]) rest
             end
    | Some _ => Failed ENOTDIR
    | None => Failed ENOENT
    end.
Proof. by destruct fuel. Qed.

(** A walk over [A ++ B] is a walk over [A] followed by one over [B]. *)
Lemma namei_app (f : filesystem) (fuel : nat) (d : loc) (A B : list string) (l : loc) :
  namei f fuel d (A ++ B) = Reached l →
  ∃ d' fuel', fuel' ≤ fuel ∧ namei f fuel d A = Reached d' ∧ namei f fuel' d' B = Reached l.
Proof.
  revert d A. induction fuel as [fuel IHf] using lt_wf_ind.
  intros d A. revert d. induction A as [|name A IHA]; intros d H.
  - exists d, fuel. rewrite namei_nil. by eauto.
  - rewrite <- app_comm_cons, namei_cons in H. rewrite namei_cons.
    destruct (lstat f d) as [[| |]|]; try done.
    destruct (decide (name = "" ∨ name = ".")); [by apply IHA|].
    destruct (decide (name = "..")); [by apply IHA|].
    destruct (link_target f (d ++ [name])) as [target|]; [|by apply IHA].
    destruct fuel as [|fuel']; [done|].
    rewrite app_assoc in H.
    apply IHf in H as (d' & fuel'' & Hle & H1 & H2); [|lia].
    exists d', fuel''. split; [lia | done].
Qed.

Lemma namei_last_dir (f : filesystem) (fuel : nat) (d : loc) (x : string) (l : loc) :
  namei f fuel d [x] = Reached l → lstat f d = Some Dir.
Proof. rewrite namei_cons. by destruct (lstat f d) as [[| |]|]. Qed.

(** The walk reads the entries only. *)
Lemma namei_ext (f1 f2 : filesystem) (fuel : nat) (d : loc) (rest : list string) :
  entries f1 = entries f2 → namei f1 fuel d rest = namei f2 fuel d rest.
Proof.
  intros He.
  assert (∀ l, lstat f1 l = lstat f2 l) as Hl by (intros []; simpl; by rewrite ?He).
  assert (∀ l, link_target f1 l = link_target f2 l) as Ht
    by (intros l; unfold link_target; by rewrite Hl).
  revert d rest. induction fuel as [fuel IHf] using lt_wf_ind.
  intros d rest. revert d. induction rest as [|name rest IH]; intros d.
  - by rewrite !namei_nil.
  - rewrite !namei_cons, Hl, Ht.
    destruct (lstat f2 d) as [[| |]|]; try done.
    repeat case_decide; try done.
    destruct (link_target f2 (d ++ [name])); [|done].
    destruct fuel; [done|]. apply IHf. lia.
Qed.

Lemma lookup_path_ext (f1 f2 : filesystem) (o : ospath) :
  entries f1 = entries f2 → cwd f1 = cwd f2 → lookup_path f1 o = lookup_path f2 o.
Proof.
  intros He Hc. unfold lookup_path, walk_start. rewrite Hc. by apply namei_ext.
Qed.

(** A relative walk that reaches a location passed the current directory,
    so the location of a path without names is a directory. *)
Lemma lookup_no_parts (f : filesystem) (absolute : bool) (l : loc) :
  namei f MAXSYMLINKS [] (walk_start f absolute ++ []) = Reached l → lstat f l = Some Dir.
Proof.
  rewrite app_nil_r. unfold walk_start. destruct absolute.
  - rewrite namei_nil. by intros [= <-].
  - intros H. apply namei_app in H as (d & fuel' & _ & _ & H).
    pose proof (namei_last_dir _ _ _ _ _ H) as Hd.
    rewrite namei_cons, Hd in H. rewrite decide_True in H by auto.
    rewrite namei_nil in H. by injection H as <-.
Qed.

(** ** [realpath] and [normalize_path] *)

Lemma has_char_drop (c : ascii) (n : nat) (s : string) :
  Str.has_char c s = false → Str.has_char c (Str.drop n s) = false.
Proof.
  revert s. induction n as [|n IH]; intros [|d s]; simpl; try done.
  destruct (decide (c = d)); [done | apply IH].
Qed.

Lemma split_cons (sep c : ascii) (s : string) :
  Str.split sep (String c s) =
    if decide (c = sep) then "" :: Str.split sep s
    else String c (hd "" (Str.split sep s)) :: tl (Str.split sep s).
Proof.
  simpl. destruct (decide (c = sep)); [done|].
  destruct s as [|d s]; [done|]. simpl. by destruct (decide (d = sep)), (Str.split sep s).
Qed.

Lemma split_nonempty (sep : ascii) (s : string) : Str.split sep s ≠ [].
Proof. destruct s as [|c s]; [done|]. rewrite split_cons. by case_decide. Qed.

Lemma split_no_char (c sep : ascii) (s : string) :
  Str.has_char c s = false → Forall (λ x, Str.has_char c x = false) (Str.split sep s).
Proof.
  induction s as [|d s IH]; [by repeat constructor|].
  rewrite split_cons. simpl. destruct (decide (c = d)); [done|]. intros H.
  specialize (IH H). pose proof (split_nonempty sep s).
  destruct (Str.split sep s) as [|w ws]; [done|]. inversion IH; subst.
  case_decide.
  - constructor; [done|]. by constructor.
  - constructor; [|done]. simpl. by rewrite decide_False.
Qed.

Lemma splitroot_no_nul (s : string) :
  Str.has_char nul s = false →
  Str.has_char nul (fst (splitroot s)) = false ∧ Str.has_char nul (snd (splitroot s)) = false.
Proof.
  intros H. unfold splitroot.
  destruct (Str.startswith "///" s); [|destruct (Str.startswith "//" s);
    [|destruct (Str.startswith "/" s)]]; cbn [fst snd]; split; try done;
    by apply has_char_drop.
Qed.

Lemma Path_of_no_nul (s : string) :
  Str.has_char nul s = false → Str.has_char nul (Path_str (Path_of s)) = false.
Proof.
  intros H. apply Path_str_no_nul. unfold Path_of.
  destruct (splitroot_no_nul s H) as [Hr Hrel].
  destruct (splitroot s) as [r rel]. simpl in *. split; [done|].
  apply Forall_forall. intros x [_ Hx]%list_elem_of_filter.
  by eapply Forall_forall in Hx; [|by apply split_no_char].
Qed.

Lemma fs_text_ok_cwd (f : filesystem) :
  fs_text_ok f = true → Str.has_char nul (cwd f) = false.
Proof. unfold fs_text_ok. rewrite andb_true_iff, negb_true_iff. by intros [? _]. Qed.

Lemma fs_text_ok_link (f : filesystem) (l : loc) (t : string) :
  fs_text_ok f = true → link_target f l = Some t → Str.has_char nul t = false.
Proof.
  unfold fs_text_ok. rewrite andb_true_iff, forallb_forall. intros [_ H].
  unfold link_target, lstat. destruct l as [|x l]; [done|].
  destruct (_ !! _) as [[|i|t']|] eqn:He; try done. intros [= ->].
  rewrite <- elem_of_map_to_list, list_elem_of_In in He.
  apply H in He. simpl in He. by apply negb_true_iff in He.
Qed.

Lemma realpath_walk_nil (f : filesystem) (fuel : nat) (active : list loc) (path : loc) :
  realpath_walk f fuel active path [] = Some (path, false).
Proof. by destruct fuel. Qed.

Lemma realpath_walk_cons (f : filesystem) (fuel : nat) (active : list loc) (path : loc)
    (name : string) (rest : list string) :
  realpath_walk f fuel active path (name :: rest) =
    if decide (name = "" ∨ name = ".") then realpath_walk f fuel active path rest
    else if decide (name = "..") then realpath_walk f fuel active (removelast path) rest
    else if Str.has_char nul name then None
    else
      let newpath := path ++ [name] in
      match link_target f newpath with
      | None => realpath_walk f fuel active newpath rest
      | Some target =>
          match fuel with
          | S fuel' =>
              if decide (newpath ∈ active)
              then mark_loop (realpath_walk f fuel active newpath rest)
              else
                match realpath_walk f fuel' (newpath :: active)
                        (target_base path target) (Str.split "/" target) with
                | Some (p, l1) =>
                    match realpath_walk f fuel active p rest with
                    | Some (q, l2) => Some (q, l1 || l2)
                    | None => None
                    end
                | None => None
                end
          | 0 => mark_loop (realpath_walk f fuel active newpath rest)
          end
      end.
Proof. by destruct fuel. Qed.

(** On a file system with proper texts the walk fails on no NUL-free path. *)
Lemma realpath_walk_total (f : filesystem) (fuel : nat) (active : list loc) (path : loc)
    (rest : list string) :
  fs_text_ok f = true →
  Forall (λ x, Str.has_char nul x = false) rest →
  is_Some (realpath_walk f fuel active path rest).
Proof.
  intros Hok. revert active path rest.
  induction fuel as [fuel IHf] using lt_wf_ind.
  intros active path rest. revert path.
  induction rest as [|name rest IH]; intros path Hrest.
  - rewrite realpath_walk_nil. by eexists.
  - inversion Hrest as [|? ? Hname Hrest']; subst.
    rewrite realpath_walk_cons, Hname. cbv zeta.
    destruct (decide (name = "" ∨ name = ".")); [by apply IH|].
    destruct (decide (name = "..")); [by apply IH|].
    destruct (link_target f (path ++ [name])) as [target|] eqn:Ht; [|by apply IH].
    destruct fuel as [|fuel'].
    + destruct (IH (path ++ [name]) Hrest') as [[q l] ->]. by eexists.
    + case_decide.
      * destruct (IH (path ++ [name]) Hrest') as [[q l] ->]. by eexists.
      * destruct (IHf fuel' (Nat.lt_succ_diag_r _) ((path ++ [name]) :: active)
                    (target_base path target) (Str.split "/" target)) as [[p l1] ->].
        { apply split_no_char. by eapply fs_text_ok_link. }
        destruct (IH p Hrest') as [[q l2] ->]. by eexists.
Qed.

Lemma normalize_path_total (f : filesystem) (s : string) :
  fs_text_ok f = true → Str.has_char nul s = false → ∃ q, normalize_path f s = Ok q.
Proof.
  intros Hok Hs. unfold normalize_path, resolve, realpath.
  edestruct realpath_walk_total as [r ->]; [done| |by eexists].
  apply Forall_app. split.
  - case_match; [constructor|]. apply split_no_char. by apply fs_text_ok_cwd.
  - apply split_no_char. by apply Path_of_no_nul.
Qed.

(** The Python walk, too, reads the entries and the current directory only. *)
Lemma realpath_walk_ext (f1 f2 : filesystem) (fuel : nat) (active : list loc)
    (path : loc) (rest : list string) :
  entries f1 = entries f2 →
  realpath_walk f1 fuel active path rest = realpath_walk f2 fuel active path rest.
Proof.
  intros He.
  assert (∀ l, link_target f1 l = link_target f2 l) as Ht.
  { intros []; unfold link_target, lstat; by rewrite ?He. }
  revert active path rest. induction fuel as [fuel IHf] using lt_wf_ind.
  intros active path rest. revert path.
  induction rest as [|name rest IH]; intros path.
  - by rewrite !realpath_walk_nil.
  - rewrite !realpath_walk_cons. cbv zeta. rewrite Ht.
    destruct (decide (name = "" ∨ name = ".")); [done|].
    destruct (decide (name = "..")); [done|].
    destruct (Str.has_char nul name); [done|].
    destruct (link_target f2 (path ++ [name])); [|done].
    destruct fuel as [|fuel']; [by rewrite IH|].
    rewrite IH. rewrite (IHf fuel') by lia.
    destruct (realpath_walk f2 fuel' _ _ _) as [[p l1]|]; [|done]. by rewrite IH.
Qed.

Lemma normalize_path_ext (f1 f2 : filesystem) (s : string) :
  entries f1 = entries f2 → cwd f1 = cwd f2 → normalize_path f1 s = normalize_path f2 s.
Proof.
  intros He Hc. unfold normalize_path, resolve, realpath.
  by rewrite He, Hc, (realpath_walk_ext f1 f2).
Qed.

(** ** Creating and patching files *)

(** The directory of a path that leads to a file is there: [mkdir] leaves
    the file system as it is. *)
Lemma Path_mkdir_parent_of_file (f : filesystem) (p : Path) (l : loc) (i n : nat) :
  Str.has_char nul (Path_str p) = false →
  lookup_path f (of_Path p) = Reached l →
  lstat f l = Some (File i) →
  Path_mkdir n (parent p) f = Ok f.
Proof.
  intros Hnul Hl Hfile. unfold lookup_path, of_Path in Hl. cbn in Hl.
  destruct (parts p) as [|x pp _] eqn:Hparts using rev_ind.
  { apply lookup_no_parts in Hl. congruence. }
  rewrite app_assoc in Hl.
  apply namei_app in Hl as (d & fuel' & _ & Hd & Hx).
  pose proof (namei_last_dir _ _ _ _ _ Hx) as Hdir.
  assert (path_is_dir f (parent p) = true) as His.
  { unfold path_is_dir. rewrite parent_no_nul by done.
    unfold lookup_path, of_Path, parent, is_absolute in *. cbn.
    rewrite Hparts, removelast_snoc, Hd. by apply bool_decide_eq_true. }
  assert (∃ m, os_mkdir f (parent p) = Raise (FileExistsError m)) as [m Hmk].
  { unfold os_mkdir. rewrite parent_no_nul by done.
    unfold parent at 2 3. unfold is_absolute in *. cbn. rewrite Hparts, removelast_snoc.
    destruct pp as [|y pp' _] using rev_ind; [by eexists|].
    rewrite last_snoc_eq, removelast_snoc.
    rewrite app_assoc in Hd.
    apply namei_app in Hd as (d' & fuel'' & _ & Hd' & Hy). rewrite Hd'.
    pose proof (namei_last_dir _ _ _ _ _ Hy) as Hdir'. rewrite Hdir'.
    destruct (decide (y = "" ∨ y = "." ∨ y = "..")) as [|Hsp]; [by eexists|].
    destruct (lstat f (d' ++ [y])) eqn:Hly; [by eexists|].
    rewrite namei_cons, Hdir' in Hy.
    rewrite decide_False, decide_False in Hy by tauto.
    unfold link_target in Hy. rewrite Hly, namei_nil in Hy.
    injection Hy as <-. congruence. }
  destruct n; unfold Path_mkdir; rewrite Hmk; simpl; by rewrite His.
Qed.

Lemma open_read_inv (f : filesystem) (o : ospath) (c : string) :
  open_read f o = Ok c →
  Str.has_char nul (op_text o) = false ∧
  ∃ l i, lookup_path f o = Reached l ∧ lstat f l = Some (File i) ∧ data f i = c.
Proof.
  unfold open_read. destruct (Str.has_char nul (op_text o)); [done|].
  destruct (lookup_path f o) as [l|]; [|done].
  destruct (lstat f l) as [[|i|]|] eqn:Hl; try done.
  intros [= <-]. split; [done|]. by exists l, i.
Qed.

Lemma open_read_set_data (f : filesystem) (o : ospath) (l : loc) (i : nat) (c : string) :
  Str.has_char nul (op_text o) = false →
  lookup_path f o = Reached l → lstat f l = Some (File i) →
  open_read (set_data f i c) o = Ok c.
Proof.
  intros Hnul Hl Hfile. unfold open_read. rewrite Hnul.
  rewrite (lookup_path_ext _ f) by done. rewrite Hl.
  change (lstat (set_data f i c) l) with (lstat f l). rewrite Hfile.
  simpl. by rewrite decide_True.
Qed.

(** [create_file] on a path that leads to a file: the file's inode gets the
    content, and the two messages are appended. *)
Lemma create_file_existing (st : state) (path content : string) (project_dir : Path)
    (l : loc) (i : nat) :
  let file_path := truediv project_dir path in
  fs_text_ok (fs st) = true →
  Str.has_char nul (Path_str file_path) = false →
  lookup_path (fs st) (of_Path file_path) = Reached l →
  lstat (fs st) l = Some (File i) →
  ∃ q, normalize_path (fs st) (Path_str file_path) = Ok q ∧
    create_file path content project_dir st =
      (Ok tt,
       mkState (set_data (fs st) i content)
         ((conversation_history st
           ++ [mkMsg assistant ("✓ Created/updated file at '" +:+ Path_str file_path +:+ "'")])
           ++ [mkMsg system (file_message q content)])
         (output st
           ++ [ConsolePrint ("[green]✓[/green] Created/updated file at '[cyan]"
                             +:+ Path_str file_path +:+ "[/cyan]'")])).
Proof.
  intros file_path Hok Hnul Hl Hfile.
  destruct (normalize_path_total (fs st) (Path_str file_path) Hok Hnul) as [q Hq].
  exists q. split; [done|].
  assert (open_write (fs st) (of_Path file_path) content
          = Ok (set_data (fs st) i content)) as Hw.
  { unfold open_write. cbn [op_text of_Path]. by rewrite Hnul, Hl, Hfile. }
  unfold create_file. fold file_path.
  unfold bind, get_fs, lift, put_fs, emit, history_append. cbn.
  rewrite (Path_mkdir_parent_of_file _ _ l i) by done.
  rewrite Hw. cbn.
  rewrite (normalize_path_ext _ (fs st)) by done. by rewrite Hq.
Qed.

Lemma apply_diff_edit_found (st : state) (path orig new : string) (project_dir : Path)
    (l : loc) (i : nat) :
  let file_path := truediv project_dir path in
  fs_text_ok (fs st) = true →
  Str.has_char nul (Path_str file_path) = false →
  lookup_path (fs st) (of_Path file_path) = Reached l →
  lstat (fs st) l = Some (File i) →
  Str.contains orig (data (fs st) i) = true →
  ∃ q, normalize_path (fs st) (Path_str file_path) = Ok q ∧
    apply_diff_edit path orig new project_dir st =
      (Ok tt,
       mkState (set_data (fs st) i (Str.replace_first orig new (data (fs st) i)))
         (((conversation_history st
            ++ [mkMsg assistant ("✓ Created/updated file at '" +:+ Path_str file_path +:+ "'")])
            ++ [mkMsg system (file_message q (Str.replace_first orig new (data (fs st) i)))])
            ++ [mkMsg assistant ("✓ Applied diff edit to '" +:+ Path_str file_path +:+ "'")])
         (output st ++ applied_report file_path)).
Proof.
  intros file_path Hok Hnul Hl Hfile Hin.
  destruct (create_file_existing st path (Str.replace_first orig new (data (fs st) i))
              project_dir l i Hok Hnul Hl Hfile) as (q & Hq & Hcreate).
  exists q. split; [done|].
  assert (open_read (fs st) (of_Path file_path) = Ok (data (fs st) i)) as Hr.
  { unfold open_read. cbn [op_text of_Path]. by rewrite Hnul, Hl, Hfile. }
  unfold apply_diff_edit. fold file_path.
  unfold try_except, bind at 1, read_local_file, bind at 1, get_fs, lift.
  rewrite Hr, Hin. unfold bind at 1. rewrite Hcreate.
  unfold bind, emit, history_append, applied_report. cbn.
  by rewrite <- (app_assoc (output st)).
Qed.



Example apply_diff_edit_first_only :
  open_read (fs (snd (apply_diff_edit "/home/u/app.py" "1" "2" example_dir example_state)))
    (of_str "app.py") = Ok "x = 2; y = 1".
Proof. vm_compute. reflexivity. Qed.





(** ** Absolute paths *)

Lemma lstat_add_entry (f : filesystem) (l0 l : loc) (n : node) :
  l0 ≠ [] →
  lstat (add_entry f l0 n) l = if decide (l = l0) then Some n else lstat f l.
Proof.
  intros Hne. unfold lstat, add_entry. cbn. destruct l as [|x l].
  - by rewrite decide_False.
  - case_decide as Heq.
    + rewrite Heq. apply lookup_insert_eq.
    + by apply lookup_insert_ne.
Qed.

(** A new regular file where nothing was changes no successful walk. *)
Lemma namei_add_file (f : filesystem) (l0 : loc) (i : nat) (fuel : nat) (d : loc)
    (rest : list string) (x : loc) :
  lstat f l0 = None →
  namei f fuel d rest = Reached x →
  namei (add_entry f l0 (File i)) fuel d rest = Reached x.
Proof.
  intros Hnone. assert (l0 ≠ []) as Hne by (by intros ->).
  revert d rest. induction fuel as [fuel IHf] using lt_wf_ind.
  intros d rest. revert d. induction rest as [|name rest IH]; intros d.
  - by rewrite !namei_nil.
  - rewrite !namei_cons, lstat_add_entry by done.
    destruct (lstat f d) as [[| |]|] eqn:Hd; try done.
    destruct (decide (d = l0)) as [->|_]; [congruence|].
    destruct (decide (name = "" ∨ name = ".")); [by apply IH|].
    destruct (decide (name = "..")); [by apply IH|].
    assert (link_target (add_entry f l0 (File i)) (d ++ [name])
            = link_target f (d ++ [name])) as ->.
    { unfold link_target. rewrite lstat_add_entry by done.
      case_decide as Heq; [|done]. by rewrite Heq, Hnone. }
    destruct (link_target f (d ++ [name])); [|by apply IH].
    destruct fuel; [done|]. apply IHf. lia.
Qed.

(** What was just written is what is read back through the same path. *)
Lemma open_write_read (f f' : filesystem) (o : ospath) (c : string) :
  open_write f o c = Ok f' → open_read f' o = Ok c.
Proof.
  unfold open_write. destruct (Str.has_char nul (op_text o)) eqn:Hnul; [done|].
  destruct (lookup_path f o) as [l|] eqn:Hl; [|done].
  destruct (lstat f l) as [[|i|]|] eqn:Hfile; try done.
  - intros [= <-]. by apply (open_read_set_data _ _ l).
  - destruct (lstat f (removelast l)) as [[| |]|]; try done. intros [= <-].
    assert (l ≠ []) as Hne by (by intros ->).
    unfold open_read. rewrite Hnul.
    rewrite (lookup_path_ext _ (add_entry f l (File (fresh (used_inodes f))))) by done.
    unfold lookup_path in *. rewrite (namei_add_file _ _ _ _ _ _ l) by done.
    change (lstat (set_data ?g ?j ?e) l) with (lstat g l).
    rewrite lstat_add_entry, decide_True by done.
    cbn. by rewrite decide_True.
Qed.

Lemma create_file_read_back (st : state) (path content : string) (project_dir : Path) :
  fst (create_file path content project_dir st) = Ok tt →
  open_read (fs (snd (create_file path content project_dir st)))
    (of_Path (truediv project_dir path)) = Ok content.
Proof.
  unfold create_file, bind, get_fs, lift, put_fs, emit, history_append. cbn.
  destruct (Path_mkdir _ _ _) as [f1|]; [|done].
  destruct (open_write f1 _ _) as [f2|] eqn:Hw; [|done].
  apply open_write_read in Hw.
  by destruct (normalize_path f2 _).
Qed.



(** ** The conversation history *)

Lemma marker_in_own_message (p c : string) :
  Str.contains (file_marker p) (file_message p c) = true.
Proof.
  unfold file_message. rewrite <- (str_app_nil_l (file_marker p +:+ _)).
  apply contains_app.
Qed.

Lemma marker_in_history_app (marker : string) (h1 h2 : list message) :
  marker_in_history marker (h1 ++ h2)
  = marker_in_history marker h1 || marker_in_history marker h2.
Proof. unfold marker_in_history. apply existsb_app. Qed.

Lemma marker_in_added (p : string) (added : list (string * string)) :
  p ∈ fst <$> added → marker_in_history (file_marker p) (file_entry <$> added) = true.
Proof.
  intros ([p' c] & -> & Hin)%list_elem_of_fmap.
  unfold marker_in_history. apply existsb_exists.
  exists (file_entry (p', c)). split.
  - apply list_elem_of_In, list_elem_of_fmap. eauto.
  - apply marker_in_own_message.
Qed.

Lemma extends_context_refl (st : state) : extends_context st st.
Proof.
  split; [done|]. exists []. rewrite app_nil_r. repeat split; constructor.
Qed.

Lemma extends_context_trans (st1 st2 st3 : state) :
  extends_context st1 st2 → extends_context st2 st3 → extends_context st1 st3.
Proof.
  intros (Hf1 & a1 & Hh1 & Hd1 & Hn1) (Hf2 & a2 & Hh2 & Hd2 & Hn2).
  split; [congruence|]. exists (a1 ++ a2).
  rewrite Hh1 in Hh2, Hn2. rewrite !fmap_app, app_assoc. split; [done|].
  rewrite Forall_forall in Hn1, Hn2. split.
  - apply NoDup_app. split; [done|]. split; [|done].
    intros p Hp1 Hp2. apply Hn2 in Hp2.
    rewrite marker_in_history_app, (marker_in_added p a1 Hp1), orb_true_r in Hp2. done.
  - apply Forall_app. split; apply Forall_forall; [done|].
    intros p Hp. apply Hn2 in Hp. rewrite marker_in_history_app in Hp.
    by apply orb_false_iff in Hp as [? _].
Qed.

(** One conditional append, as the preload loop and
    [ensure_file_in_context] do it. *)
Lemma extends_context_append (st : state) (p c : string) (out : list event) :
  marker_in_history (file_marker p) (conversation_history st) = false →
  extends_context st
    (mkState (fs st) (conversation_history st ++ [mkMsg system (file_message p c)]) out).
Proof.
  intros Hm. split; [done|]. exists [(p, c)]. split; [done|]. split.
  - apply NoDup_cons. split; [by intros ?%elem_of_nil | constructor].
  - by repeat constructor.
Qed.

Lemma extends_context_output (st : state) (out : list event) :
  extends_context st (mkState (fs st) (conversation_history st) out).
Proof. split; [done|]. exists []. cbn. rewrite app_nil_r. repeat split; constructor. Qed.

Lemma for_each_invariant {A B} (R : state → state → Prop) (xs : list A)
    (body : B → A → M B) :
  (∀ st, R st st) →
  (∀ st1 st2 st3, R st1 st2 → R st2 st3 → R st1 st3) →
  (∀ acc x st, R st (snd (body acc x st))) →
  ∀ acc st, R st (snd (for_each xs body acc st)).
Proof.
  intros Hrefl Htrans Hbody. induction xs as [|x xs IH]; intros acc st; cbn.
  - apply Hrefl.
  - unfold bind. pose proof (Hbody acc x st) as Hx.
    destruct (body acc x st) as [[acc'|e] st']; cbn in *; [|done].
    eapply Htrans; [exact Hx | apply IH].
Qed.

Lemma ensure_file_in_context_extends (file_path : string) (st : state) :
  extends_context st (snd (ensure_file_in_context file_path st)).
Proof.
  unfold ensure_file_in_context, try_except, bind, get_fs, lift, read_local_file,
    get_history, bind, emit, ret. cbn.
  destruct (normalize_path (fs st) file_path) as [q|e]; cbn.
  2:{ destruct (is_OSError e); cbn; [apply extends_context_output | apply extends_context_refl]. }
  destruct (open_read (fs st) (of_str q)) as [c|e]; cbn.
  2:{ destruct (is_OSError e); cbn; [apply extends_context_output | apply extends_context_refl]. }
  destruct (marker_in_history (file_marker q) (conversation_history st)) eqn:Hm; cbn.
  - apply extends_context_refl.
  - by apply extends_context_append.
Qed.

Lemma preload_files_extends (potential_paths : list string) (st : state) :
  extends_context st (snd (preload_files potential_paths st)).
Proof.
  unfold preload_files.
  apply for_each_invariant; [apply extends_context_refl | apply extends_context_trans|].
  intros valid_files path st0.
  unfold preload_file, try_except, bind, get_fs, lift, read_local_file, get_history, bind,
    emit, ret. cbn.
  destruct (open_read (fs st0) (of_str path)) as [c|e]; cbn.
  2:{ destruct (is_OSError e); cbn; [apply extends_context_output | apply extends_context_refl]. }
  destruct (marker_in_history (file_marker path) (conversation_history st0)) eqn:Hm; cbn.
  - apply extends_context_refl.
  - by apply extends_context_append.
Qed.

Lemma create_file_appends (st : state) (path content : string) (project_dir : Path) :
  fst (create_file path content project_dir st) = Ok tt →
  ∃ q, conversation_history (snd (create_file path content project_dir st)) =
         conversation_history st
         ++ [ mkMsg assistant ("✓ Created/updated file at '"
                               +:+ Path_str (truediv project_dir path) +:+ "'");
              mkMsg system (file_message q content) ].
Proof.
  unfold create_file, bind, get_fs, lift, put_fs, emit, history_append. cbn.
  destruct (Path_mkdir _ _ _) as [f1|]; [|done].
  destruct (open_write f1 _ _) as [f2|]; [|done]. cbn.
  destruct (normalize_path f2 _) as [q|]; [|done]. cbn.
  intros _. exists q. by rewrite <- app_assoc.
Qed.



Example checked_appends_history :
  conversation_history
    (snd (run_operations example_dir
            [ OpPreload ["/home/u/app.py"]; OpEnsure "app.py";
              OpEnsure "projects/demo/main.py"; OpPreload ["/home/u/app.py"] ]
            example_state))
  = [ mkMsg system (file_message "/home/u/app.py" "x = 1; y = 1");
      mkMsg system (file_message "/home/u/projects/demo/main.py" "print(1)") ].
Proof. vm_compute. reflexivity. Qed.


Example patched_file_history :
  file_messages_for "/home/u/projects/demo/a.py"
    (conversation_history
       (snd (run_operations example_dir
               [ OpCreate "a.py" "x = 1"; OpPatch "a.py" "1" "2" ] example_state)))
  = [ mkMsg system (file_message "/home/u/projects/demo/a.py" "x = 1");
      mkMsg system (file_message "/home/u/projects/demo/a.py" "x = 2") ].
Proof. vm_compute. reflexivity. Qed.

(** ** Canonical paths carry no NUL *)

Lemma normalize_path_raises (f : filesystem) (s : string) (e : exn) :
  normalize_path f s = Raise e → e = embedded_null.
Proof. unfold normalize_path. destruct (resolve f (Path_of s)); [done|]. by intros [= <-]. Qed.

Lemma realpath_walk_no_nul (f : filesystem) (fuel : nat) (active : list loc) (path : loc)
    (rest : list string) (q : loc) (looped : bool) :
  Forall (λ x, Str.has_char nul x = false) path →
  realpath_walk f fuel active path rest = Some (q, looped) →
  Forall (λ x, Str.has_char nul x = false) q.
Proof.
  revert active path rest q looped. induction fuel as [fuel IHf] using lt_wf_ind.
  intros active path rest. revert path.
  induction rest as [|name rest IH]; intros path q looped Hpath.
  - rewrite realpath_walk_nil. by intros [= <- _].
  - rewrite realpath_walk_cons. cbv zeta.
    destruct (decide (name = "" ∨ name = ".")); [by apply IH|].
    destruct (decide (name = "..")); [apply IH; by apply Forall_removelast|].
    destruct (Str.has_char nul name) eqn:Hname; [done|].
    assert (Forall (λ x, Str.has_char nul x = false) (path ++ [name])) as Hnew.
    { apply Forall_app. split; [done | by repeat constructor]. }
    assert (∀ r, mark_loop r = Some (q, looped) → ∃ l, r = Some (q, l)) as Hmark.
    { intros [[q' l']|]; [|done]. cbn. intros [= <- _]. by eexists. }
    destruct (link_target f (path ++ [name])) as [target|]; [|by apply IH].
    destruct fuel as [|fuel'].
    + intros [l Hl]%Hmark. by eapply IH.
    + destruct (decide (path ++ [name] ∈ active)).
      * intros [l Hl]%Hmark. by eapply IH.
      * destruct (realpath_walk f fuel' _ _ _) as [[p l1]|] eqn:Hp; [|done].
        destruct (realpath_walk f (S fuel') active p rest) as [[q' l2]|] eqn:Hq; [|done].
        intros [= <- _]. eapply IH; [|exact Hq].
        eapply (IHf fuel'); [lia| |exact Hp].
        unfold target_base. by destruct (Str.startswith "/" target).
Qed.

Lemma normalize_path_no_nul (f : filesystem) (s q : string) :
  normalize_path f s = Ok q → Str.has_char nul q = false.
Proof.
  unfold normalize_path, resolve, realpath.
  destruct (realpath_walk f _ _ _ _) as [[l looped]|] eqn:Hw; [|done].
  cbn. intros [= <-]. apply Path_of_no_nul.
  unfold loc_str. rewrite has_char_app. cbn.
  apply has_char_join; [done|]. by eapply realpath_walk_no_nul; [|exact Hw].
Qed.

Lemma open_read_raises_OSError (f : filesystem) (o : ospath) (e : exn) :
  Str.has_char nul (op_text o) = false → open_read f o = Raise e → is_OSError e = true.
Proof.
  intros Hnul. unfold open_read. rewrite Hnul.
  destruct (lookup_path f o) as [l|[]]; [|by intros [= <-]..].
  destruct (lstat f l) as [[| |]|]; try done; by intros [= <-].
Qed.

(** ** A turn never raises before the request *)

Lemma only_output_refl (st : state) : only_output st st.
Proof. done. Qed.

Lemma only_output_trans (st1 st2 st3 : state) :
  only_output st1 st2 → only_output st2 st3 → only_output st1 st3.
Proof. unfold only_output. intros [] []. split; congruence. Qed.

Lemma only_output_extends (st st' : state) : only_output st st' → extends_context st st'.
Proof.
  intros [Hf Hh]. split; [done|]. exists []. rewrite Hh. cbn. rewrite app_nil_r.
  repeat split; constructor.
Qed.

(** A loop whose body always returns, returns; an invariant of accumulator
    and state is carried along. *)
Lemma for_each_returns {A B} (I : B → state → Prop) (xs : list A) (body : B → A → M B) :
  (∀ acc x st, I acc st → ∃ acc' st', body acc x st = (Ok acc', st') ∧ I acc' st') →
  ∀ acc st, I acc st → ∃ acc' st', for_each xs body acc st = (Ok acc', st') ∧ I acc' st'.
Proof.
  intros Hbody. induction xs as [|x xs IH]; intros acc st HI; cbn.
  - by exists acc, st.
  - unfold bind. destruct (Hbody acc x st HI) as (acc' & st' & -> & HI').
    by apply IH.
Qed.

Lemma guess_files_in_message_returns (user_message : string) (st : state) :
  ∃ potential_paths,
    guess_files_in_message user_message st = (Ok potential_paths, st) ∧
    Forall (λ p, Str.has_char nul p = false) potential_paths.
Proof.
  unfold guess_files_in_message.
  destruct (for_each_returns
              (λ (acc : list string) st',
                 Forall (λ p, Str.has_char nul p = false) acc ∧ st' = st)
              (Str.split_ws user_message) guess_word) with (acc := @nil string) (st := st)
    as (paths & st' & Hrun & Hpaths & ->); [|done|by exists paths].
  intros acc word st0 [Hacc ->]. unfold guess_word.
  destruct (_ || _); [|by exists acc, st].
  unfold try_except, bind, get_fs, lift, ret. cbn.
  destruct (normalize_path (fs st) _) as [q|e] eqn:Hq; cbn.
  - exists (acc ++ [q]), st. split; [done|]. split; [|done].
    apply Forall_app. split; [done|]. repeat constructor. by eapply normalize_path_no_nul.
  - apply normalize_path_raises in Hq as ->. cbn. by exists acc, st.
Qed.

Lemma preload_file_returns (valid_files : gmap string string) (path : string) (st : state) :
  Str.has_char nul path = false →
  ∃ valid_files' st',
    preload_file valid_files path st = (Ok valid_files', st') ∧ extends_context st st'.
Proof.
  intros Hp.
  unfold preload_file, try_except, bind, get_fs, lift, read_local_file, get_history, bind,
    emit, ret, history_append. cbn.
  destruct (open_read (fs st) (of_str path)) as [c|e] eqn:Hr; cbn.
  - destruct (marker_in_history (file_marker path) (conversation_history st)) eqn:Hm;
      cbn; eexists _, _; (split; [done|]).
    + apply extends_context_refl.
    + by apply extends_context_append.
  - rewrite (open_read_raises_OSError _ (of_str path) _ Hp Hr). cbn.
    eexists _, _. split; [done|]. apply extends_context_output.
Qed.

Lemma preload_files_returns (potential_paths : list string) (st : state) :
  Forall (λ p, Str.has_char nul p = false) potential_paths →
  ∃ valid_files st',
    preload_files potential_paths st = (Ok valid_files, st') ∧ extends_context st st'.
Proof.
  intros Hpaths. unfold preload_files.
  generalize (∅ : gmap string string). revert st.
  induction Hpaths as [|path paths Hp _ IH]; intros st acc; cbn.
  - exists acc, st. split; [done | apply extends_context_refl].
  - unfold bind at 1.
    destruct (preload_file_returns acc path st Hp) as (acc' & st1 & -> & Hext).
    destruct (IH st1 acc') as (vf & st' & -> & Hext').
    exists vf, st'. split; [done|]. by eapply extends_context_trans.
Qed.

(** [begin_turn] returns: the history has grown by preloaded file contents
    and ends with the user's message; the file system is untouched. *)
Lemma begin_turn_returns (user_message : string) (st : state) :
  ∃ valid_files st1 added,
    begin_turn user_message st = (Ok valid_files, st1) ∧
    fs st1 = fs st ∧
    conversation_history st1 =
      (conversation_history st ++ (file_entry <$> added)) ++ [mkMsg user user_message].
Proof.
  unfold begin_turn, bind at 1.
  destruct (guess_files_in_message_returns user_message st) as (paths & -> & Hpaths).
  unfold bind at 1.
  destruct (preload_files_returns paths st Hpaths)
    as (vf & st' & -> & Hf & added & Hh & _).
  exists vf. eexists. exists added.
  unfold bind, history_append, ret. cbn. rewrite Hh. done.
Qed.

(** ** Computations that only print *)

Lemma writes_only_lift {A} (r : result A) : writes_only (lift r).
Proof. exists r, []. intros [f h o]. unfold lift. cbn. by rewrite app_nil_r. Qed.

Lemma writes_only_ret {A} (a : A) : writes_only (ret a).
Proof. apply (writes_only_lift (Ok a)). Qed.

Lemma writes_only_raise {A} (e : exn) : writes_only (@raise A e).
Proof. apply (writes_only_lift (Raise e)). Qed.

Lemma writes_only_emit (e : event) : writes_only (emit e).
Proof. by exists (Ok tt), [e]. Qed.

Lemma writes_only_bind {A B} (m : M A) (k : A → M B) :
  writes_only m → (∀ a, writes_only (k a)) → writes_only (bind m k).
Proof.
  intros (r & evs & Hm) Hk. destruct r as [a|e].
  - destruct (Hk a) as (r' & evs' & Hk'). exists r', (evs ++ evs').
    intros st. unfold bind. rewrite Hm, Hk'. cbn. by rewrite app_assoc.
  - exists (Raise e), evs. intros st. unfold bind. by rewrite Hm.
Qed.

Lemma writes_only_try_except {A} (m : M A) (catch : exn → bool) (h : exn → M A) :
  writes_only m → (∀ e, writes_only (h e)) → writes_only (try_except m catch h).
Proof.
  intros (r & evs & Hm) Hh. destruct r as [a|e].
  - exists (Ok a), evs. intros st. unfold try_except. by rewrite Hm.
  - destruct (catch e) eqn:Hc.
    + destruct (Hh e) as (r' & evs' & Hh'). exists r', (evs ++ evs').
      intros st. unfold try_except. rewrite Hm, Hc, Hh'. cbn. by rewrite app_assoc.
    + exists (Raise e), evs. intros st. unfold try_except. by rewrite Hm, Hc.
Qed.

Lemma writes_only_for_each {A B} (xs : list A) (body : B → A → M B) (acc : B) :
  (∀ acc x, writes_only (body acc x)) → writes_only (for_each xs body acc).
Proof.
  intros Hbody. revert acc. induction xs as [|x xs IH]; intros acc; cbn.
  - apply writes_only_ret.
  - apply writes_only_bind; [apply Hbody | apply IH].
Qed.

Lemma writes_only_only_output {A} (m : M A) (st : state) :
  writes_only m → only_output st (snd (m st)).
Proof. intros (r & evs & Hm). by rewrite Hm. Qed.

Lemma writes_only_fst {A} (m : M A) (st st' : state) :
  writes_only m → fst (m st) = fst (m st').
Proof. intros (r & evs & Hm). by rewrite !Hm. Qed.

Section BackendProperties.

Variable json_loads : string → option json.
Variable ollama : list message → http_reply.

Lemma writes_only_loads (s : string) : writes_only (loads json_loads s).
Proof. unfold loads. destruct (json_loads s); [apply writes_only_ret | apply writes_only_raise]. Qed.

Lemma writes_only_receive_line (full_content line : string) :
  writes_only (receive_line json_loads full_content line).
Proof.
  unfold receive_line. case_decide; [apply writes_only_ret|].
  apply writes_only_try_except.
  - apply writes_only_bind; [apply writes_only_loads|]. intros chunk.
    apply writes_only_bind; [apply writes_only_lift|]. intros has_message.
    apply writes_only_bind.
    { destruct has_message; [|apply writes_only_ret].
      apply writes_only_bind; [apply writes_only_lift|]. intros; apply writes_only_lift. }
    intros [|]; [|apply writes_only_ret].
    apply writes_only_bind; [apply writes_only_lift|]. intros m.
    apply writes_only_bind; [apply writes_only_lift|]. intros content_chunk.
    destruct content_chunk; try apply writes_only_raise.
    apply writes_only_bind; [apply writes_only_emit|]. intros; apply writes_only_ret.
  - intros e. apply writes_only_bind; [apply writes_only_emit|].
    intros; apply writes_only_ret.
Qed.

Lemma writes_only_receive_stream (lines : list string) :
  writes_only (receive_stream json_loads lines).
Proof. apply writes_only_for_each. apply writes_only_receive_line. Qed.

End BackendProperties.

(** ** Filtering the proposed edits *)

Lemma dict_get_set_eq (key : string) (x : json) (items : list (string * json)) :
  dict_get key (dict_set key x items) = Some x.
Proof.
  unfold dict_get, dict_set. induction items as [|[k v] items IH]; cbn.
  - by rewrite bool_decide_eq_true_2.
  - case_decide as Hk; cbn.
    + by rewrite bool_decide_eq_true_2.
    + by rewrite bool_decide_eq_false_2.
Qed.

Lemma dict_get_set_ne (key key' : string) (x : json) (items : list (string * json)) :
  key ≠ key' → dict_get key' (dict_set key x items) = dict_get key' items.
Proof.
  intros Hne. unfold dict_get, dict_set. induction items as [|[k v] items IH]; cbn.
  - by rewrite bool_decide_eq_false_2.
  - case_decide as Hk; cbn.
    + subst k. by rewrite !bool_decide_eq_false_2.
    + case_bool_decide; [done | exact IH].
Qed.

Lemma validate_described (j : json) (e : FileToEdit) :
  describes j e → validate_FileToEdit j = Ok e.
Proof.
  intros (items & -> & Hp & Ho & Hn). unfold validate_FileToEdit, validate_str.
  rewrite Hp, Ho, Hn. by destruct e.
Qed.

Lemma validate_each_described (js : list json) (es : list FileToEdit) :
  Forall2 describes js es → validate_each validate_FileToEdit js = Ok es.
Proof.
  induction 1 as [|j e js es Hje _ IH]; [done|].
  cbn. by rewrite (validate_described j e Hje), IH.
Qed.

Lemma ensure_file_in_context_result (q : string) (st : state) :
  extends_context st (snd (ensure_file_in_context q st)) ∧
  (∃ evs, output (snd (ensure_file_in_context q st)) = output st ++ evs) ∧
  match fst (ensure_file_in_context q st) with
  | Ok b => b = can_read_now (fs st) q
  | Raise e => e = embedded_null ∧ can_read_now (fs st) q = false
  end.
Proof.
  split; [apply ensure_file_in_context_extends|].
  unfold can_read_now, ensure_file_in_context, try_except, bind, get_fs, lift,
    read_local_file, get_history, bind, emit, ret, history_append. cbn.
  destruct (normalize_path (fs st) q) as [p|e] eqn:Hp; cbn.
  - destruct (open_read (fs st) (of_str p)) as [c|e] eqn:Hr; cbn.
    + destruct (marker_in_history _ _); cbn; (split; [|done]);
        exists []; by rewrite app_nil_r.
    + rewrite (open_read_raises_OSError _ (of_str p) _ (normalize_path_no_nul _ _ _ Hp) Hr).
      cbn. split; [|done]. eexists. by rewrite <- app_assoc.
  - apply normalize_path_raises in Hp as ->. cbn. split; [|done].
    exists []. by rewrite app_nil_r.
Qed.

(** One pass of the loop over a well-formed edit: the edit is appended, with
    its canonical path, exactly when the specification's rule admits it; an
    edit whose path cannot be canonicalized is dropped with the warning; the
    pass never raises. *)
Lemma filter_edit_described (valid_files : gmap string string) (acc : list json)
    (j : json) (e : FileToEdit) (st : state) :
  describes j e →
  ∃ kept st',
    filter_edit valid_files acc j st = (Ok (acc ++ kept), st') ∧
    Forall2 describes kept (option_list (admitted_edit (fs st) valid_files e)) ∧
    extends_context st st' ∧
    ∃ evs, output st' = output st ++ evs ∧
      (∀ err, normalize_path (fs st) (edit_path e) = Raise err →
              invalid_path_warning (edit_path e) ∈ evs).
Proof.
  intros (items & -> & Hpath & Ho & Hn).
  unfold filter_edit, admitted_edit, try_except, bind at 1 2 3 4, lift, get_fs.
  cbn [py_getitem py_fspath]. rewrite Hpath. cbn -[ensure_file_in_context bind].
  destruct (normalize_path (fs st) (edit_path e)) as [q|err] eqn:Hq;
    cbn -[ensure_file_in_context bind].
  2:{ apply normalize_path_raises in Hq as ->. cbn.
      exists []. eexists. rewrite app_nil_r.
      unfold bind, emit, ret. cbn. split; [done|]. split; [constructor|].
      split; [apply extends_context_output|].
      eexists. split; [by rewrite <- app_assoc|].
      intros _ _. unfold invalid_path_warning. apply list_elem_of_here. }
  assert (describes (JDict (dict_set "path" (JStr q) items))
            (mkFileToEdit q (original_snippet e) (new_snippet e))) as Hkept.
  { eexists. split; [done|]. cbn.
    by rewrite dict_get_set_eq, !dict_get_set_ne. }
  destruct (bool_decide (is_Some (valid_files !! q))); cbn -[ensure_file_in_context bind].
  { unfold bind, ret. cbn. eexists [_], st. split; [done|].
    split; [by repeat constructor|]. split; [apply extends_context_refl|].
    exists []. rewrite app_nil_r. split; [done|]. congruence. }
  unfold bind at 1.
  destruct (ensure_file_in_context_result q st) as (Hext & [evs Hout] & Hres).
  destruct (ensure_file_in_context q st) as [[b|err] st'] eqn:He; cbn in *.
  - subst b. destruct (can_read_now (fs st) q); unfold bind, ret; cbn.
    + eexists [_], st'. split; [done|]. split; [by repeat constructor|].
      split; [done|]. exists evs. split; [done|]. congruence.
    + exists [], st'. rewrite app_nil_r. split; [done|]. split; [constructor|].
      split; [done|]. exists evs. split; [done|]. congruence.
  - destruct Hres as [-> Hcan]. rewrite Hcan. cbn.
    unfold bind, emit, ret. cbn. exists []. eexists. rewrite app_nil_r.
    split; [done|]. split; [constructor|]. split.
    + destruct Hext as [Hf Hh]. split; [done|]. exact Hh.
    + eexists. rewrite Hout. split; [by rewrite <- !app_assoc|]. congruence.
Qed.

Lemma filter_edits_described (valid_files : gmap string string) (js : list json)
    (es : list FileToEdit) (acc : list json) (st : state) :
  Forall2 describes js es →
  ∃ kept st',
    for_each js (filter_edit valid_files) acc st = (Ok (acc ++ kept), st') ∧
    Forall2 describes kept (omap (admitted_edit (fs st) valid_files) es) ∧
    extends_context st st' ∧
    ∃ evs, output st' = output st ++ evs ∧
      (∀ e err, e ∈ es → normalize_path (fs st) (edit_path e) = Raise err →
                invalid_path_warning (edit_path e) ∈ evs).
Proof.
  intros Hd. revert acc st. induction Hd as [|j e js es Hje _ IH]; intros acc st.
  - exists [], st. rewrite app_nil_r. split; [done|]. split; [constructor|].
    split; [apply extends_context_refl|]. exists []. rewrite app_nil_r.
    split; [done|]. by intros e err ?%elem_of_nil.
  - cbn [for_each]. unfold bind at 1.
    destruct (filter_edit_described valid_files acc j e st Hje)
      as (k1 & st1 & -> & Hk1 & Hext1 & evs1 & Hout1 & Hw1).
    destruct (IH (acc ++ k1) st1) as (k2 & st2 & -> & Hk2 & Hext2 & evs2 & Hout2 & Hw2).
    pose proof Hext1 as [Hfs _]. rewrite Hfs in Hk2, Hw2.
    exists (k1 ++ k2), st2. rewrite app_assoc. split; [done|]. split.
    { cbn [omap list_omap].
      change (omap ?g (e :: es)) with
        (match g e with Some y => y :: omap g es | None => omap g es end).
      destruct (admitted_edit (fs st) valid_files e); cbn in Hk1.
      - inversion Hk1 as [|? ? ? ? Hx Hnil]; subst. inversion Hnil; subst.
        by constructor.
      - by inversion Hk1; subst. }
    split; [by eapply extends_context_trans|].
    exists (evs1 ++ evs2). rewrite Hout2, Hout1, app_assoc. split; [done|].
    intros e' err [->|Hin]%elem_of_cons Hraise; apply elem_of_app.
    + left. by eapply Hw1.
    + right. by eapply Hw2.
Qed.

Lemma validate_optional_list_ext {A} (field : string) (f : json → result A)
    (items items' : list (string * json)) :
  dict_get field items' = dict_get field items →
  validate_optional_list field f items' = validate_optional_list field f items.
Proof. intros H. unfold validate_optional_list. by rewrite H. Qed.

Lemma build_response_described (json_loads : string → option json)
    (full_content : string) (valid_files : gmap string string) (st : state)
    (items : list (string * json)) (edits_json : list json) (edits : list FileToEdit)
    (reply : string) (creates : option (list FileToCreate)) :
  json_loads full_content = Some (JDict items) →
  default (JStr "") (dict_get "assistant_reply" items) = JStr reply →
  validate_optional_list "files_to_create" validate_FileToCreate items = Ok creates →
  dict_get "files_to_edit" items = Some (JList edits_json) →
  Forall2 describes edits_json edits →
  ∃ st',
    build_response json_loads full_content valid_files st =
      (Ok (mkAssistantResponse reply creates
             (Some (omap (admitted_edit (fs st) valid_files) edits))), st') ∧
    fs st' = fs st ∧
    ∀ e err, e ∈ edits → normalize_path (fs st) (edit_path e) = Raise err →
             invalid_path_warning (edit_path e) ∈ output st'.
Proof.
  intros Hload Hreply Hcreates Hedits Hd.
  unfold build_response.
  unfold bind at 1, loads. rewrite Hload. cbn [ret].
  unfold bind at 1, lift. cbn [py_in].
  (* the reply is there, or is put in *)
  set (items1 := if bool_decide (is_Some (dict_get "assistant_reply" items)) then items
                 else dict_set "assistant_reply" (JStr "") items).
  assert (dict_get "assistant_reply" items1 = Some (JStr reply)) as Hr1.
  { subst items1. destruct (dict_get "assistant_reply" items) as [v|] eqn:Hv; cbn in *.
    - by rewrite Hv, Hreply.
    - rewrite dict_get_set_eq. by injection Hreply as ->. }
  assert (∀ k, k ≠ "assistant_reply" → dict_get k items1 = dict_get k items) as Hk1.
  { intros k Hk. subst items1. case_bool_decide; [done|]. by apply dict_get_set_ne. }
  assert (∀ s0 : state,
            bind (if bool_decide (is_Some (dict_get "assistant_reply" items))
                  then ret (JDict items)
                  else lift (py_setitem (JDict items) "assistant_reply" (JStr "")))
                 (λ parsed, ret parsed) s0 = (Ok (JDict items1), s0)) as _.
  { intros s0. subst items1. by case_bool_decide. }
  unfold bind at 1.
  replace ((if bool_decide (is_Some (dict_get "assistant_reply" items))
            then ret (JDict items)
            else λ st0, (py_setitem (JDict items) "assistant_reply" (JStr ""), st0)) st)
    with (@Ok json (JDict items1), st) by (subst items1; by case_bool_decide).
  unfold bind at 1. cbn [py_in].
  rewrite (Hk1 "files_to_edit") by done. rewrite Hedits.
  rewrite bool_decide_eq_true_2 by eauto.
  unfold bind at 1 2. cbn [py_getitem]. rewrite (Hk1 "files_to_edit"), Hedits by done.
  cbn [ret py_truthy].
  destruct Hd as [|j e js es Hje Hrest].
  - (* no edit proposed: the loop is skipped *)
    rewrite bool_decide_eq_false_2 by (by intros []).
    unfold bind at 1. cbn [ret].
    unfold AssistantResponse_of. cbn [mbind result_bind].
    unfold validate_str at 1. rewrite Hr1. cbn [mbind result_bind].
    rewrite (validate_optional_list_ext "files_to_create" validate_FileToCreate items items1)
      by (by apply Hk1).
    rewrite Hcreates. cbn [mbind result_bind].
    rewrite (validate_optional_list_ext "files_to_edit" validate_FileToEdit items items1)
      by (by apply Hk1).
    unfold validate_optional_list. rewrite Hedits.
    cbn. eexists. split; [done|]. split; [done|].
    by intros e err ?%elem_of_nil.
  - rewrite bool_decide_eq_true_2 by done.
    unfold bind at 1 2. cbn [py_getitem].
    unfold bind at 1. cbn [py_len]. unfold bind at 1. cbn [py_iter].
    unfold bind at 1, filter_edits.
    destruct (filter_edits_described valid_files (j :: js) (e :: es) [] st)
      as (kept & st' & -> & Hkept & [Hfs _] & evs & Hout & Hw); [by constructor|].
    cbn [app py_setitem].
    unfold AssistantResponse_of. cbn [mbind result_bind].
    unfold validate_str at 1. rewrite dict_get_set_ne, Hr1 by done.
    cbn [mbind result_bind].
    rewrite (validate_optional_list_ext "files_to_create" validate_FileToCreate items)
      by (rewrite dict_get_set_ne by done; by apply Hk1).
    rewrite Hcreates. cbn [mbind result_bind].
    unfold validate_optional_list. rewrite dict_get_set_eq.
    rewrite (validate_each_described _ _ Hkept).
    cbn. eexists. split; [done|]. split; [done|].
    cbn. intros e' err Hin Hraise. rewrite Hout. apply elem_of_app. right. by eapply Hw.
Qed.

Lemma parse_response_described (json_loads : string → option json)
    (full_content : string) (valid_files : gmap string string) (st : state)
    (items : list (string * json)) (edits_json : list json) (edits : list FileToEdit)
    (reply : string) (creates : option (list FileToCreate)) :
  json_loads full_content = Some (JDict items) →
  default (JStr "") (dict_get "assistant_reply" items) = JStr reply →
  validate_optional_list "files_to_create" validate_FileToCreate items = Ok creates →
  dict_get "files_to_edit" items = Some (JList edits_json) →
  Forall2 describes edits_json edits →
  ∃ st',
    parse_response json_loads full_content valid_files st =
      (Ok (mkAssistantResponse reply creates
             (Some (omap (admitted_edit (fs st) valid_files) edits))), st') ∧
    fs st' = fs st ∧
    ∀ e err, e ∈ edits → normalize_path (fs st) (edit_path e) = Raise err →
             invalid_path_warning (edit_path e) ∈ output st'.
Proof.
  intros Hload Hreply Hcreates Hedits Hd.
  destruct (build_response_described json_loads full_content valid_files st items
              edits_json edits reply creates Hload Hreply Hcreates Hedits Hd)
    as (st' & Hrun & Hfs & Hw).
  unfold parse_response, try_except, decode_response, bind at 1. rewrite Hrun.
  unfold bind, history_append, ret. cbn. eexists. split; [done|]. by split.
Qed.



(** Of the three edits of the example only the one to the readable file is
    kept, with its canonical path. *)
Example parse_response_example_edits :
  fst (parse_response example_loads "<response>" ∅ example_state) =
    Ok (mkAssistantResponse "done" None
          (Some [mkFileToEdit "/home/u/app.py" "x = 1" "x = 2"])).
Proof. vm_compute. reflexivity. Qed.

(** ** How a turn ends *)

Lemma grows_writes_only {A} (m : M A) : writes_only m → grows m.
Proof. intros Hm st. apply only_output_extends. by apply writes_only_only_output. Qed.

Lemma grows_lift {A} (r : result A) : grows (lift r).
Proof. intros st. apply extends_context_refl. Qed.

Lemma grows_ret {A} (a : A) : grows (ret a).
Proof. intros st. apply extends_context_refl. Qed.

Lemma grows_get_fs : grows get_fs.
Proof. intros st. apply extends_context_refl. Qed.

Lemma grows_emit (e : event) : grows (emit e).
Proof. apply grows_writes_only, writes_only_emit. Qed.

Lemma grows_bind {A B} (m : M A) (k : A → M B) :
  grows m → (∀ a, grows (k a)) → grows (bind m k).
Proof.
  intros Hm Hk st. unfold bind. pose proof (Hm st) as H1.
  destruct (m st) as [[a|e] st1]; cbn in *; [|done].
  eapply extends_context_trans; [exact H1 | apply Hk].
Qed.

Lemma grows_try_except {A} (m : M A) (catch : exn → bool) (h : exn → M A) :
  grows m → (∀ e, grows (h e)) → grows (try_except m catch h).
Proof.
  intros Hm Hh st. unfold try_except. pose proof (Hm st) as H1.
  destruct (m st) as [[a|e] st1]; cbn in *; [done|].
  destruct (catch e); [|done].
  eapply extends_context_trans; [exact H1 | apply Hh].
Qed.

Lemma grows_for_each {A B} (xs : list A) (body : B → A → M B) (acc : B) :
  (∀ acc x, grows (body acc x)) → grows (for_each xs body acc).
Proof.
  intros Hbody st. apply (for_each_invariant extends_context).
  - apply extends_context_refl.
  - apply extends_context_trans.
  - intros. apply Hbody.
Qed.

Lemma grows_ensure_file_in_context (file_path : string) :
  grows (ensure_file_in_context file_path).
Proof. intros st. apply ensure_file_in_context_extends. Qed.

Ltac grows_step :=
  lazymatch goal with
  | |- grows (lift _) => apply grows_lift
  | |- grows (ret _) => apply grows_ret
  | |- grows get_fs => apply grows_get_fs
  | |- grows (emit _) => apply grows_emit
  | |- grows (ensure_file_in_context _) => apply grows_ensure_file_in_context
  | |- grows (bind _ _) => apply grows_bind; [|intros ?]
  | |- grows (try_except _ _ _) => apply grows_try_except; [|intros ?]
  | |- grows (for_each _ _ _) => apply grows_for_each; intros ? ?
  | |- grows (if ?b then _ else _) => destruct b
  end.

Lemma grows_filter_edits (valid_files : gmap string string) (edits : list json) :
  grows (filter_edits valid_files edits).
Proof. unfold filter_edits, filter_edit. repeat grows_step. Qed.

Section TurnProperties.

Variable json_loads : string → option json.
Variable ollama : list message → http_reply.

Lemma grows_build_response (full_content : string) (valid_files : gmap string string) :
  grows (build_response json_loads full_content valid_files).
Proof.
  unfold build_response.
  apply grows_bind; [apply grows_writes_only, writes_only_loads | intros ?].
  repeat first [apply grows_filter_edits | grows_step].
Qed.

(** The three ways [parse_response] ends, by what building the response
    does. *)
Lemma parse_response_outcome (full_content : string) (valid_files : gmap string string)
    (st : state) :
  ∃ st', extends_context st st' ∧
    match fst (build_response json_loads full_content valid_files st) with
    | Ok r =>
        parse_response json_loads full_content valid_files st =
          (Ok r, mkState (fs st')
                   (conversation_history st' ++ [mkMsg assistant (assistant_reply r)])
                   (output st'))
    | Raise e =>
        if is_JSONDecodeError e
        then parse_response json_loads full_content valid_files st =
               (Ok (error_response parse_failure), st')
        else parse_response json_loads full_content valid_files st = (Raise e, st')
    end.
Proof.
  pose proof (grows_build_response full_content valid_files st) as Hext.
  destruct (build_response json_loads full_content valid_files st) as [[r|e] st1] eqn:Hb;
    cbn [fst snd] in *.
  - exists st1. split; [done|].
    unfold parse_response, try_except, decode_response, bind. by rewrite Hb.
  - destruct (is_JSONDecodeError e) eqn:He.
    + eexists. split; [|unfold parse_response, try_except, decode_response, bind;
                        rewrite Hb, He; reflexivity].
      eapply extends_context_trans; [exact Hext|]. by apply only_output_extends.
    + exists st1. split; [done|].
      unfold parse_response, try_except, decode_response, bind. by rewrite Hb, He.
Qed.

(** The body of the outer [try], when a text was accumulated, continues
    with [parse_response] on that text. *)
Lemma round_trip_accumulated (user_message : string) (st : state)
    (valid_files : gmap string string) (full_content : string) :
  accumulated_output json_loads ollama user_message st = Some full_content →
  round_trip json_loads ollama valid_files (turn_start user_message st) =
    parse_response json_loads full_content valid_files
      (stream_end json_loads ollama user_message st) ∧
  only_output (turn_start user_message st) (stream_end json_loads ollama user_message st).
Proof.
  unfold accumulated_output, stream_end, round_trip. cbn zeta.
  set (st1 := turn_start user_message st).
  unfold bind at 1, get_history. cbn [fst snd].
  destruct (ollama (conversation_history st1)) as [e|lines [e|]]; [done|done|].
  intros Hacc.
  pose proof (writes_only_receive_stream json_loads lines) as Hw.
  rewrite (writes_only_fst _ st1
             (mkState (fs st1) (conversation_history st1)
                (output st1 ++ [ConsolePrint (nl +:+ "Assistant> ")])) Hw) in Hacc.
  pose proof (writes_only_only_output _
             (mkState (fs st1) (conversation_history st1)
                (output st1 ++ [ConsolePrint (nl +:+ "Assistant> ")])) Hw) as Ho.
  unfold bind, emit.
  destruct (receive_stream json_loads lines (mkState _ _ _)) as [[full|e] st2];
    cbn [fst snd] in *; [|done].
  injection Hacc as ->. split; [reflexivity|]. destruct Ho as [Hf Hh]. by split.
Qed.

(** When no text was accumulated, the body of the outer [try] raises, and
    has only printed. *)
Lemma round_trip_not_accumulated (user_message : string) (st : state)
    (valid_files : gmap string string) :
  accumulated_output json_loads ollama user_message st = None →
  ∃ e st', round_trip json_loads ollama valid_files (turn_start user_message st) =
             (Raise e, st') ∧
           only_output (turn_start user_message st) st'.
Proof.
  unfold accumulated_output, round_trip. cbn zeta.
  set (st1 := turn_start user_message st).
  unfold bind at 1, get_history. cbn [fst snd].
  destruct (ollama (conversation_history st1)) as [e|lines broken].
  { intros _. by exists e, st1. }
  pose proof (writes_only_receive_stream json_loads lines) as Hw.
  pose proof (writes_only_fst _ st1
             (mkState (fs st1) (conversation_history st1)
                (output st1 ++ [ConsolePrint (nl +:+ "Assistant> ")])) Hw) as Hfst.
  pose proof (writes_only_only_output _
             (mkState (fs st1) (conversation_history st1)
                (output st1 ++ [ConsolePrint (nl +:+ "Assistant> ")])) Hw) as Ho.
  intros Hacc. unfold bind, emit.
  destruct (receive_stream json_loads lines (mkState _ _ _)) as [[full|e] st2];
    cbn [fst snd] in *.
  - destruct broken as [e|]; [|by rewrite Hfst in Hacc].
    exists e, st2. by split.
  - exists e, st2. by split.
Qed.

Lemma build_response_undecodable (full_content : string)
    (valid_files : gmap string string) (st : state) :
  json_loads full_content = None →
  ∃ e, build_response json_loads full_content valid_files st = (Raise e, st) ∧
       is_JSONDecodeError e = true.
Proof.
  intros Hnone. eexists. unfold build_response, bind at 1, loads. rewrite Hnone.
  split; reflexivity.
Qed.

(** How a turn ends, by what was accumulated and what it decodes to. *)
Lemma turn_outcome (user_message : string) (st : state) :
  let final := stream_openai_response json_loads ollama user_message st in
  match accumulated_output json_loads ollama user_message st with
  | None =>
      (∃ e, fst final = Ok (error_response ("Ollama API error: " +:+ exn_str e))) ∧
      only_output (turn_start user_message st) (snd final)
  | Some full_content =>
      match structured_response json_loads ollama user_message st full_content with
      | Ok r =>
          fst final = Ok r ∧
          ∃ mid, extends_context (turn_start user_message st) mid ∧
                 conversation_history (snd final) =
                   conversation_history mid ++ [mkMsg assistant (assistant_reply r)]
      | Raise e =>
          fst final = Ok (error_response (diagnostic e)) ∧
          extends_context (turn_start user_message st) (snd final) ∧
          (json_loads full_content = None →
           only_output (turn_start user_message st) (snd final))
      end
  end.
Proof.
  cbn zeta.
  destruct (begin_turn_returns user_message st) as (vf & st1 & added & Hbegin & _ & _).
  assert (Hstart : turn_start user_message st = st1) by (unfold turn_start; by rewrite Hbegin).
  assert (Hfiles : turn_files user_message st = vf) by (unfold turn_files; by rewrite Hbegin).
  assert (Hrun : stream_openai_response json_loads ollama user_message st =
                 try_except (round_trip json_loads ollama vf) (λ _, true)
                   (λ e, emit (LogError ("Ollama API error: " +:+ exn_str e)) ;;
                         emit (ConsolePrint (nl +:+ "[red]✗[/red] "
                                             +:+ ("Ollama API error: " +:+ exn_str e))) ;;
                         ret (error_response ("Ollama API error: " +:+ exn_str e))) st1).
  { unfold stream_openai_response, bind at 1. by rewrite Hbegin. }
  rewrite Hrun. clear Hrun. unfold try_except.
  destruct (accumulated_output json_loads ollama user_message st) as [full|] eqn:Hacc.
  - destruct (round_trip_accumulated user_message st vf full Hacc) as [Hrt Hout].
    rewrite Hstart in Hrt, Hout. rewrite Hrt, Hstart. unfold structured_response.
    rewrite Hfiles.
    set (st2 := stream_end json_loads ollama user_message st) in *.
    destruct (parse_response_outcome full vf st2) as (st3 & Hext & Hparse).
    assert (Hext13 : extends_context st1 st3).
    { eapply extends_context_trans; [by apply only_output_extends | done]. }
    destruct (build_response json_loads full vf st2) as [[r|e] st2'] eqn:Hb;
      cbn [fst snd] in *.
    + rewrite Hparse. cbn [fst snd]. split; [done|]. by exists st3.
    + unfold diagnostic. destruct (is_JSONDecodeError e) eqn:He; rewrite Hparse.
      * cbn [fst snd]. split; [done|]. split; [done|].
        intros Hnone.
        destruct (build_response_undecodable full vf st2 Hnone) as (e' & Hb' & _).
        pose proof Hb as Hb2. rewrite Hb' in Hb2. injection Hb2 as -> <-.
        unfold parse_response, try_except, decode_response, bind in Hparse.
        rewrite Hb, He in Hparse. injection Hparse as <-. cbn. exact Hout.
      * cbn. split; [done|]. split.
        -- eapply extends_context_trans; [exact Hext13|]. by apply only_output_extends.
        -- intros Hnone.
           destruct (build_response_undecodable full vf st2 Hnone) as (e' & Hb' & He').
           rewrite Hb' in Hb. injection Hb as <- _. congruence.
  - destruct (round_trip_not_accumulated user_message st vf Hacc) as (e & st2 & Hrt & Hout).
    rewrite Hstart in Hrt, Hout. rewrite Hrt, Hstart. cbn. split; [by exists e|].
    destruct Hout as [Hf Hh]. by split.
Qed.

End TurnProperties.

Lemma diagnostic_nonempty (e : exn) : diagnostic e ≠ "".
Proof. unfold diagnostic. destruct (is_JSONDecodeError e); intros H; cbv in H; discriminate. Qed.

Lemma file_entries_not_assistant (added : list (string * string)) :
  Forall (λ m, msg_role m ≠ assistant) (file_entry <$> added).
Proof. induction added as [|pc added IH]; cbn; constructor; done. Qed.

(** Every turn returns a response. *)
Lemma stream_openai_response_returns (json_loads : string → option json)
    (ollama : list message → http_reply) (user_message : string) (st : state) :
  ∃ r, fst (stream_openai_response json_loads ollama user_message st) = Ok r.
Proof.
  pose proof (turn_outcome json_loads ollama user_message st) as H. cbn zeta in H.
  destruct (accumulated_output _ _ _ _) as [full|].
  - destruct (structured_response _ _ _ _ _) as [r|e]; destruct H as [-> _]; by eexists.
  - destruct H as [[e ->] _]. by eexists.
Qed.





(** The two failures on the example: the history ends with the user's
    message, after the file the message names. *)
Example failed_turn_history_down :
  conversation_history
    (snd (stream_openai_response example_loads example_ollama_down "fix app.py"
            example_state)) =
    [ mkMsg system (file_message "/home/u/app.py" "x = 1; y = 1");
      mkMsg user "fix app.py" ].
Proof. vm_compute. reflexivity. Qed.

Example failed_turn_history_garbled :
  stream_openai_response example_loads example_ollama_garbled "fix app.py" example_state
    = (Ok (error_response parse_failure),
       mkState example_fs
         [ mkMsg system (file_message "/home/u/app.py" "x = 1; y = 1");
           mkMsg user "fix app.py" ]
         [ ConsolePrint (nl +:+ "Assistant> ");
           ConsolePrint "Sure! Here is";
           ConsolePrint "";
           LogError (parse_failure +:+ ". Response content: Sure! Here is...");
           ConsolePrint ("[red]✗[/red] " +:+ parse_failure) ]).
Proof. vm_compute. reflexivity. Qed.

(** Only a turn that succeeds records a reply: the one it returns. *)
Lemma successful_turn_records_reply
    (json_loads : string → option json) (ollama : list message → http_reply)
    (user_message : string) (st : state) (full_content : string) (r : AssistantResponse) :
  let final := stream_openai_response json_loads ollama user_message st in
  accumulated_output json_loads ollama user_message st = Some full_content →
  structured_response json_loads ollama user_message st full_content = Ok r →
  fst final = Ok r ∧
  last (conversation_history (snd final)) = Some (mkMsg assistant (assistant_reply r)).
Proof.
  intros final Hacc Hok.
  pose proof (turn_outcome json_loads ollama user_message st) as H. cbn zeta in H.
  rewrite Hacc, Hok in H. destruct H as (Hfst & mid & _ & Hh).
  split; [exact Hfst|]. fold final in Hh. rewrite Hh. apply last_snoc.
Qed.

Example successful_turn_history :
  conversation_history
    (snd (stream_openai_response example_loads example_ollama "fix app.py"
            example_state)) =
    [ mkMsg system (file_message "/home/u/app.py" "x = 1; y = 1");
      mkMsg user "fix app.py";
      mkMsg assistant "done" ].
Proof. vm_compute. reflexivity. Qed.

(** ** Unique project names *)

(** The decimal text of a number is made of digits. *)
Lemma pretty_N_go_has_char (c : ascii) (x : N) (s : string) :
  (∀ d, (d < 10)%N → pretty_N_char d ≠ c) →
  Str.has_char c (pretty_N_go x s) = Str.has_char c s.
Proof.
  intros Hc. revert s. induction (N.lt_wf_0 x) as [x _ IH]; intros s.
  assert (x = 0 ∨ 0 < x)%N as [->|Hx] by lia.
  - by rewrite pretty_N_go_0.
  - rewrite pretty_N_go_step by done. rewrite IH by (by apply N.div_lt).
    cbn. case_decide as Heq; [|done].
    exfalso. eapply Hc; [|symmetry; exact Heq]. by apply N.mod_lt.
Qed.

Lemma pretty_nat_has_char (c : ascii) (k : nat) :
  (∀ d, (d < 10)%N → pretty_N_char d ≠ c) → c ≠ "0"%char →
  Str.has_char c (pretty k) = false.
Proof.
  intros Hc H0. unfold pretty, pretty_nat, pretty, pretty_N. case_decide.
  - cbn. by case_decide.
  - by rewrite pretty_N_go_has_char.
Qed.

Lemma digit_not_slash (d : N) : (d < 10)%N → pretty_N_char d ≠ "/"%char.
Proof. intros _. unfold pretty_N_char. by repeat case_match. Qed.

Lemma digit_not_dash (d : N) : (d < 10)%N → pretty_N_char d ≠ "-"%char.
Proof. intros _. unfold pretty_N_char. by repeat case_match. Qed.

(** Appending a slash-free text changes the last component only. *)
Lemma split_slash_free (t : string) :
  Str.has_char "/" t = false → Str.split "/" t = [t].
Proof.
  induction t as [|c t IH]; [done|]. cbn [Str.has_char]. case_decide as Hc; [done|].
  intros Ht. rewrite split_cons, decide_False by congruence. by rewrite (IH Ht).
Qed.

Lemma split_app_last (s : string) :
  ∃ init last, Str.split "/" s = init ++ [last] ∧
    ∀ t, Str.has_char "/" t = false → Str.split "/" (s +:+ t) = init ++ [last +:+ t].
Proof.
  induction s as [|c s (init & last & Hs & Hst)].
  - exists [], "". split; [done|]. intros t Ht. rewrite str_app_nil_l.
    by apply split_slash_free.
  - destruct (decide (c = "/"%char)) as [Hc|Hc].
    + exists ("" :: init), last. rewrite split_cons, decide_True, Hs by done.
      split; [done|]. intros t Ht.
      by rewrite str_app_cons, split_cons, decide_True, (Hst t Ht).
    + destruct init as [|w init].
      * exists [], (String c last). rewrite split_cons, decide_False, Hs by done.
        split; [done|]. intros t Ht.
        by rewrite str_app_cons, split_cons, decide_False, (Hst t Ht).
      * exists (String c w :: init), last. rewrite split_cons, decide_False, Hs by done.
        split; [done|]. intros t Ht.
        by rewrite str_app_cons, split_cons, decide_False, (Hst t Ht).
Qed.

Lemma startswith_slash_app (s t : string) :
  Str.startswith "/" t = false →
  Str.startswith "/" (s +:+ t) = Str.startswith "/" s.
Proof. intros Ht. destruct s as [|c s]; [by rewrite str_app_nil_l|]. done. Qed.

Lemma splitroot_app (s t : string) :
  Str.startswith "/" t = false →
  splitroot (s +:+ t) = (fst (splitroot s), snd (splitroot s) +:+ t).
Proof.
  intros Ht. unfold splitroot.
  destruct s as [|c1 [|c2 [|c3 s]]]; rewrite ?str_app_cons, ?str_app_nil_l.
  - destruct t as [|d t]; [done|]. cbn in *. by case_decide.
  - destruct t as [|d t]; cbn in *; repeat case_decide; try done.
  - destruct t as [|d t]; cbn in *; repeat case_decide; try done.
  - cbn. repeat case_decide; done.
Qed.

(** All the candidates of a probe are one directory path followed by one
    name each; the name carries the counter. *)
Lemma candidate_shape (projects_dir : Path) (base_name : string) :
  ∃ r pre last, ∀ counter,
    candidate projects_dir base_name counter =
      mkPath r (pre ++ [last +:+ "-" +:+ pretty counter]).
Proof.
  destruct (split_app_last (snd (splitroot base_name))) as (init & last & _ & Hsplit).
  assert (Hslash : ∀ k : nat, Str.has_char "/" ("-" +:+ pretty k) = false).
  { intros k. rewrite has_char_app. cbn.
    by rewrite (pretty_nat_has_char "/" k digit_not_slash). }
  assert (Hkeep : ∀ k : nat, filter (λ x, x ≠ "" ∧ x ≠ ".")
                         (init ++ [last +:+ "-" +:+ pretty k]) =
                       filter (λ x, x ≠ "" ∧ x ≠ ".") init ++ [last +:+ "-" +:+ pretty k]).
  { intros k. rewrite filter_app. f_equal. rewrite filter_cons_True; [done|].
    assert (Str.has_char "-" (last +:+ "-" +:+ pretty k) = true) as Hd.
    { rewrite !has_char_app. cbn. by rewrite orb_true_r. }
    split; intros Heq; by rewrite Heq in Hd. }
  destruct (Str.startswith "/" base_name) eqn:Habs.
  - exists (fst (splitroot base_name)),
           (filter (λ x, x ≠ "" ∧ x ≠ ".") init), last.
    intros k. unfold candidate, truediv.
    rewrite startswith_slash_app, Habs by done.
    unfold Path_of. rewrite splitroot_app by done. cbn [fst snd].
    destruct (splitroot base_name) as [r rel]. cbn [fst snd] in *.
    by rewrite Hsplit, Hkeep.
  - exists (root projects_dir),
           (parts projects_dir ++ filter (λ x, x ≠ "" ∧ x ≠ ".") init), last.
    intros k. unfold candidate, truediv.
    rewrite startswith_slash_app, Habs by done.
    unfold Path_of. rewrite splitroot_app by done.
    destruct (splitroot base_name) as [r rel]. cbn [fst snd parts] in *.
    by rewrite Hsplit, Hkeep, app_assoc.
Qed.

Lemma lstat_snoc (f : filesystem) (d : loc) (name : string) :
  lstat f (d ++ [name]) = entries f !! (d ++ [name]).
Proof. unfold lstat. by destruct d. Qed.

(** A path that exists and ends in a proper name has an entry under that
    name, in the directory the rest of the path leads to. *)
Lemma path_exists_entry (f : filesystem) (r : string) (pre : list string)
    (name : string) :
  name ≠ "" → name ≠ "." → name ≠ ".." →
  path_exists f (mkPath r (pre ++ [name])) = true →
  ∃ d, namei f MAXSYMLINKS [] (walk_start f (is_absolute (mkPath r pre)) ++ pre)
         = Reached d ∧
       is_Some (entries f !! (d ++ [name])).
Proof.
  intros H1 H2 H3. unfold path_exists, lookup_path, of_Path.
  destruct (Str.has_char nul _); [done|]. cbn [op_abs op_names parts].
  rewrite app_assoc.
  destruct (namei f MAXSYMLINKS [] _) as [l|e] eqn:Hwalk; [|done].
  apply namei_app in Hwalk as (d & fuel' & _ & Hpre & Hlast).
  intros Hex%bool_decide_eq_true. exists d. split; [exact Hpre|].
  rewrite namei_cons in Hlast.
  destruct (lstat f d) as [[| |]|]; try done.
  rewrite decide_False in Hlast by (intros [?|?]; done).
  rewrite decide_False in Hlast by done.
  unfold link_target in Hlast. rewrite lstat_snoc in Hlast.
  destruct (entries f !! (d ++ [name])) as [n|] eqn:He; [done|].
  rewrite namei_nil in Hlast. injection Hlast as <-.
  rewrite lstat_snoc, He in Hex. by destruct Hex.
Qed.

(** The counters the loop has gone past belong to candidates that exist;
    the one it stops at does not. *)
Lemma probe_Some (f : filesystem) (projects_dir : Path) (base_name : string)
    (fuel c k : nat) :
  probe f projects_dir base_name fuel c = Some k →
  c ≤ k ∧
  path_exists f (candidate projects_dir base_name k) = false ∧
  ∀ j, c ≤ j < k → path_exists f (candidate projects_dir base_name j) = true.
Proof.
  revert c. induction fuel as [|fuel IH]; intros c; cbn;
    destruct (path_exists f (candidate projects_dir base_name c)) eqn:Hc; try done.
  - intros [= <-]. split; [lia|]. split; [done|]. intros j ?; lia.
  - intros (Hle & Hk & Hbelow)%IH. split; [lia|]. split; [done|].
    intros j Hj. destruct (decide (j = c)) as [->|]; [done|]. apply Hbelow. lia.
  - intros [= <-]. split; [lia|]. split; [done|]. intros j ?; lia.
Qed.

Lemma probe_None (f : filesystem) (projects_dir : Path) (base_name : string)
    (fuel c : nat) :
  probe f projects_dir base_name fuel c = None →
  ∀ j, c ≤ j ≤ c + fuel → path_exists f (candidate projects_dir base_name j) = true.
Proof.
  revert c. induction fuel as [|fuel IH]; intros c; cbn;
    destruct (path_exists f (candidate projects_dir base_name c)) eqn:Hc; try done.
  - intros _ j Hj. by replace j with c by lia.
  - intros Hnone j Hj. destruct (decide (j = c)) as [->|]; [done|].
    apply (IH _ Hnone). lia.
Qed.

(** Candidates that exist take up an entry each: there are no more of them
    than the file system has entries. *)
Lemma existing_candidates_bounded (f : filesystem) (projects_dir : Path)
    (base_name : string) (ks : list nat) :
  NoDup ks →
  Forall (λ k, path_exists f (candidate projects_dir base_name k) = true) ks →
  List.length ks ≤ size (entries f).
Proof.
  intros Hnd Hex.
  destruct (candidate_shape projects_dir base_name) as (r & pre & last & Hshape).
  assert (Hname : ∀ k : nat, let name := last +:+ "-" +:+ pretty k in
                    name ≠ "" ∧ name ≠ "." ∧ name ≠ "..").
  { intros k name.
    assert (Str.has_char "-" name = true) as Hd.
    { unfold name. rewrite !has_char_app. cbn. by rewrite orb_true_r. }
    repeat split; intros Heq; by rewrite Heq in Hd. }
  assert (Hkey : ∀ k, k ∈ ks →
            ∃ d, namei f MAXSYMLINKS []
                   (walk_start f (is_absolute (mkPath r pre)) ++ pre) = Reached d ∧
                 is_Some (entries f !! (d ++ [last +:+ "-" +:+ pretty k]))).
  { intros k Hk. rewrite Forall_forall in Hex. specialize (Hex k Hk).
    rewrite Hshape in Hex. destruct (Hname k) as (? & ? & ?).
    by apply path_exists_entry in Hex. }
  destruct ks as [|k0 ks0]; [cbn; lia|].
  destruct (Hkey k0) as (d & Hd & _); [by left|].
  set (key := λ k : nat, d ++ [last +:+ "-" +:+ pretty k]).
  assert (Hinj : Inj (=) (=) key).
  { intros a b Hab. unfold key in Hab. apply app_inv_head in Hab.
    injection Hab as Hab. apply (inj (String.app last)) in Hab.
    apply (inj (String.app "-")) in Hab. by apply (inj pretty) in Hab. }
  rewrite <- (length_fmap key), <- length_map_to_list,
    <- (length_fmap fst (map_to_list (entries f))).
  apply submseteq_length, NoDup_submseteq; [by apply NoDup_fmap_2|].
  intros l (k & -> & Hk)%list_elem_of_fmap.
  destruct (Hkey k Hk) as (d' & Hd' & [n Hn]).
  rewrite Hd in Hd'. injection Hd' as <-.
  apply list_elem_of_fmap. exists (key k, n). split; [done|].
  by apply elem_of_map_to_list.
Qed.

(** The loop ends: within as many probes as there are entries, and one
    more, a candidate is free. *)
Lemma probe_total (f : filesystem) (projects_dir : Path) (base_name : string) :
  ∃ k, probe f projects_dir base_name (size (entries f)) 1 = Some k.
Proof.
  destruct (probe f projects_dir base_name (size (entries f)) 1) as [k|] eqn:Hp;
    [by exists k|].
  pose proof (probe_None _ _ _ _ _ Hp) as Hall.
  pose proof (existing_candidates_bounded f projects_dir base_name
                (seq 1 (S (size (entries f)))) (NoDup_seq _ _)) as Hb.
  rewrite length_seq in Hb. exfalso.
  assert (S (size (entries f)) ≤ size (entries f)); [|lia].
  apply Hb, Forall_forall. intros j Hj%elem_of_seq. apply Hall. lia.
Qed.

(** C7.  [get_unique_project_dir] returns: the base name itself when the
    path of that name under the projects directory does not exist, and
    otherwise the base name followed by a dash and the smallest counter
    from 1 on whose candidate does not exist.  To exist is what
    [Path.exists()] tests: the path leads to a file or to a directory. *)
Theorem get_unique_project_dir_first_free (f : filesystem) (base_name : string)
    (projects_dir : Path) :
  if path_exists f (truediv projects_dir base_name)
  then ∃ k, 1 ≤ k ∧
         get_unique_project_dir f base_name projects_dir
           = Some (base_name +:+ "-" +:+ pretty k) ∧
         path_exists f (truediv projects_dir (base_name +:+ "-" +:+ pretty k)) = false ∧
         ∀ j, 1 ≤ j < k →
              path_exists f (truediv projects_dir (base_name +:+ "-" +:+ pretty j)) = true
  else get_unique_project_dir f base_name projects_dir = Some base_name.
Proof.
  unfold get_unique_project_dir.
  destruct (path_exists f (truediv projects_dir base_name)); [|done].
  destruct (probe_total f projects_dir base_name) as (k & Hk).
  rewrite Hk. apply probe_Some in Hk as (Hle & Hfree & Hbelow).
  exists k. cbn. by repeat split.
Qed.

(** The examples of the specification: with [foo] and [foo-1] there the
    name is [foo-2]; in an empty projects directory it is [foo]. *)
Example get_unique_project_dir_foo_2 :
  get_unique_project_dir example_projects_fs "foo" (Path_of "projects") = Some "foo-2".
Proof. vm_compute. reflexivity. Qed.

Example get_unique_project_dir_empty_root :
  get_unique_project_dir example_empty_root_fs "foo" (Path_of "projects") = Some "foo".
Proof. vm_compute. reflexivity. Qed.

(** A regular file takes the name as a directory does: no directory
    [notes] exists, and the name returned is not [notes]. *)
Lemma file_takes_project_name :
  path_is_dir example_projects_fs (truediv (Path_of "projects") "notes") = false ∧
  get_unique_project_dir example_projects_fs "notes" (Path_of "projects")
    = Some "notes-1".
Proof. split; vm_compute; reflexivity. Qed.

(** ** Canonical paths *)

(** *** Splitting and joining *)

Lemma split_no_sep (sep : ascii) (s : string) :
  Forall (λ x, Str.has_char sep x = false) (Str.split sep s).
Proof.
  induction s as [|c s IH]; [by repeat constructor|].
  rewrite split_cons. case_decide as Hc.
  - by constructor.
  - destruct (Str.split sep s) as [|w ws]; cbn.
    + repeat constructor. cbn. by rewrite decide_False by congruence.
    + inversion IH; subst. constructor; [|done]. cbn. by rewrite decide_False by congruence.
Qed.

Lemma split_app_sep (w s : string) :
  Str.has_char "/" w = false →
  Str.split "/" (w +:+ String "/" s) = w :: Str.split "/" s.
Proof.
  induction w as [|c w IH]; intros Hw.
  - by rewrite str_app_nil_l, split_cons, decide_True.
  - cbn in Hw. case_decide as Hc; [done|].
    rewrite str_app_cons, split_cons, decide_False, (IH Hw) by congruence. done.
Qed.

Lemma split_join (l : list string) :
  l ≠ [] → Forall (λ x, Str.has_char "/" x = false) l →
  Str.split "/" (Str.join "/" l) = l.
Proof.
  induction l as [|w [|w' ws] IH]; [done| |]; intros _ Hl.
  - cbn. apply split_slash_free. by inversion Hl.
  - inversion Hl as [|? ? Hw Hws]; subst.
    change (Str.join "/" (w :: w' :: ws)) with (w +:+ "/" +:+ Str.join "/" (w' :: ws)).
    change ("/" +:+ Str.join "/" (w' :: ws)) with (String "/" (Str.join "/" (w' :: ws))).
    rewrite split_app_sep by done. by rewrite IH.
Qed.

(** The components a walk does not skip are those of [Path(s)]. *)
Lemma split_slashes (s : string) :
  filter proper (Str.split "/" (String "/" s)) = filter proper (Str.split "/" s).
Proof.
  rewrite split_cons, decide_True by done. rewrite filter_cons_False; [done|].
  by intros [? _].
Qed.

Lemma startswith_slash (s : string) : Str.startswith "/" (String "/" s) = true.
Proof. cbn. by rewrite decide_True. Qed.

Lemma startswith_false_cons (p s : string) (c : ascii) :
  Str.startswith (String c p) (String c s) = Str.startswith p s.
Proof. cbn. by rewrite decide_True. Qed.

Lemma splitroot_parts (s : string) :
  filter proper (Str.split "/" (snd (splitroot s))) = filter proper (Str.split "/" s) ∧
  Str.startswith "/" s = bool_decide (fst (splitroot s) ≠ "") ∧
  (fst (splitroot s) = "" ∨ fst (splitroot s) = "/" ∨ fst (splitroot s) = "//").
Proof.
  unfold splitroot.
  destruct (Str.startswith "///" s) eqn:H3.
  { apply startswith_spec in H3 as [t ->]. rewrite !str_app_cons, str_app_nil_l.
    cbn [fst snd Str.drop]. rewrite !split_slashes, startswith_slash. auto. }
  destruct (Str.startswith "//" s) eqn:H2.
  { apply startswith_spec in H2 as [t ->]. rewrite !str_app_cons, str_app_nil_l.
    cbn [fst snd Str.drop]. rewrite !split_slashes, startswith_slash. auto. }
  destruct (Str.startswith "/" s) eqn:H1.
  { apply startswith_spec in H1 as [t ->]. rewrite !str_app_cons, str_app_nil_l.
    cbn [fst snd Str.drop]. rewrite !split_slashes. auto. }
  cbn [fst snd]. auto.
Qed.

(** The text of a location is its own [Path]. *)
Lemma Path_of_loc_str (l : loc) :
  Forall plain_name l → Path_of (loc_str l) = mkPath "/" l.
Proof.
  intros Hl. unfold Path_of, loc_str, splitroot.
  change ("/" +:+ Str.join "/" l) with (String "/" (Str.join "/" l)).
  assert (Str.startswith "/" (Str.join "/" l) = false) as Hno.
  { destruct l as [|w ws]; [done|]. inversion Hl as [|? ? (Hw & _ & _ & Hs & _) _]; subst.
    destruct w as [|c w]; [done|]. cbn in Hs. case_decide as Hc; [done|].
    destruct ws as [|w' ws].
    - cbn. by rewrite decide_False.
    - change (Str.join "/" (String c w :: w' :: ws))
        with (String c w +:+ "/" +:+ Str.join "/" (w' :: ws)).
      rewrite str_app_cons. cbn [Str.startswith]. by rewrite decide_False. }
  rewrite !startswith_false_cons.
  replace (Str.startswith "//" (Str.join "/" l)) with false.
  2:{ destruct (Str.join "/" l) as [|c t]; [done|]. cbn in *. by case_decide. }
  rewrite Hno. cbn [Str.startswith Str.drop]. f_equal.
  destruct (decide (l = [])) as [->|Hne]; [done|].
  rewrite split_join; [|done|].
  - clear Hno Hne. induction Hl as [|x l (? & ? & _) _ IH]; [done|].
    rewrite filter_cons_True by done. by f_equal.
  - eapply Forall_impl; [exact Hl|]. by intros x (_ & _ & _ & ? & _).
Qed.

Lemma Path_str_loc (l : loc) : Path_str (mkPath "/" l) = loc_str l.
Proof. done. Qed.

(** *** Python's walk skips what [Path] drops *)

Lemma realpath_walk_filter (f : filesystem) (fuel : nat) (active : list loc)
    (path : loc) (rest : list string) :
  realpath_walk f fuel active path (filter proper rest) =
    realpath_walk f fuel active path rest.
Proof.
  revert path. induction rest as [|name rest IH]; intros path; [done|].
  destruct (decide (proper name)) as [Hp|Hp].
  - rewrite filter_cons_True by done. rewrite !realpath_walk_cons.
    destruct Hp as [H1 H2].
    destruct (decide (name = "" ∨ name = ".")) as [[?|?]|_]; [done|done|].
    case_decide; [apply IH|].
    destruct (Str.has_char nul name); [done|]. cbn zeta.
    destruct (link_target f (path ++ [name])) as [target|]; [|apply IH].
    destruct fuel as [|fuel']; [by rewrite IH|].
    case_decide; [by rewrite IH|].
    destruct (realpath_walk f fuel' _ _ _) as [[p l1]|]; [|done]. by rewrite IH.
  - rewrite filter_cons_False by done. rewrite realpath_walk_cons.
    rewrite decide_True; [apply IH|].
    unfold proper in Hp. destruct (decide (name = "")); [by left|].
    destruct (decide (name = ".")); [by right|]. by destruct Hp.
Qed.

(** [realpath] sees of a path text what [Path] keeps of it. *)
Lemma realpath_Path_str (f : filesystem) (s : string) :
  realpath f (Path_str (Path_of s)) = realpath f s.
Proof.
  unfold realpath.
  destruct (splitroot_parts s) as (Hparts & Habs & Hroot).
  assert (Hs : Str.startswith "/" (Path_str (Path_of s)) = Str.startswith "/" s ∧
               filter proper (Str.split "/" (Path_str (Path_of s))) =
                 filter proper (Str.split "/" s)).
  { unfold Path_of. destruct (splitroot s) as [r rel]. cbn [fst snd] in *.
    rewrite <- Hparts. set (ps := filter _ (Str.split "/" rel)).
    assert (Hps : Forall (λ x, proper x ∧ Str.has_char "/" x = false) ps).
    { apply Forall_forall. intros x [Hx Hin]%list_elem_of_filter. split; [done|].
      pose proof (split_no_sep "/" rel) as Hsep. rewrite Forall_forall in Hsep. auto. }
    assert (Hjoin : filter proper (Str.split "/" (Str.join "/" ps)) = ps).
    { destruct (decide (ps = [])) as [->|Hne]; [done|].
      rewrite split_join; [|done|by eapply Forall_impl; [exact Hps|]; intros ? []].
      clear -Hps. induction Hps as [|x l [? _] _ IH]; [done|].
      rewrite filter_cons_True by done. by f_equal. }
    assert (Hhead : Str.startswith "/" (Str.join "/" ps) = false).
    { destruct Hps as [|x l [[Hx _] Hsl] _]; [done|].
      destruct x as [|c x]; [done|]. cbn in Hsl. case_decide as Hc; [done|].
      destruct l as [|w' ws].
      - cbn. by rewrite decide_False.
      - change (Str.join "/" (String c x :: w' :: ws))
          with (String c x +:+ "/" +:+ Str.join "/" (w' :: ws)).
        rewrite str_app_cons. cbn [Str.startswith]. by rewrite decide_False. }
    unfold Path_str. cbn [root parts].
    destruct Hroot as [->|[->| ->]].
    - destruct ps as [|x l] eqn:Hpseq.
      + split; [by rewrite Habs|]. done.
      + rewrite <- Hpseq in *. rewrite str_app_nil_l. split; [by rewrite Habs|done].
    - change ("/" +:+ Str.join "/" ps) with (String "/" (Str.join "/" ps)).
      rewrite split_slashes, Hjoin. by rewrite Habs.
    - change ("//" +:+ Str.join "/" ps) with (String "/" (String "/" (Str.join "/" ps))).
      rewrite !split_slashes, Hjoin. by rewrite Habs. }
  destruct Hs as [-> Hfilter].
  destruct (Str.startswith "/" s).
  - rewrite !app_nil_l. by rewrite <- realpath_walk_filter, Hfilter, realpath_walk_filter.
  - rewrite <- realpath_walk_filter, filter_app, Hfilter, <- filter_app.
    by rewrite realpath_walk_filter.
Qed.

(** *** Resolved locations *)

Lemma link_target_root (f : filesystem) : link_target f [] = None.
Proof. done. Qed.

Lemma resolved_nil (f : filesystem) : resolved f [].
Proof. split; [constructor|]. intros i. by destruct i. Qed.

Lemma resolved_removelast (f : filesystem) (l : loc) :
  resolved f l → resolved f (removelast l).
Proof.
  intros [Hn Hl]. split; [by apply Forall_removelast|]. intros i.
  destruct l as [|x l _] using rev_ind; [by destruct i|].
  rewrite removelast_snoc.
  destruct (decide (i ≤ List.length l)).
  - specialize (Hl i). by rewrite take_app_le in Hl.
  - rewrite take_ge by lia. specialize (Hl (List.length l)).
    by rewrite take_app_le, take_ge in Hl.
Qed.

Lemma resolved_snoc (f : filesystem) (l : loc) (x : string) :
  resolved f l → plain_name x → link_target f (l ++ [x]) = None → resolved f (l ++ [x]).
Proof.
  intros [Hn Hl] Hx Hlink. split.
  - apply Forall_app. split; [done | by apply Forall_singleton].
  - intros i. destruct (decide (i ≤ List.length l)).
    + rewrite take_app_le by done. apply Hl.
    + rewrite take_ge; [done|]. rewrite length_app. cbn. lia.
Qed.

Lemma resolved_target_base (f : filesystem) (path : loc) (target : string) :
  resolved f path → resolved f (target_base path target).
Proof.
  intros H. unfold target_base. destruct (Str.startswith "/" target); [|done].
  apply resolved_nil.
Qed.

(** A walk that meets no loop ends at a resolved location. *)
Lemma realpath_walk_resolved (f : filesystem) (fuel : nat) (active : list loc)
    (path : loc) (rest : list string) (q : loc) :
  resolved f path →
  Forall (λ x, Str.has_char "/" x = false) rest →
  realpath_walk f fuel active path rest = Some (q, false) →
  resolved f q.
Proof.
  revert active path rest q. induction fuel as [fuel IHf] using lt_wf_ind.
  intros active path rest. revert path.
  induction rest as [|name rest IH]; intros path q Hpath Hrest.
  - rewrite realpath_walk_nil. by intros [= <-].
  - inversion Hrest as [|? ? Hslash Hrest']; subst.
    rewrite realpath_walk_cons. cbv zeta.
    destruct (decide (name = "" ∨ name = ".")) as [|Hskip]; [by apply IH|].
    destruct (decide (name = "..")); [apply IH; [by apply resolved_removelast|done]|].
    destruct (Str.has_char nul name) eqn:Hname; [done|].
    assert (plain_name name) as Hplain.
    { repeat split; try done; intros ->; apply Hskip; auto. }
    assert (∀ r, mark_loop r ≠ Some (q, false)) as Hmark.
    { by intros [[q' l']|]. }
    destruct (link_target f (path ++ [name])) as [target|] eqn:Hlink.
    2:{ apply IH; [|done]. by apply resolved_snoc. }
    destruct fuel as [|fuel']; [by intros ?%Hmark|].
    destruct (decide (path ++ [name] ∈ active)); [by intros ?%Hmark|].
    destruct (realpath_walk f fuel' _ _ _) as [[p l1]|] eqn:Hp; [|done].
    destruct (realpath_walk f (S fuel') active p rest) as [[q' l2]|] eqn:Hq; [|done].
    intros [= <- [-> ->]%orb_false_iff]. eapply IH; [|done|exact Hq].
    eapply (IHf fuel'); [lia| | |exact Hp].
    + by apply resolved_target_base.
    + apply split_no_sep.
Qed.

(** Walking the names of a resolved location leads to it. *)
Lemma realpath_walk_of_resolved (f : filesystem) (fuel : nat) (active : list loc)
    (path : loc) (names : list string) :
  resolved f (path ++ names) →
  realpath_walk f fuel active path names = Some (path ++ names, false).
Proof.
  revert path. induction names as [|name names IH]; intros path Hres.
  - by rewrite realpath_walk_nil, app_nil_r.
  - rewrite realpath_walk_cons. cbv zeta.
    destruct Hres as [Hn Hl].
    assert (plain_name name) as (H1 & H2 & H3 & _ & Hnul).
    { apply Forall_app in Hn as [_ Hn]. by inversion Hn. }
    rewrite decide_False by (intros [?|?]; done).
    rewrite decide_False by done. rewrite Hnul.
    pose proof (Hl (S (List.length path))) as Hlink.
    rewrite (cons_middle name), app_assoc, take_app_length' in Hlink
      by (rewrite length_app; cbn; lia).
    rewrite Hlink.
    rewrite (IH (path ++ [name])); rewrite <- app_assoc; [done|]. by split.
Qed.

(** The canonical path of a text, by what [realpath] gives. *)
Lemma normalize_path_realpath (f : filesystem) (s : string) :
  normalize_path f s =
    match realpath f s with
    | Some r => Ok (Path_str (Path_of (loc_str (fst r))))
    | None => Raise embedded_null
    end.
Proof.
  unfold normalize_path, resolve. rewrite realpath_Path_str.
  by destruct (realpath f s).
Qed.

Lemma realpath_loc_str (f : filesystem) (l : loc) :
  resolved f l → realpath f (loc_str l) = Some (l, false).
Proof.
  intros Hres. unfold realpath, loc_str.
  change ("/" +:+ Str.join "/" l) with (String "/" (Str.join "/" l)).
  rewrite startswith_slash, app_nil_l.
  rewrite <- realpath_walk_filter, split_slashes.
  destruct (decide (l = [])) as [->|Hne].
  { rewrite realpath_walk_filter. change (Str.split "/" (Str.join "/" [])) with [""].
    rewrite realpath_walk_cons, decide_True by (by left). apply realpath_walk_nil. }
  rewrite split_join; [|done|].
  - rewrite realpath_walk_filter. by apply (realpath_walk_of_resolved f _ [] []).
  - destruct Hres as [Hn _]. eapply Forall_impl; [exact Hn|].
    by intros x (_ & _ & _ & ? & _).
Qed.

(** Without a loop the canonical path is the text of a resolved location,
    and its own canonical path. *)
Lemma normalize_path_resolved (f : filesystem) (s q : string) :
  meets_loop f s = false → normalize_path f s = Ok q →
  ∃ l, resolved f l ∧ q = loc_str l ∧ realpath f s = Some (l, false).
Proof.
  unfold meets_loop. rewrite normalize_path_realpath.
  destruct (realpath f s) as [[l looped]|] eqn:Hreal; [|done].
  intros -> [= <-]. exists l. cbn [fst].
  assert (resolved f l) as Hres.
  { unfold realpath in Hreal. eapply realpath_walk_resolved; [apply resolved_nil| |exact Hreal].
    apply Forall_app. split; [|apply split_no_sep].
    destruct (Str.startswith "/" s); [constructor | apply split_no_sep]. }
  split; [done|]. split; [|done].
  rewrite Path_of_loc_str by apply Hres. done.
Qed.

Lemma normalize_path_idempotent_no_loop (f : filesystem) (s q : string) :
  meets_loop f s = false → normalize_path f s = Ok q → normalize_path f q = Ok q.
Proof.
  intros Hloop Hq.
  destruct (normalize_path_resolved f s q Hloop Hq) as (l & Hres & -> & _).
  rewrite normalize_path_realpath, realpath_loc_str by done. cbn [fst].
  by rewrite Path_of_loc_str by apply Hres.
Qed.

(** *** The kernel's walk and Python's agree *)

Lemma namei_walks (f : filesystem) (fuel : nat) (d : loc) (rest : list string) (l : loc) :
  namei f fuel d rest = Reached l → ∃ k, k ≤ fuel ∧ walks f d rest k l.
Proof.
  revert d rest l. induction fuel as [fuel IHf] using lt_wf_ind.
  intros d rest. revert d. induction rest as [|name rest IH]; intros d l.
  - rewrite namei_nil. intros [= <-]. exists 0. split; [lia | constructor].
  - rewrite namei_cons.
    destruct (lstat f d) as [[| |]|] eqn:Hd; try done.
    destruct (decide (name = "" ∨ name = ".")) as [Hskip|Hskip].
    { intros (k & ? & ?)%IH. exists k. split; [done|]. by apply walks_skip. }
    destruct (decide (name = "..")) as [->|Hup].
    { intros (k & ? & ?)%IH. exists k. split; [done|]. by apply walks_up. }
    destruct (link_target f (d ++ [name])) as [target|] eqn:Hlink.
    2:{ intros (k & ? & ?)%IH. exists k. split; [done|]. by apply walks_down. }
    destruct fuel as [|fuel']; [done|].
    intros (k & ? & ?)%IHf; [|lia]. exists (S k). split; [lia|].
    by eapply walks_link.
Qed.

Lemma walks_app (f : filesystem) (d : loc) (A B : list string) (k : nat) (l : loc) :
  walks f d (A ++ B) k l →
  ∃ d' k1 k2, walks f d A k1 d' ∧ walks f d' B k2 l ∧ k = k1 + k2.
Proof.
  intros H. remember (A ++ B) as R eqn:HR. revert A HR.
  induction H as [d|d name rest k l Hd Hn H IH|d rest k l Hd H IH
                  |d name rest k l Hd Hn Hu Hl H IH|d name rest target k l Hd Hn Hu Hl H IH];
    intros A HR.
  - symmetry in HR. apply app_eq_nil in HR as [-> ->].
    exists d, 0, 0. by repeat constructor.
  - destruct A as [|a A]; cbn in HR.
    + subst B. exists d, 0, k. split; [constructor|]. split; [by apply walks_skip | done].
    + injection HR as <- ->. destruct (IH A eq_refl) as (d' & k1 & k2 & H1 & H2 & ->).
      exists d', k1, k2. split; [by apply walks_skip | done].
  - destruct A as [|a A]; cbn in HR.
    + subst B. exists d, 0, k. split; [constructor|]. split; [by apply walks_up | done].
    + injection HR as <- ->. destruct (IH A eq_refl) as (d' & k1 & k2 & H1 & H2 & ->).
      exists d', k1, k2. split; [by apply walks_up | done].
  - destruct A as [|a A]; cbn in HR.
    + subst B. exists d, 0, k. split; [constructor|]. split; [by apply walks_down | done].
    + injection HR as <- ->. destruct (IH A eq_refl) as (d' & k1 & k2 & H1 & H2 & ->).
      exists d', k1, k2. split; [by apply walks_down | done].
  - destruct A as [|a A]; cbn in HR.
    + subst B. exists d, 0, (S k). split; [constructor|].
      split; [by eapply walks_link | done].
    + injection HR as <- ->.
      destruct (IH (Str.split "/" target ++ A)) as (d' & k1 & k2 & H1 & H2 & ->);
        [by rewrite app_assoc|].
      exists d', (S k1), k2. split; [by eapply walks_link|]. split; [done | lia].
Qed.

Lemma walks_det (f : filesystem) (d : loc) (rest : list string) (k k' : nat) (l l' : loc) :
  walks f d rest k l → walks f d rest k' l' → k = k' ∧ l = l'.
Proof.
  intros H. revert k' l'.
  induction H as [d|d name rest k l Hd Hn H IH|d rest k l Hd H IH
                  |d name rest k l Hd Hn Hu Hl H IH|d name rest target k l Hd Hn Hu Hl H IH];
    intros k' l' H'; inversion H'; simplify_eq; try done; try (by apply IH);
    try (exfalso; tauto);
    try (exfalso; match goal with H : _ = _ ∨ _ = _ |- _ => by destruct H end).
  edestruct IH as [-> ->]; [eassumption | done].
Qed.

Lemma no_way_back_le (f : filesystem) (active : list loc) (k k0 : nat) :
  k0 ≤ k → no_way_back f active k → no_way_back f active k0.
Proof. intros Hle H L target X k' l' HL Ht Hw. specialize (H L target X k' l' HL Ht Hw). lia. Qed.

(** Links being resolved are entries of their own: there is room for one
    more as long as a link is not among them. *)
Lemma active_bounded (f : filesystem) (active : list loc) :
  NoDup active → (∀ L, L ∈ active → is_Some (entries f !! L)) →
  List.length active ≤ size (entries f).
Proof.
  intros Hnd Hin.
  rewrite <- length_map_to_list, <- (length_fmap fst (map_to_list (entries f))).
  apply submseteq_length, NoDup_submseteq; [done|].
  intros L [n Hn]%Hin. apply list_elem_of_fmap. exists (L, n). split; [done|].
  by apply elem_of_map_to_list.
Qed.

Lemma link_target_entry (f : filesystem) (L : loc) (target : string) :
  link_target f L = Some target → is_Some (entries f !! L).
Proof.
  intros H. destruct (entries f !! L) as [n|] eqn:He; [by eexists|].
  unfold link_target, lstat in H. destruct L; [done|]. by rewrite He in H.
Qed.

(** Where the kernel's walk arrives, Python's arrives, and meets no loop. *)
Lemma walks_realpath (f : filesystem) (k : nat) :
  fs_text_ok f = true →
  ∀ (rest : list string) (d l : loc) (fuel : nat) (active : list loc),
    walks f d rest k l →
    NoDup active → (∀ L, L ∈ active → is_Some (entries f !! L)) →
    size (entries f) ≤ fuel + List.length active →
    no_way_back f active k →
    Forall (λ x, Str.has_char nul x = false) rest →
    realpath_walk f fuel active d rest = Some (l, false).
Proof.
  intros Hok. induction k as [k IHk] using lt_wf_ind.
  induction rest as [|name rest IH]; intros d l fuel active Hw Hnd Hkeys Hfuel Hback Hnul.
  - inversion Hw; subst. apply realpath_walk_nil.
  - inversion Hnul as [|? ? Hname Hrest]; subst.
    rewrite realpath_walk_cons. cbv zeta.
    inversion Hw as [|? ? ? ? ? Hd Hn Hw'|? ? ? ? Hd Hw'|? ? ? ? ? Hd Hn Hu Hl Hw'
                     |? ? ? target k' ? Hd Hn Hu Hl Hw']; subst.
    + rewrite decide_True by done. by apply IH.
    + rewrite decide_False by (intros [?|?]; done). rewrite decide_True by done.
      by apply IH.
    + rewrite decide_False by done. rewrite decide_False by done.
      rewrite Hname, Hl. by apply IH.
    + rewrite decide_False by done. rewrite decide_False by done.
      rewrite Hname, Hl.
      assert (Hnew : d ++ [name] ∉ active).
      { intros Hin. specialize (Hback (d ++ [name]) target rest k' l Hin Hl).
        rewrite removelast_snoc in Hback. specialize (Hback Hw'). lia. }
      assert (Hkeys' : ∀ L, L ∈ (d ++ [name]) :: active → is_Some (entries f !! L)).
      { intros L [->|HL]%elem_of_cons; [by eapply link_target_entry | by apply Hkeys]. }
      assert (Hnd' : NoDup ((d ++ [name]) :: active)) by (by apply NoDup_cons).
      pose proof (active_bounded f _ Hnd' Hkeys') as Hroom. cbn in Hroom.
      destruct fuel as [|fuel']; [lia|].
      rewrite decide_False by done.
      apply walks_app in Hw' as (d' & k1 & k2 & Hw1 & Hw2 & ->).
      rewrite (IHk k1) with (l := d'); [|lia|done|done|done|cbn; lia| |].
      * rewrite (IHk k2) with (l := l); [done|lia|done|done|done|done| |done].
        eapply no_way_back_le; [|exact Hback]. lia.
      * intros L target' X k'' l'' [->|HL]%elem_of_cons Ht Hwalk.
        -- rewrite removelast_snoc in Hwalk. assert (target' = target) as -> by congruence.
           apply walks_app in Hwalk as (d'' & k1' & k2' & Hw1' & _ & ->).
           destruct (walks_det _ _ _ _ _ _ _ Hw1 Hw1') as [-> _]. lia.
        -- specialize (Hback L target' X k'' l'' HL Ht Hwalk). lia.
      * eapply split_no_char, fs_text_ok_link; [done | exact Hl].
Qed.

Lemma lookup_path_realpath (f : filesystem) (s : string) (l : loc) :
  fs_text_ok f = true → Str.has_char nul s = false →
  lookup_path f (of_str s) = Reached l →
  realpath f s = Some (l, false).
Proof.
  intros Hok Hs. unfold lookup_path, of_str. cbn [op_abs op_names].
  intros (k & _ & Hw)%namei_walks.
  apply (walks_realpath f k Hok _ _ _ (size (entries f)) []) in Hw.
  - unfold realpath. rewrite <- realpath_walk_filter in Hw |- *.
    rewrite <- Hw. f_equal. unfold walk_start.
    destruct (Str.startswith "/" s); [done|].
    rewrite !filter_app. f_equal. rewrite filter_cons_False by (by intros [_ ?]).
    by rewrite filter_nil, app_nil_r.
  - constructor.
  - by intros L ?%elem_of_nil.
  - cbn. lia.
  - by intros L target X k' l' ?%elem_of_nil.
  - apply Forall_app. split; [|by apply split_no_char].
    unfold walk_start. destruct (Str.startswith "/" s); [constructor|].
    apply Forall_app. split; [|by repeat constructor].
    by apply split_no_char, fs_text_ok_cwd.
Qed.

(** The canonical path of a path the kernel resolves is the text of the
    location it resolves to. *)
Lemma normalize_path_lookup (f : filesystem) (s : string) (l : loc) :
  fs_text_ok f = true → Str.has_char nul s = false →
  lookup_path f (of_str s) = Reached l →
  normalize_path f s = Ok (loc_str l) ∧ meets_loop f s = false.
Proof.
  intros Hok Hs Hl. pose proof (lookup_path_realpath f s l Hok Hs Hl) as Hreal.
  assert (meets_loop f s = false) as Hloop by (unfold meets_loop; by rewrite Hreal).
  split; [|done].
  destruct (normalize_path f s) as [q|e] eqn:Hq.
  - destruct (normalize_path_resolved f s q Hloop Hq) as (l' & _ & -> & Hreal').
    rewrite Hreal in Hreal'. by injection Hreal' as ->.
  - rewrite normalize_path_realpath, Hreal in Hq. done.
Qed.

(** C8.  Canonicalization is idempotent on every path whose resolution
    meets no symbolic-link loop, and two path texts that the kernel resolves
    to one directory entry -- through whatever [.], [..], repeated slashes
    and symbolic links -- have one canonical path, the text of that entry's
    location. *)
Theorem normalize_path_canonical (f : filesystem) :
  (∀ p q, meets_loop f p = false → normalize_path f p = Ok q →
          normalize_path f q = Ok q) ∧
  (∀ p1 p2 l,
     fs_text_ok f = true →
     Str.has_char nul p1 = false → Str.has_char nul p2 = false →
     lookup_path f (of_str p1) = Reached l → lookup_path f (of_str p2) = Reached l →
     normalize_path f p1 = Ok (loc_str l) ∧ normalize_path f p2 = Ok (loc_str l)).
Proof.
  split.
  - apply normalize_path_idempotent_no_loop.
  - intros p1 p2 l Hok H1 H2 Hl1 Hl2. split; by eapply normalize_path_lookup.
Qed.

Lemma normalize_path_canonical_witness :
  normalize_path example_links_fs "/home/u/src/main.py" = Ok "/home/u/src/main.py" ∧
  normalize_path example_links_fs "cur/main.py"
    = Ok (loc_str ["home"; "u"; "src"; "main.py"]) ∧
  normalize_path example_links_fs "/home//u/./src/main.py"
    = Ok (loc_str ["home"; "u"; "src"; "main.py"]).
Proof.
  split.
  - apply (proj1 (normalize_path_canonical example_links_fs) "cur/../cur/main.py");
      vm_compute; reflexivity.
  - apply (proj2 (normalize_path_canonical example_links_fs)); vm_compute; reflexivity.
Defined.

(** Two hard links are one file, the same inode with the same content, and
    have two canonical paths. *)
Lemma hard_links_normalize_apart :
  lstat example_links_fs ["home"; "u"; "copy.py"] = Some (File 1) ∧
  lstat example_links_fs ["home"; "u"; "src"; "main.py"] = Some (File 1) ∧
  open_read example_links_fs (of_str "copy.py") = Ok "print(1)" ∧
  open_read example_links_fs (of_str "src/main.py") = Ok "print(1)" ∧
  normalize_path example_links_fs "copy.py" = Ok "/home/u/copy.py" ∧
  normalize_path example_links_fs "src/main.py" = Ok "/home/u/src/main.py".
Proof. repeat split; vm_compute; reflexivity. Qed.

(** On a loop of symbolic links canonicalization is not idempotent. *)
Example normalize_path_loop :
  meets_loop example_links_fs "lp" = true ∧
  normalize_path example_links_fs "lp" = Ok "/home/u/lp/c" ∧
  normalize_path example_links_fs "/home/u/lp/c" = Ok "/home/u/lp/c/c".
Proof. repeat split; vm_compute; reflexivity. Qed.

(** A path through a symbolic link and a path without it. *)
Example normalize_path_through_link :
  normalize_path example_links_fs "cur/main.py" = Ok "/home/u/src/main.py" ∧
  normalize_path example_links_fs "./src//main.py" = Ok "/home/u/src/main.py".
Proof. split; vm_compute; reflexivity. Qed.

(** ** What a canonical path looks like *)

(** Whatever a walk meets, the names it keeps are plain. *)
Lemma realpath_walk_plain (f : filesystem) (fuel : nat) (active : list loc)
    (path : loc) (rest : list string) (q : loc) (looped : bool) :
  Forall plain_name path →
  Forall (λ x, Str.has_char "/" x = false) rest →
  realpath_walk f fuel active path rest = Some (q, looped) →
  Forall plain_name q.
Proof.
  revert active path rest q looped. induction fuel as [fuel IHf] using lt_wf_ind.
  intros active path rest. revert path.
  induction rest as [|name rest IH]; intros path q looped Hpath Hrest.
  - rewrite realpath_walk_nil. by intros [= <- _].
  - inversion Hrest as [|? ? Hslash Hrest']; subst.
    rewrite realpath_walk_cons. cbv zeta.
    destruct (decide (name = "" ∨ name = ".")) as [|Hskip]; [by apply IH|].
    destruct (decide (name = "..")); [apply IH; [by apply Forall_removelast|done]|].
    destruct (Str.has_char nul name) eqn:Hname; [done|].
    assert (Forall plain_name (path ++ [name])) as Hnew.
    { apply Forall_app. split; [done|]. apply Forall_singleton.
      repeat split; try done; intros ->; apply Hskip; auto. }
    assert (∀ r, mark_loop r = Some (q, looped) → ∃ l, r = Some (q, l)) as Hmark.
    { intros [[q' l']|]; [|done]. cbn. intros [= <- _]. by eexists. }
    destruct (link_target f (path ++ [name])) as [target|]; [|by apply IH].
    destruct fuel as [|fuel'].
    + intros [l Hl]%Hmark. by eapply IH.
    + destruct (decide (path ++ [name] ∈ active)).
      * intros [l Hl]%Hmark. by eapply IH.
      * destruct (realpath_walk f fuel' _ _ _) as [[p l1]|] eqn:Hp; [|done].
        destruct (realpath_walk f (S fuel') active p rest) as [[q' l2]|] eqn:Hq; [|done].
        intros [= <- _]. eapply IH; [|done|exact Hq].
        eapply (IHf fuel'); [lia| |apply split_no_sep|exact Hp].
        unfold target_base. destruct (Str.startswith "/" target); [constructor | done].
Qed.

(** A name with a NUL character stops the walk, wherever it stands. *)
Lemma realpath_walk_nul (f : filesystem) (fuel : nat) (active : list loc)
    (path : loc) (rest : list string) :
  Exists (λ x, Str.has_char nul x = true) rest →
  realpath_walk f fuel active path rest = None.
Proof.
  revert path. induction rest as [|name rest IH]; intros path Hex;
    [by apply Exists_nil in Hex|].
  rewrite realpath_walk_cons. cbv zeta.
  apply Exists_cons in Hex as [Hname|Hrest].
  - destruct (decide (name = "" ∨ name = ".")) as [[->| ->]|]; [done|done|].
    destruct (decide (name = "..")) as [->|]; [done|]. by rewrite Hname.
  - destruct (decide (name = "" ∨ name = ".")); [by apply IH|].
    destruct (decide (name = "..")); [by apply IH|].
    destruct (Str.has_char nul name); [done|].
    destruct (link_target f (path ++ [name])) as [target|]; [|by apply IH].
    destruct fuel as [|fuel']; [by rewrite IH|].
    destruct (decide (path ++ [name] ∈ active)); [by rewrite IH|].
    destruct (realpath_walk f fuel' _ _ _) as [[p l1]|]; [|done]. by rewrite IH.
Qed.

Lemma split_has_char (c sep : ascii) (s : string) :
  Str.has_char c s = true → c ≠ sep →
  Exists (λ x, Str.has_char c x = true) (Str.split sep s).
Proof.
  intros Hs Hc. induction s as [|d s IH]; [done|].
  rewrite split_cons. cbn in Hs. case_decide as Hd.
  - subst d. rewrite decide_False by done. pose proof (split_nonempty sep s) as Hne.
    destruct (Str.split sep s) as [|w ws]; [done|]. cbn.
    apply Exists_cons_hd. cbn. by rewrite decide_True.
  - specialize (IH Hs). case_decide; [by apply Exists_cons_tl|].
    destruct (Str.split sep s) as [|w ws]; [by apply Exists_nil in IH|]. cbn.
    apply Exists_cons in IH as [Hw|Hws].
    + apply Exists_cons_hd. cbn. by rewrite decide_False, Hw.
    + by apply Exists_cons_tl.
Qed.

Lemma normalize_path_nul (f : filesystem) (s : string) :
  Str.has_char nul s = true → normalize_path f s = Raise embedded_null.
Proof.
  intros Hs. rewrite normalize_path_realpath. unfold realpath.
  rewrite realpath_walk_nul; [done|].
  apply Exists_app. right. by apply split_has_char.
Qed.

(** X1.  A canonical path is absolute and clean: a slash followed by names
    joined with slashes, no name empty, [.] or [..], none with a slash or a
    NUL character in it.  This holds whether the path exists or not and
    whatever symbolic links were met. *)
Theorem normalize_path_absolute_clean (f : filesystem) (s q : string) :
  normalize_path f s = Ok q →
  ∃ names, q = "/" +:+ Str.join "/" names ∧
           Forall plain_name names ∧
           Str.startswith "/" q = true.
Proof.
  rewrite normalize_path_realpath.
  destruct (realpath f s) as [[l looped]|] eqn:Hreal; [|done].
  intros [= <-]. cbn [fst]. exists l.
  assert (Forall plain_name l) as Hl.
  { unfold realpath in Hreal. eapply realpath_walk_plain; [constructor| |exact Hreal].
    apply Forall_app. split; [|apply split_no_sep].
    destruct (Str.startswith "/" s); [constructor | apply split_no_sep]. }
  rewrite Path_of_loc_str by done. rewrite Path_str_loc. unfold loc_str.
  split; [done|]. split; [done|].
  change ("/" +:+ Str.join "/" l) with (String "/" (Str.join "/" l)).
  apply startswith_slash.
Qed.

Lemma normalize_path_absolute_clean_witness :
  ∃ names, "/home/u/app.py" = "/" +:+ Str.join "/" names ∧
           Forall plain_name names ∧
           Str.startswith "/" "/home/u/app.py" = true.
Proof.
  apply (normalize_path_absolute_clean example_fs "projects/./demo/../..//app.py").
  vm_compute. reflexivity.
Defined.

(** X2.  [normalize_path] raises exactly when the path string holds a NUL
    character, and what it raises is the [ValueError] of [os.lstat]: a path
    that does not exist, or leads through a file, is canonicalized all the
    same. *)
Theorem normalize_path_raises_iff_nul (f : filesystem) (s : string) :
  fs_text_ok f = true →
  match normalize_path f s with
  | Ok _ => Str.has_char nul s = false
  | Raise e => e = ValueError "embedded null byte" ∧ Str.has_char nul s = true
  end.
Proof.
  intros Hok. destruct (Str.has_char nul s) eqn:Hs.
  - by rewrite normalize_path_nul.
  - by destruct (normalize_path_total f s Hok Hs) as [q ->].
Qed.

Lemma normalize_path_raises_iff_nul_witness :
  match normalize_path example_fs "no/such/dir/file.py" with
  | Ok _ => Str.has_char nul "no/such/dir/file.py" = false
  | Raise e => e = ValueError "embedded null byte"
               ∧ Str.has_char nul "no/such/dir/file.py" = true
  end.
Proof. apply (normalize_path_raises_iff_nul example_fs). vm_compute. reflexivity. Defined.

(** ** Guessing the files a message names *)

Lemma guess_word_run (potential_paths : list string) (word : string) (st : state) :
  guess_word potential_paths word st =
    (Ok (potential_paths ++ option_list (guessed_path (fs st) word)), st).
Proof.
  unfold guess_word, guessed_path, names_a_file.
  destruct (_ || _); [|by rewrite app_nil_r].
  unfold try_except, bind, get_fs, lift, ret. cbn.
  destruct (normalize_path (fs st) _) as [q|e] eqn:Hq; cbn; [done|].
  apply normalize_path_raises in Hq as ->. cbn. by rewrite app_nil_r.
Qed.

Lemma guess_files_in_message_run (user_message : string) (st : state) :
  guess_files_in_message user_message st =
    (Ok (omap (guessed_path (fs st)) (Str.split_ws user_message)), st).
Proof.
  unfold guess_files_in_message.
  change (omap (guessed_path (fs st)) (Str.split_ws user_message))
    with ([] ++ omap (guessed_path (fs st)) (Str.split_ws user_message)).
  generalize (@nil string).
  induction (Str.split_ws user_message) as [|word words IH]; intros acc; cbn [for_each].
  - cbn. by rewrite app_nil_r.
  - unfold bind. rewrite guess_word_run, IH. cbn [omap list_omap].
    destruct (guessed_path (fs st) word); cbn; by rewrite <- ?app_assoc, ?app_nil_r.
Qed.


Example guess_files_in_message_example :
  fst (guess_files_in_message "please fix 'app.py', and ./projects/demo today"
         example_state) =
    Ok ["/home/u/app.py"; "/home/u/projects/demo"].
Proof. vm_compute. reflexivity. Qed.

(** ** The [/add] command *)

Lemma has_char_rev_app (c : ascii) (s t : string) :
  Str.has_char c (String.rev_app s t) = Str.has_char c s || Str.has_char c t.
Proof.
  revert t. induction s as [|d s IH]; intros t; [done|].
  cbn. rewrite IH. cbn. case_decide; [by rewrite orb_true_r | done].
Qed.

Lemma has_char_rev (c : ascii) (s : string) :
  Str.has_char c (String.rev s) = Str.has_char c s.
Proof. unfold String.rev. by rewrite has_char_rev_app, orb_false_r. Qed.

Lemma has_char_lstrip_ws (c : ascii) (s : string) :
  Str.has_char c s = false → Str.has_char c (Str.lstrip_ws s) = false.
Proof.
  induction s as [|d s IH]; [done|]. intros Hs. cbn [Str.lstrip_ws].
  destruct (Str.isspace d); [|done]. apply IH. cbn in Hs. by case_decide.
Qed.

Lemma has_char_strip_ws (c : ascii) (s : string) :
  Str.has_char c s = false → Str.has_char c (Str.strip_ws s) = false.
Proof.
  intros Hs. unfold Str.strip_ws. rewrite has_char_rev.
  apply has_char_lstrip_ws. rewrite has_char_rev. by apply has_char_lstrip_ws.
Qed.

(** The three ways a recognized command ends, by what reading the file
    gives. *)
Lemma try_handle_add_command_run (user_input : string) (st : state) :
  let file_path := Str.strip_ws (Str.drop 5 user_input) in
  Str.startswith "/add " (Str.lower (Str.strip_ws user_input)) = true →
  try_handle_add_command user_input st =
    match open_read (fs st) (of_str file_path) with
    | Ok content =>
        (Ok true,
         mkState (fs st)
           (conversation_history st ++ [mkMsg system (file_message file_path content)])
           (output st ++ [ConsolePrint ("[green]✓[/green] Added file '[cyan]" +:+ file_path
                                        +:+ "[/cyan]' to conversation." +:+ nl)]))
    | Raise e =>
        if is_OSError e then
          (Ok true,
           mkState (fs st) (conversation_history st)
             ((output st
               ++ [LogError ("Could not add file '" +:+ file_path +:+ "': " +:+ exn_str e)])
               ++ [ConsolePrint ("[red]✗[/red] "
                                 +:+ ("Could not add file '" +:+ file_path +:+ "': "
                                      +:+ exn_str e) +:+ nl)]))
        else (Raise e, st)
    end.
Proof.
  intros file_path Hcmd. unfold try_handle_add_command. rewrite Hcmd.
  change (Str.strip_ws (Str.drop (String.length "/add ") user_input)) with file_path.
  unfold bind at 1, try_except, bind at 1, read_local_file, bind at 1, get_fs, lift.
  cbn [fst snd].
  destruct (open_read (fs st) (of_str file_path)) as [content|e]; cbn.
  - done.
  - destruct (is_OSError e); cbn; [|done]. by destruct st.
Qed.





(** ** What [create_file] leaves alone *)

Lemma adds_dirs_refl (f : filesystem) : adds_dirs f f.
Proof. repeat split; [done|]. intros l n ?. by left. Qed.

Lemma adds_dirs_trans (f1 f2 f3 : filesystem) :
  adds_dirs f1 f2 → adds_dirs f2 f3 → adds_dirs f1 f3.
Proof.
  intros (Hc1 & Hd1 & He1 & Hn1) (Hc2 & Hd2 & He2 & Hn2).
  split; [congruence|]. split; [congruence|]. split; [by etrans|].
  intros l n [H|[H ->]]%Hn2.
  - by apply Hn1.
  - destruct (entries f1 !! l) as [n1|] eqn:H1; [|by right].
    pose proof (lookup_weaken _ _ _ _ H1 He1). congruence.
Qed.

Lemma adds_dirs_add_entry (f : filesystem) (l : loc) :
  lstat f l = None → adds_dirs f (add_entry f l Dir).
Proof.
  intros Hnone. assert (entries f !! l = None) as Hl.
  { unfold lstat in Hnone. by destruct l. }
  repeat split; cbn.
  - by apply insert_subseteq.
  - intros l' n. destruct (decide (l' = l)) as [->|Hne].
    + rewrite lookup_insert_eq. intros [= <-]. by right.
    + rewrite lookup_insert_ne by done. by left.
Qed.

Lemma os_mkdir_adds_dirs (f f' : filesystem) (p : Path) :
  os_mkdir f p = Ok f' → adds_dirs f f'.
Proof.
  unfold os_mkdir. destruct (Str.has_char nul _); [done|].
  destruct (last (parts p)) as [name|]; [|done].
  destruct (namei f _ _ _) as [d|]; [|done].
  destruct (lstat f d) as [[| |]|]; try done.
  case_decide; [done|].
  destruct (lstat f (d ++ [name])) eqn:Hnone; [done|].
  intros [= <-]. by apply adds_dirs_add_entry.
Qed.

Lemma Path_mkdir_unfold (n : nat) (p : Path) (f : filesystem) :
  Path_mkdir n p f =
    match os_mkdir f p with
    | Ok f' => Ok f'
    | Raise e =>
        if is_FileNotFoundError e then
          match n with
          | 0 => Raise e
          | S n' =>
              if decide (parent p = p) then Raise e
              else match Path_mkdir n' (parent p) f with
                   | Raise e' => Raise e'
                   | Ok f1 =>
                       match os_mkdir f1 p with
                       | Ok f2 => Ok f2
                       | Raise e2 =>
                           if is_FileNotFoundError e2 then Raise e2
                           else if is_OSError e2 && path_is_dir f1 p then Ok f1
                                else Raise e2
                       end
                   end
          end
        else if is_OSError e && path_is_dir f p then Ok f else Raise e
    end.
Proof. by destruct n. Qed.

Lemma Path_mkdir_adds_dirs (n : nat) (p : Path) (f f' : filesystem) :
  Path_mkdir n p f = Ok f' → adds_dirs f f'.
Proof.
  revert p f f'. induction n as [|n IH]; intros p f f'; rewrite Path_mkdir_unfold.
  - destruct (os_mkdir f p) as [f1|e] eqn:Hm.
    + intros [= <-]. by eapply os_mkdir_adds_dirs.
    + destruct (is_FileNotFoundError e); [done|].
      destruct (is_OSError e && path_is_dir f p); [|done].
      intros [= <-]. apply adds_dirs_refl.
  - destruct (os_mkdir f p) as [f1|e] eqn:Hm.
    + intros [= <-]. by eapply os_mkdir_adds_dirs.
    + destruct (is_FileNotFoundError e).
      * case_decide; [done|].
        destruct (Path_mkdir n (parent p) f) as [f1|] eqn:Hparent; [|done].
        apply IH in Hparent.
        destruct (os_mkdir f1 p) as [f2|e2] eqn:Hm2.
        -- intros [= <-]. eapply adds_dirs_trans; [done|]. by eapply os_mkdir_adds_dirs.
        -- destruct (is_FileNotFoundError e2); [done|].
           destruct (is_OSError e2 && path_is_dir f1 p); [|done]. by intros [= <-].
      * destruct (is_OSError e && path_is_dir f p); [|done].
        intros [= <-]. apply adds_dirs_refl.
Qed.

Lemma adds_dirs_text_ok (f f' : filesystem) :
  adds_dirs f f' → fs_text_ok f = true → fs_text_ok f' = true.
Proof.
  intros (Hc & _ & _ & Hn). unfold fs_text_ok.
  rewrite !andb_true_iff, !forallb_forall, Hc. intros [Hcwd Hlinks]. split; [done|].
  intros [l n] Hin. apply list_elem_of_In, elem_of_map_to_list in Hin. cbn.
  destruct (Hn l n Hin) as [Hold|[_ ->]]; [|done].
  apply elem_of_map_to_list, list_elem_of_In in Hold. by apply Hlinks in Hold.
Qed.

(** The inodes in use are those of the file entries. *)
Lemma elem_of_used_inodes (f : filesystem) (i : nat) :
  i ∈ used_inodes f ↔ ∃ l, entries f !! l = Some (File i).
Proof.
  unfold used_inodes.
  apply (map_fold_weak_ind
           (λ acc (m : gmap loc node), i ∈ acc ↔ ∃ l, m !! l = Some (File i))).
  - split; [by intros ?%elem_of_empty|]. by intros [l ?].
  - intros l n m acc Hnone IH. split.
    + intros Hin. destruct (decide (n = File i)) as [->|Hn].
      * exists l. by rewrite lookup_insert_eq.
      * assert (i ∈ acc) as Hacc.
        { destruct n as [|j|t]; try done.
          apply elem_of_union in Hin as [Hj%elem_of_singleton|]; [congruence | done]. }
        apply IH in Hacc as [l' Hl']. exists l'.
        rewrite lookup_insert_ne; [done|]. intros <-. congruence.
    + intros [l' Hl']. destruct (decide (l' = l)) as [->|Hne].
      * rewrite lookup_insert_eq in Hl'. injection Hl' as ->.
        by apply elem_of_union_l, elem_of_singleton.
      * rewrite lookup_insert_ne in Hl' by done.
        assert (i ∈ acc) by (apply IH; by exists l').
        destruct n; [done | by apply elem_of_union_r | done].
Qed.

(** What a write does: the file is where the walk ends, it holds the
    content, no entry is lost, no other inode is written, and the inode
    written is the one the path named or one that was not in use. *)
Lemma open_write_inv (f f' : filesystem) (o : ospath) (c : string) :
  open_write f o c = Ok f' →
  Str.has_char nul (op_text o) = false ∧
  cwd f' = cwd f ∧ entries f ⊆ entries f' ∧
  (∀ l n, entries f' !! l = Some n →
          entries f !! l = Some n ∨ ∃ i, n = File i) ∧
  ∃ l i, lookup_path f' o = Reached l ∧ lstat f' l = Some (File i) ∧
         data f' i = c ∧ (∀ j, j ≠ i → data f' j = data f j) ∧
         (lstat f l = Some (File i) ∨ i ∉ used_inodes f).
Proof.
  unfold open_write. destruct (Str.has_char nul (op_text o)) eqn:Hnul; [done|].
  destruct (lookup_path f o) as [l|] eqn:Hl; [|done].
  destruct (lstat f l) as [[|i|]|] eqn:Hfile; try done.
  - intros [= <-]. split; [done|]. split; [done|]. split; [done|].
    split; [by left|]. exists l, i. cbn.
    rewrite (lookup_path_ext _ f) by done. split; [done|].
    change (lstat (set_data f i c) l) with (lstat f l). split; [done|].
    rewrite decide_True by done. split; [done|]. split; [|by left].
    intros j Hj. by rewrite decide_False.
  - destruct (lstat f (removelast l)) as [[| |]|]; try done. intros [= <-].
    assert (l ≠ []) as Hne by (by intros ->).
    assert (entries f !! l = None) as Hnone by (unfold lstat in Hfile; by destruct l).
    split; [done|]. split; [done|]. split; [by apply insert_subseteq|]. split.
    { cbn. intros l' n. destruct (decide (l' = l)) as [->|Hl'].
      - rewrite lookup_insert_eq. intros [= <-]. right. by eexists.
      - rewrite lookup_insert_ne by done. by left. }
    exists l, (fresh (used_inodes f)).
    rewrite (lookup_path_ext _ (add_entry f l (File (fresh (used_inodes f))))) by done.
    unfold lookup_path in *. rewrite (namei_add_file _ _ _ _ _ _ l) by done.
    split; [done|].
    change (lstat (set_data ?g ?j ?e) l) with (lstat g l).
    rewrite lstat_add_entry, decide_True by done. split; [done|].
    cbn. rewrite decide_True by done. split; [done|]. split.
    + intros j Hj. by rewrite decide_False.
    + right. apply is_fresh.
Qed.

Lemma extends_fs_trans (f1 f2 f3 : filesystem) :
  extends_fs f1 f2 → extends_fs f2 f3 → extends_fs f1 f3.
Proof.
  intros (Hc1 & He1 & Hl1) (Hc2 & He2 & Hl2).
  split; [congruence|]. split; [by etrans | auto].
Qed.

Lemma adds_dirs_extends (f f' : filesystem) : adds_dirs f f' → extends_fs f f'.
Proof.
  intros (Hc & _ & He & Hn). split; [done|]. split; [done|].
  intros l t Hl. by destruct (Hn l _ Hl) as [?|[_ ?]].
Qed.

Lemma lstat_lookup (f : filesystem) (l : loc) : l ≠ [] → lstat f l = entries f !! l.
Proof. by destruct l. Qed.

Lemma extends_fs_lstat (f f' : filesystem) (l : loc) (n : node) :
  extends_fs f f' → lstat f l = Some n → lstat f' l = Some n.
Proof.
  intros (_ & He & _). destruct (decide (l = [])) as [->|Hne]; [done|].
  rewrite !lstat_lookup by done. intros H. by eapply lookup_weaken.
Qed.

Lemma extends_fs_link_target (f f' : filesystem) (l : loc) :
  extends_fs f f' → link_target f' l = link_target f l.
Proof.
  intros (_ & He & Hl). unfold link_target.
  destruct (decide (l = [])) as [->|Hne]; [done|].
  rewrite !lstat_lookup by done.
  destruct (entries f !! l) as [n|] eqn:H.
  - by rewrite (lookup_weaken _ _ _ _ H He).
  - destruct (entries f' !! l) as [[| |t]|] eqn:H'; try done.
    apply Hl in H'. congruence.
Qed.

(** A walk that arrives still arrives, at the same place, when entries are
    added that are no symbolic links. *)
Lemma namei_extends (f f' : filesystem) (fuel : nat) (d : loc) (rest : list string)
    (x : loc) :
  extends_fs f f' →
  namei f fuel d rest = Reached x → namei f' fuel d rest = Reached x.
Proof.
  intros Hext. revert d rest. induction fuel as [fuel IHf] using lt_wf_ind.
  intros d rest. revert d. induction rest as [|name rest IH]; intros d.
  - by rewrite !namei_nil.
  - rewrite !namei_cons, (extends_fs_link_target f f') by done.
    destruct (lstat f d) as [[| |]|] eqn:Hd; try done.
    rewrite (extends_fs_lstat f f' d Dir) by done.
    destruct (decide (name = "" ∨ name = ".")); [by apply IH|].
    destruct (decide (name = "..")); [by apply IH|].
    destruct (link_target f (d ++ [name])); [|by apply IH].
    destruct fuel; [done|]. apply IHf. lia.
Qed.

Lemma extends_fs_text_ok (f f' : filesystem) :
  extends_fs f f' → fs_text_ok f = true → fs_text_ok f' = true.
Proof.
  intros (Hc & _ & Hl). unfold fs_text_ok.
  rewrite !andb_true_iff, !forallb_forall, Hc. intros [Hcwd Hlinks]. split; [done|].
  intros [l n] Hin. apply list_elem_of_In, elem_of_map_to_list in Hin. cbn.
  destruct n as [| |t]; [done|done|].
  apply Hl, elem_of_map_to_list, list_elem_of_In in Hin. by apply Hlinks in Hin.
Qed.

Lemma open_write_extends (f f' : filesystem) (o : ospath) (c : string) :
  open_write f o c = Ok f' → extends_fs f f'.
Proof.
  intros (_ & Hc & He & Hn & _)%open_write_inv. split; [done|]. split; [done|].
  intros l t Hl. by destruct (Hn l _ Hl) as [?|[i ?]].
Qed.

(** How a [create_file] that returns has changed the file system. *)
Lemma create_file_written (st : state) (path content : string) (project_dir : Path) :
  let final := create_file path content project_dir st in
  fst final = Ok tt →
  extends_fs (fs st) (fs (snd final)) ∧
  ∃ l i, lookup_path (fs (snd final)) (of_Path (truediv project_dir path)) = Reached l ∧
         lstat (fs (snd final)) l = Some (File i) ∧
         data (fs (snd final)) i = content ∧
         (∀ j, j ≠ i → data (fs (snd final)) j = data (fs st) j) ∧
         (lstat (fs st) l = Some (File i) ∨ ∀ l0, lstat (fs st) l0 ≠ Some (File i)).
Proof.
  unfold create_file, bind, get_fs, lift, put_fs, emit, history_append. cbn.
  destruct (Path_mkdir _ _ _) as [f1|] eqn:Hmk; [|done].
  destruct (open_write f1 _ _) as [f2|] eqn:Hw; [|done].
  apply Path_mkdir_adds_dirs in Hmk.
  pose proof (open_write_extends _ _ _ _ Hw) as Hext2.
  apply open_write_inv in Hw as (_ & _ & _ & _ & l & i & Hl & Hfile & Hdata & Hframe & Hnew).
  destruct (normalize_path f2 _); [|done]. cbn. intros _.
  split; [eapply extends_fs_trans; [by apply adds_dirs_extends | done]|].
  exists l, i. split; [done|]. split; [done|]. split; [done|].
  destruct Hmk as (_ & Hd & He1 & Hn1). split.
  - intros j Hj. rewrite Hframe by done. by rewrite Hd.
  - assert (l ≠ []) as Hne.
    { intros ->. unfold lstat in Hfile. done. }
    destruct Hnew as [Hold|Hfresh].
    + left. unfold lstat in Hold |- *. destruct l as [|x l]; [done|].
      by destruct (Hn1 _ _ Hold) as [?|[_ ?]].
    + right. intros l0 Hl0. apply Hfresh, elem_of_used_inodes. exists l0.
      unfold lstat in Hl0. destruct l0 as [|x l0]; [done|]. by eapply lookup_weaken.
Qed.



(** X7.  [create_file] is all or nothing for the conversation: either it
    returns, having printed once and appended its two messages (the note
    that the file was written and the framed content), or it raises, having
    printed and appended nothing. *)
Theorem create_file_all_or_nothing (st : state) (path content : string)
    (project_dir : Path) :
  let file_path := truediv project_dir path in
  let final := create_file path content project_dir st in
  fs_text_ok (fs st) = true →
  match fst final with
  | Ok _ =>
      (∃ q, conversation_history (snd final) =
              conversation_history st
              ++ [ mkMsg assistant ("✓ Created/updated file at '"
                                    +:+ Path_str file_path +:+ "'");
                   mkMsg system (file_message q content) ]) ∧
      output (snd final) =
        output st ++ [ConsolePrint ("[green]✓[/green] Created/updated file at '[cyan]"
                                    +:+ Path_str file_path +:+ "[/cyan]'")]
  | Raise _ =>
      conversation_history (snd final) = conversation_history st ∧
      output (snd final) = output st
  end.
Proof.
  intros file_path final Hok. unfold final, create_file, bind, get_fs, lift, put_fs, emit,
    history_append. cbn. fold file_path.
  destruct (Path_mkdir _ _ _) as [f1|] eqn:Hmk; [|done].
  destruct (open_write f1 _ _) as [f2|] eqn:Hw; [|done].
  assert (fs_text_ok f2 = true) as Hok2.
  { eapply extends_fs_text_ok; [by eapply open_write_extends|].
    eapply extends_fs_text_ok; [|exact Hok].
    by eapply adds_dirs_extends, Path_mkdir_adds_dirs. }
  apply open_write_inv in Hw as (Hnul & _).
  destruct (normalize_path_total f2 (Path_str file_path) Hok2 Hnul) as [q ->]. cbn.
  split; [|done]. exists q. by rewrite <- app_assoc.
Qed.

Lemma create_file_all_or_nothing_witness :
  match fst (create_file "main.py/x" "" example_dir example_state) with
  | Ok _ =>
      (∃ q, conversation_history
              (snd (create_file "main.py/x" "" example_dir example_state)) =
              conversation_history example_state
              ++ [ mkMsg assistant ("✓ Created/updated file at '"
                                    +:+ Path_str (truediv example_dir "main.py/x") +:+ "'");
                   mkMsg system (file_message q "") ]) ∧
      output (snd (create_file "main.py/x" "" example_dir example_state)) =
        output example_state
        ++ [ConsolePrint ("[green]✓[/green] Created/updated file at '[cyan]"
                          +:+ Path_str (truediv example_dir "main.py/x") +:+ "[/cyan]'")]
  | Raise _ =>
      conversation_history (snd (create_file "main.py/x" "" example_dir example_state))
        = conversation_history example_state ∧
      output (snd (create_file "main.py/x" "" example_dir example_state))
        = output example_state
  end.
Proof.
  apply (create_file_all_or_nothing example_state "main.py/x" "" example_dir).
  vm_compute. reflexivity.
Defined.

(** ** Errors of [apply_diff_edit] *)



(** A directory is no file to patch: the error comes out. *)
Example apply_diff_edit_on_directory :
  fst (apply_diff_edit "../demo" "a" "b" example_dir example_state) =
    Raise (IsADirectoryError "[Errno 21] Is a directory: 'projects/demo/../demo'").
Proof. vm_compute. reflexivity. Qed.

(** ** [ensure_file_in_context], once and again *)

(** X9.  [ensure_file_in_context] is idempotent: after a call that returned
    [True], the same call returns [True] again and changes nothing, the
    history included. *)
Theorem ensure_file_in_context_idempotent (file_path : string) (st : state) :
  let once := ensure_file_in_context file_path st in
  fst once = Ok true →
  ensure_file_in_context file_path (snd once) = (Ok true, snd once).
Proof.
  cbn zeta.
  unfold ensure_file_in_context, try_except, bind, get_fs, lift, read_local_file,
    get_history, bind, emit, ret, history_append. cbn.
  destruct (normalize_path (fs st) file_path) as [q|e] eqn:Hq; cbn.
  2:{ by destruct (is_OSError e). }
  destruct (open_read (fs st) (of_str q)) as [c|e] eqn:Hr; cbn.
  2:{ by destruct (is_OSError e). }
  destruct (marker_in_history (file_marker q) (conversation_history st)) eqn:Hm; cbn;
    intros _; rewrite Hq; cbn; rewrite Hr; cbn.
  - by rewrite Hm.
  - rewrite existsb_app. cbn [existsb msg_content].
    rewrite marker_in_own_message, orb_true_l, orb_true_r. done.
Qed.

Lemma ensure_file_in_context_idempotent_witness :
  ensure_file_in_context "./app.py" (snd (ensure_file_in_context "./app.py" example_state))
  = (Ok true, snd (ensure_file_in_context "./app.py" example_state)).
Proof.
  apply (ensure_file_in_context_idempotent "./app.py" example_state).
  vm_compute. reflexivity.
Defined.

(** ** A turn writes no file *)

Lemma keeps_fs_lift {A} (r : result A) : keeps_fs (lift r).
Proof. done. Qed.

Lemma keeps_fs_ret {A} (a : A) : keeps_fs (ret a).
Proof. done. Qed.

Lemma keeps_fs_raise {A} (e : exn) : keeps_fs (@raise A e).
Proof. done. Qed.

Lemma keeps_fs_get_fs : keeps_fs get_fs.
Proof. done. Qed.

Lemma keeps_fs_get_history : keeps_fs get_history.
Proof. done. Qed.

Lemma keeps_fs_emit (e : event) : keeps_fs (emit e).
Proof. done. Qed.

Lemma keeps_fs_history_append (r : role) (c : string) : keeps_fs (history_append r c).
Proof. done. Qed.

Lemma keeps_fs_bind {A B} (m : M A) (k : A → M B) :
  keeps_fs m → (∀ a, keeps_fs (k a)) → keeps_fs (bind m k).
Proof.
  intros Hm Hk st. unfold bind. pose proof (Hm st) as H1.
  destruct (m st) as [[a|e] st1]; cbn in *; [|done]. by rewrite Hk.
Qed.

Lemma keeps_fs_try_except {A} (m : M A) (catch : exn → bool) (h : exn → M A) :
  keeps_fs m → (∀ e, keeps_fs (h e)) → keeps_fs (try_except m catch h).
Proof.
  intros Hm Hh st. unfold try_except. pose proof (Hm st) as H1.
  destruct (m st) as [[a|e] st1]; cbn in *; [done|].
  destruct (catch e); [|done]. by rewrite Hh.
Qed.

Lemma keeps_fs_for_each {A B} (xs : list A) (body : B → A → M B) (acc : B) :
  (∀ acc x, keeps_fs (body acc x)) → keeps_fs (for_each xs body acc).
Proof.
  intros Hbody. revert acc. induction xs as [|x xs IH]; intros acc; cbn [for_each].
  - apply keeps_fs_ret.
  - apply keeps_fs_bind; [apply Hbody | apply IH].
Qed.

Ltac keeps_fs_step :=
  lazymatch goal with
  | |- keeps_fs (lift _) => apply keeps_fs_lift
  | |- keeps_fs (ret _) => apply keeps_fs_ret
  | |- keeps_fs (raise _) => apply keeps_fs_raise
  | |- keeps_fs get_fs => apply keeps_fs_get_fs
  | |- keeps_fs get_history => apply keeps_fs_get_history
  | |- keeps_fs (emit _) => apply keeps_fs_emit
  | |- keeps_fs (history_append _ _) => apply keeps_fs_history_append
  | |- keeps_fs (bind _ _) => apply keeps_fs_bind; [|intros ?]
  | |- keeps_fs (try_except _ _ _) => apply keeps_fs_try_except; [|intros ?]
  | |- keeps_fs (for_each _ _ _) => apply keeps_fs_for_each; intros ? ?
  | |- keeps_fs (if ?b then _ else _) => destruct b
  | |- keeps_fs (match ?x with _ => _ end) => destruct x
  end.

Lemma keeps_fs_stream_openai_response (json_loads : string → option json)
    (ollama : list message → http_reply) (user_message : string) :
  keeps_fs (stream_openai_response json_loads ollama user_message).
Proof.
  unfold stream_openai_response, begin_turn, guess_files_in_message, guess_word,
    preload_files, preload_file, round_trip, receive_stream, receive_line,
    parse_response, decode_response, build_response, loads, filter_edits, filter_edit,
    ensure_file_in_context, read_local_file.
  cbv zeta. repeat keeps_fs_step.
Qed.




(** ** Declining the edits *)

(** Two continuations that agree on result, file system and history agree
    so after any first part. *)
Lemma bind_agree {A B} (m : M A) (k k' : A → M B) (st : state) :
  (∀ a st1, fst (k a st1) = fst (k' a st1) ∧
            fs (snd (k a st1)) = fs (snd (k' a st1)) ∧
            conversation_history (snd (k a st1)) = conversation_history (snd (k' a st1))) →
  fst (bind m k st) = fst (bind m k' st) ∧
  fs (snd (bind m k st)) = fs (snd (bind m k' st)) ∧
  conversation_history (snd (bind m k st)) = conversation_history (snd (bind m k' st)).
Proof. intros H. unfold bind. destruct (m st) as [[a|e] st1]; [apply H | done]. Qed.



(** ** The text accumulated from the stream *)

Section StreamProperties.

Variable json_loads : string → option json.

(** What a line adds does not depend on what was accumulated before. *)
Lemma receive_line_adds (full_content line : string) (st : state) :
  fst (receive_line json_loads full_content line st) =
    match fst (receive_line json_loads "" line st) with
    | Ok added => Ok (full_content +:+ added)
    | Raise e => Raise e
    end.
Proof.
  unfold receive_line. case_decide; [cbn; by rewrite str_app_nil_r|].
  unfold try_except, bind at 1 5, loads.
  destruct (json_loads line) as [chunk|]; cbn -[String.app].
  2:{ by rewrite str_app_nil_r. }
  unfold bind at 1 7, lift. cbn -[String.app].
  destruct (py_in "message" chunk) as [[|]|e]; cbn -[String.app];
    [| by rewrite str_app_nil_r | by destruct (is_JSONDecodeError e); cbn;
                                      rewrite ?str_app_nil_r].
  destruct (py_getitem chunk "message") as [m|e]; cbn -[String.app];
    [|by destruct (is_JSONDecodeError e); cbn; rewrite ?str_app_nil_r].
  destruct (py_in "content" m) as [[|]|e]; cbn -[String.app];
    [| by rewrite str_app_nil_r | by destruct (is_JSONDecodeError e); cbn;
                                      rewrite ?str_app_nil_r].
  destruct (py_getitem m "content") as [c|e]; cbn -[String.app];
    [|by destruct (is_JSONDecodeError e); cbn; rewrite ?str_app_nil_r].
  destruct c; cbn -[String.app]; try done.
Qed.

Lemma for_each_app {A B} (xs ys : list A) (body : B → A → M B) (acc : B) (st : state) :
  for_each (xs ++ ys) body acc st =
    bind (for_each xs body acc) (for_each ys body) st.
Proof.
  revert acc st. induction xs as [|x xs IH]; intros acc st; cbn [for_each app].
  - done.
  - unfold bind at 1 2 3. destruct (body acc x st) as [[acc'|e] st']; [|done].
    rewrite IH. done.
Qed.

Lemma receive_lines_add (lines : list string) (full_content : string) (st st' : state) :
  fst (for_each lines (receive_line json_loads) full_content st) =
    match fst (for_each lines (receive_line json_loads) "" st') with
    | Ok added => Ok (full_content +:+ added)
    | Raise e => Raise e
    end.
Proof.
  revert full_content st st'. induction lines as [|line lines IH];
    intros full_content st st'; cbn [for_each].
  - cbn. by rewrite str_app_nil_r.
  - unfold bind.
    pose proof (receive_line_adds full_content line st) as Hline.
    rewrite (writes_only_fst _ st st' (writes_only_receive_line json_loads "" line))
      in Hline.
    destruct (receive_line json_loads full_content line st) as [[acc1|e1] st1];
      destruct (receive_line json_loads "" line st') as [[acc2|e2] st2];
      cbn [fst] in Hline; simplify_eq; [|done].
    rewrite (IH (full_content +:+ acc2) st1 st2), (IH acc2 st2 st2).
    destruct (fst (for_each lines (receive_line json_loads) "" st2)); [|done].
    by rewrite str_app_assoc.
Qed.

End StreamProperties.

(** X13.  The text accumulated from a stream is the text of its first part
    followed by the text of the rest, wherever the stream is cut; an
    exception in either part is the exception of the whole, the first part's
    first. *)
Theorem receive_stream_app (json_loads : string → option json)
    (lines1 lines2 : list string) (st : state) :
  fst (receive_stream json_loads (lines1 ++ lines2) st) =
    match fst (receive_stream json_loads lines1 st) with
    | Ok text1 =>
        match fst (receive_stream json_loads lines2 st) with
        | Ok text2 => Ok (text1 +:+ text2)
        | Raise e => Raise e
        end
    | Raise e => Raise e
    end.
Proof.
  unfold receive_stream. rewrite for_each_app. unfold bind.
  destruct (for_each lines1 _ "" st) as [[text1|e] st1]; [|done]. cbn [fst].
  apply receive_lines_add.
Qed.



Example receive_stream_example :
  fst (receive_stream example_loads ["<chunk>"; ""; "data: [DONE]"; "<garbled chunk>"]
         example_state) = Ok "<response>Sure! Here is".
Proof. vm_compute. reflexivity. Qed.

(** ** What a turn reads and what it asks *)

(** The loop that preloads: the map it builds. *)
Lemma preload_file_lookup (valid_files : gmap string string) (path : string) (st : state) :
  Str.has_char nul path = false →
  ∃ st', preload_file valid_files path st =
           (Ok (match open_read (fs st) (of_str path) with
                | Ok content => <[ path := content ]> valid_files
                | Raise _ => valid_files
                end), st') ∧
         fs st' = fs st.
Proof.
  intros Hp.
  unfold preload_file, try_except, bind, get_fs, lift, read_local_file, get_history, bind,
    emit, ret, history_append. cbn.
  destruct (open_read (fs st) (of_str path)) as [c|e] eqn:Hr; cbn.
  - destruct (marker_in_history _ _); cbn; by eexists.
  - rewrite (open_read_raises_OSError _ (of_str path) _ Hp Hr). cbn. by eexists.
Qed.

Lemma preload_files_lookup (potential_paths : list string)
    (valid_files : gmap string string) (st : state) :
  Forall (λ p, Str.has_char nul p = false) potential_paths →
  ∃ valid_files' st',
    for_each potential_paths preload_file valid_files st = (Ok valid_files', st') ∧
    fs st' = fs st ∧
    ∀ q, valid_files' !! q =
           match (if bool_decide (q ∈ potential_paths) then read_now (fs st) q else None) with
           | Some content => Some content
           | None => valid_files !! q
           end.
Proof.
  intros Hpaths. revert valid_files st.
  induction Hpaths as [|path paths Hp _ IH]; intros acc st; cbn [for_each].
  - exists acc, st. split; [done|]. split; [done|]. intros q.
    by rewrite bool_decide_eq_false_2 by (by intros ?%elem_of_nil).
  - unfold bind at 1.
    destruct (preload_file_lookup acc path st Hp) as (st1 & -> & Hfs1).
    destruct (IH (match open_read (fs st) (of_str path) with
                  | Ok content => <[ path := content ]> acc
                  | Raise _ => acc
                  end) st1) as (vf & st' & -> & Hfs & Hvf).
    exists vf, st'. split; [done|]. split; [congruence|].
    intros q. rewrite Hvf, Hfs1. clear Hvf.
    destruct (decide (q = path)) as [->|Hne].
    + rewrite (bool_decide_eq_true_2 (path ∈ path :: paths)) by (by left).
      unfold read_now. destruct (open_read (fs st) (of_str path)) as [c|e].
      * rewrite lookup_insert_eq. by destruct (bool_decide (path ∈ paths)).
      * by destruct (bool_decide (path ∈ paths)).
    + assert (bool_decide (q ∈ path :: paths) = bool_decide (q ∈ paths)) as ->.
      { apply bool_decide_ext. rewrite elem_of_cons. split; [by intros [?|?] | by right]. }
      destruct (if bool_decide (q ∈ paths) then read_now (fs st) q else None); [done|].
      destruct (open_read (fs st) (of_str path)); [|done]. by rewrite lookup_insert_ne.
Qed.


Lemma bind_Ok {A B} (m : M A) (k : A → M B) (st st1 : state) (a : A) :
  m st = (Ok a, st1) → bind m k st = k a st1.
Proof. intros H. unfold bind. by rewrite H. Qed.

Lemma round_trip_request (json_loads : string → option json)
    (ollama ollama' : list message → http_reply) (valid_files : gmap string string)
    (st : state) :
  ollama' (conversation_history st) = ollama (conversation_history st) →
  round_trip json_loads ollama' valid_files st = round_trip json_loads ollama valid_files st.
Proof.
  intros Hsame. unfold round_trip.
  rewrite !(bind_Ok get_history _ st st (conversation_history st)) by done.
  by rewrite Hsame.
Qed.

(** X16.  The backend is asked about one list of messages: the history as
    it was, then the contents of the files preloaded for this turn, then the
    user's message, which comes last.  A backend that answers that list the
    same way gives the same turn. *)
Theorem stream_openai_response_request (json_loads : string → option json)
    (ollama : list message → http_reply) (user_message : string) (st : state) :
  ∃ added,
    let messages := conversation_history st ++ (file_entry <$> added)
                                            ++ [mkMsg user user_message] in
    ∀ ollama', ollama' messages = ollama messages →
      stream_openai_response json_loads ollama' user_message st =
      stream_openai_response json_loads ollama user_message st.
Proof.
  destruct (begin_turn_returns user_message st) as (vf & st1 & added & Hbegin & _ & Hh).
  exists added. intros messages ollama' Hsame.
  unfold stream_openai_response. rewrite !(bind_Ok _ _ _ _ _ Hbegin).
  unfold try_except. rewrite (round_trip_request json_loads ollama ollama'); [done|].
  rewrite Hh, <- app_assoc. exact Hsame.
Qed.

(** ** Naming the project *)

Section NamingProperties.

Variable json_loads : string → option json.
Variable naming_backend : string → http_body.

Lemma writes_only_get_project_name (user_message : string) :
  writes_only (get_project_name json_loads naming_backend user_message).
Proof.
  unfold get_project_name.
  apply writes_only_try_except.
  2:{ intros e. apply writes_only_bind; [apply writes_only_emit|].
      intros; apply writes_only_ret. }
  destruct (naming_backend user_message) as [e|text]; [apply writes_only_raise|].
  apply writes_only_try_except.
  2:{ intros e. apply writes_only_bind; [apply writes_only_emit|].
      intros; apply writes_only_ret. }
  apply writes_only_bind; [apply writes_only_loads|]. intros result.
  apply writes_only_bind; [apply writes_only_lift|]. intros has_message.
  apply writes_only_bind.
  { destruct has_message; [|apply writes_only_ret].
    apply writes_only_bind; [apply writes_only_lift|]. intros; apply writes_only_lift. }
  intros [|]; [|apply writes_only_ret].
  apply writes_only_bind; [apply writes_only_lift|]. intros m.
  apply writes_only_bind; [apply writes_only_lift|]. intros content.
  apply writes_only_bind; [apply writes_only_lift|]. intros; apply writes_only_ret.
Qed.

(** A [try] whose handler takes every exception and returns, returns. *)
Lemma try_except_all {A} (m : M A) (h : exn → M A) (st : state) :
  (∀ e st', ∃ a, fst (h e st') = Ok a) →
  ∃ a, fst (try_except m (λ _, true) h st) = Ok a.
Proof.
  intros Hh. unfold try_except. destruct (m st) as [[a|e] st1]; [by exists a | apply Hh].
Qed.

Lemma get_project_name_returns (user_message : string) (st : state) :
  ∃ name, fst (get_project_name json_loads naming_backend user_message st) = Ok name.
Proof. unfold get_project_name. apply try_except_all. intros e st'. by eexists. Qed.

End NamingProperties.




Lemma get_project_name_without_content_run (json_loads : string → option json)
    (naming_backend : string → http_body) (user_message : string) (st : state)
    (text : string) (items : list (string * json)) :
  naming_backend user_message = Body text →
  json_loads text = Some (JDict items) →
  dict_get "message" items = None →
  get_project_name json_loads naming_backend user_message st = (Ok None, st).
Proof.
  intros Hreply Hitems Hmessage.
  unfold get_project_name, try_except. rewrite Hreply.
  unfold bind, lift, ret, loads. rewrite Hitems. cbn. by rewrite !Hmessage.
Qed.

(** X19.  A reply that decodes to a dict without [message], or whose
    message is a dict without [content], makes [get_project_name] run off
    its end: it returns [None], not a name and not ["unnamed-project"], and
    logs nothing. *)
Theorem get_project_name_without_content (json_loads : string → option json)
    (naming_backend : string → http_body) (user_message : string) (st : state)
    (text : string) (items : list (string * json)) :
  naming_backend user_message = Body text →
  json_loads text = Some (JDict items) →
  dict_get "message" items = None ∨
  (∃ message, dict_get "message" items = Some (JDict message) ∧
              dict_get "content" message = None) →
  get_project_name json_loads naming_backend user_message st = (Ok None, st).
Proof.
  intros Hreply Hitems [Hmessage|(message & Hmessage & Hcontent)].
  - by eapply get_project_name_without_content_run.
  - unfold get_project_name, try_except. rewrite Hreply.
    unfold bind, lift, ret, loads. rewrite Hitems. cbn. rewrite !Hmessage. cbn.
    by rewrite Hcontent.
Qed.

Lemma get_project_name_without_content_witness :
  get_project_name example_naming_loads example_naming_backend_error "a to-do list app"
    example_state = (Ok None, example_state).
Proof.
  apply (get_project_name_without_content example_naming_loads
           example_naming_backend_error "a to-do list app" example_state "<error reply>"
           [ ("error", JStr "model not found") ]);
    [reflexivity | reflexivity | by left].
Defined.

(** ** Starting a session *)

(** One more name at the end of a walk that arrives. *)
Lemma namei_snoc (f : filesystem) (fuel : nat) (d0 : loc) (A : list string) (d : loc)
    (name : string) :
  namei f fuel d0 A = Reached d →
  lstat f d = Some Dir →
  ¬ (name = "" ∨ name = ".") → name ≠ ".." →
  link_target f (d ++ [name]) = None →
  namei f fuel d0 (A ++ [name]) = Reached (d ++ [name]).
Proof.
  intros HA Hd Hskip Hup Hlink. revert d0 A HA.
  induction fuel as [fuel IHf] using lt_wf_ind.
  intros d0 A. revert d0. induction A as [|a A IH]; intros d0.
  - rewrite namei_nil. intros [= ->]. cbn [app]. rewrite namei_cons, Hd.
    rewrite decide_False by done. rewrite decide_False by done.
    by rewrite Hlink, namei_nil.
  - rewrite <- app_comm_cons, !namei_cons.
    destruct (lstat f d0) as [[| |]|]; try done.
    destruct (decide (a = "" ∨ a = ".")); [by apply IH|].
    destruct (decide (a = "..")); [by apply IH|].
    destruct (link_target f (d0 ++ [a])) as [target|]; [|by apply IH].
    destruct fuel as [|fuel']; [done|].
    rewrite app_assoc. apply IHf. lia.
Qed.

Lemma path_exists_extends (f f' : filesystem) (p : Path) :
  extends_fs f f' → path_exists f p = true → path_exists f' p = true.
Proof.
  intros Hext. unfold path_exists. destruct (Str.has_char nul _); [done|].
  destruct (lookup_path f (of_Path p)) as [l|] eqn:Hl; [|done].
  intros [n Hn]%bool_decide_eq_true.
  assert (lookup_path f' (of_Path p) = Reached l) as ->.
  { unfold lookup_path, walk_start in *. destruct Hext as (Hc & ?). rewrite Hc.
    eapply namei_extends; [|exact Hl]. by split. }
  apply bool_decide_eq_true. exists n. by eapply extends_fs_lstat.
Qed.

Lemma path_is_dir_extends (f f' : filesystem) (p : Path) :
  extends_fs f f' → path_is_dir f p = true → path_is_dir f' p = true.
Proof.
  intros Hext. unfold path_is_dir. destruct (Str.has_char nul _); [done|].
  destruct (lookup_path f (of_Path p)) as [l|] eqn:Hl; [|done].
  intros Hn%bool_decide_eq_true.
  assert (lookup_path f' (of_Path p) = Reached l) as ->.
  { unfold lookup_path, walk_start in *. destruct Hext as (Hc & ?). rewrite Hc.
    eapply namei_extends; [|exact Hl]. by split. }
  apply bool_decide_eq_true. by eapply extends_fs_lstat.
Qed.

Lemma path_is_dir_exists (f : filesystem) (p : Path) :
  path_is_dir f p = true → path_exists f p = true.
Proof.
  unfold path_is_dir, path_exists. destruct (Str.has_char nul _); [done|].
  destruct (lookup_path f (of_Path p)) as [l|]; [|done].
  intros Hn%bool_decide_eq_true. apply bool_decide_eq_true. by rewrite Hn.
Qed.

(** What [mkdir(exist_ok=True)] leaves behind when it returns: the path is
    a directory, and directories are all that was added. *)
Lemma Path_mkdir_exist_ok_is_dir (p : Path) (f f' : filesystem) :
  Path_mkdir_exist_ok p f = Ok f' →
  adds_dirs f f' ∧ path_is_dir f' p = true.
Proof.
  unfold Path_mkdir_exist_ok. destruct (os_mkdir f p) as [f1|e] eqn:Hm.
  - intros [= <-]. split; [by eapply os_mkdir_adds_dirs|].
    pose proof (os_mkdir_adds_dirs _ _ _ Hm) as Hadds.
    unfold os_mkdir in Hm. unfold path_is_dir.
    destruct (Str.has_char nul (Path_str p)); [done|].
    destruct (last (parts p)) as [name|] eqn:Hlast; [|done].
    destruct (namei f _ _ _) as [d|] eqn:Hd; [|done].
    destruct (lstat f d) as [[| |]|] eqn:Hdir; try done.
    case_decide as Hname; [done|].
    destruct (lstat f (d ++ [name])) eqn:Hnone; [done|].
    injection Hm as <-.
    assert (d ++ [name] ≠ []) as Hne by (by destruct d).
    apply last_Some in Hlast as [init Hparts].
    assert (removelast (parts p) = init) as Hinit.
    { by rewrite Hparts, removelast_snoc. }
    rewrite Hinit in Hd.
    unfold lookup_path, of_Path. cbn [op_abs op_names].
    change (walk_start (add_entry f (d ++ [name]) Dir) (is_absolute p))
      with (walk_start f (is_absolute p)).
    rewrite Hparts, app_assoc.
    rewrite (namei_snoc _ _ _ _ d).
    + apply bool_decide_eq_true. by rewrite lstat_add_entry, decide_True.
    + eapply namei_extends; [by apply adds_dirs_extends | done].
    + rewrite lstat_add_entry by done. rewrite decide_False; [done|].
      intros Heq. apply (f_equal List.length) in Heq. rewrite length_app in Heq.
      cbn in Heq. lia.
    + intros [?|?]; apply Hname; auto.
    + intros ?. apply Hname. auto.
    + unfold link_target. by rewrite lstat_add_entry, decide_True.
  - destruct (is_FileNotFoundError e); [done|].
    destruct (is_OSError e); [|done]. cbn.
    destruct (path_is_dir f p) eqn:Hdir; [|done].
    intros [= <-]. split; [apply adds_dirs_refl | done].
Qed.

(** The name [get_unique_project_dir] returns is free. *)
Lemma get_unique_project_dir_free (f : filesystem) (base_name : string)
    (projects_dir : Path) :
  ∃ project_name,
    get_unique_project_dir f base_name projects_dir = Some project_name ∧
    path_exists f (truediv projects_dir project_name) = false.
Proof.
  unfold get_unique_project_dir.
  destruct (path_exists f (truediv projects_dir base_name)) eqn:Hbase; cbn.
  - destruct (probe_total f projects_dir base_name) as (k & Hk).
    rewrite Hk. cbn. eexists. split; [done|].
    by apply probe_Some in Hk as (_ & Hfree & _).
  - by exists base_name.
Qed.

Lemma start_session_run (json_loads : string → option json)
    (naming_backend : string → http_body) (typed : string) (st : state) :
  match start_session json_loads naming_backend typed st with
  | (Ok result, st') =>
      ∃ project_dir,
        result = Some project_dir ∧
        path_exists (fs st) project_dir = false ∧
        path_is_dir (fs st') project_dir = true ∧
        path_is_dir (fs st') (Path_of "projects") = true ∧
        adds_dirs (fs st) (fs st') ∧
        conversation_history st' = conversation_history st
  | (Raise _, _) => True
  end.
Proof.
  unfold start_session.
  set (name_it := (if decide (Str.strip_ws typed = "") then _ else _) : M (option string)).
  assert (writes_only name_it) as Hname.
  { unfold name_it. case_decide.
    - apply writes_only_bind; [apply writes_only_emit | intros; apply writes_only_ret].
    - apply writes_only_get_project_name. }
  rewrite (bind_Ok (emit _) _ st _ tt eq_refl).
  rewrite (bind_Ok (emit _) _ _ _ tt eq_refl).
  unfold bind at 1.
  match goal with |- context [name_it ?s] =>
    pose proof (writes_only_only_output name_it s Hname) as [Hfs Hh];
    destruct (name_it s) as [[base|e] st1]
  end; [|done].
  cbn [fst snd fs conversation_history] in Hfs, Hh.
  unfold bind at 1, get_fs. unfold bind at 1, lift.
  destruct (Path_mkdir_exist_ok (Path_of "projects") (fs st1)) as [f1|e] eqn:Hmk1; [|done].
  apply Path_mkdir_exist_ok_is_dir in Hmk1 as [Hadds1 Hdir1].
  unfold bind at 1, put_fs. cbn [fst snd].
  destruct base as [base_name|]; [|done].
  destruct (get_unique_project_dir_free f1 base_name (Path_of "projects"))
    as (project_name & -> & Hfree).
  unfold bind at 1.
  destruct (Path_mkdir_exist_ok _ f1) as [f2|e] eqn:Hmk2; [|done].
  apply Path_mkdir_exist_ok_is_dir in Hmk2 as [Hadds2 Hdir2].
  unfold bind, put_fs, emit, ret. cbn [fst snd fs conversation_history].
  exists (truediv (Path_of "projects") project_name). split; [done|].
  rewrite Hfs in Hadds1. split.
  - destruct (path_exists (fs st) _) eqn:Hex; [|done].
    apply (path_exists_extends _ f1) in Hex; [congruence | by apply adds_dirs_extends].
  - split; [done|]. split.
    + by apply (path_is_dir_extends f1); [apply adds_dirs_extends|].
    + split; [by eapply adds_dirs_trans | done].
Qed.

(** X20.  When [main] has set up a session, the project directory is a
    directory that did not exist before: no session works in the directory
    of an earlier one.  [projects] is a directory, too; directories are all
    that was added to the file system, and the history is untouched. *)
Theorem start_session_makes_a_new_directory (json_loads : string → option json)
    (naming_backend : string → http_body) (typed : string) (st : state)
    (result : option Path) :
  let final := start_session json_loads naming_backend typed st in
  fst final = Ok result →
  ∃ project_dir,
    result = Some project_dir ∧
    path_exists (fs st) project_dir = false ∧
    path_is_dir (fs (snd final)) project_dir = true ∧
    path_is_dir (fs (snd final)) (Path_of "projects") = true ∧
    adds_dirs (fs st) (fs (snd final)) ∧
    conversation_history (snd final) = conversation_history st.
Proof.
  intros final. pose proof (start_session_run json_loads naming_backend typed st) as H.
  fold final in H. destruct final as [[r|e] st']; [|done].
  cbn [fst snd]. by intros [= <-].
Qed.

Lemma start_session_makes_a_new_directory_witness :
  ∃ project_dir,
    Some (truediv (Path_of "projects") "todo-app") = Some project_dir ∧
    path_exists (fs example_state) project_dir = false ∧
    path_is_dir (fs (snd (start_session example_naming_loads example_naming_backend
                             "a to-do list app" example_state))) project_dir = true ∧
    path_is_dir (fs (snd (start_session example_naming_loads example_naming_backend
                             "a to-do list app" example_state))) (Path_of "projects")
      = true ∧
    adds_dirs (fs example_state)
      (fs (snd (start_session example_naming_loads example_naming_backend
                  "a to-do list app" example_state))) ∧
    conversation_history (snd (start_session example_naming_loads example_naming_backend
                                 "a to-do list app" example_state))
      = conversation_history example_state.
Proof.
  apply (start_session_makes_a_new_directory example_naming_loads example_naming_backend
           "a to-do list app" example_state).
  vm_compute. reflexivity.
Defined.

(** On the example the suggested name is free; in a projects directory that
    has a [foo] and a [foo-1] a description the backend names [foo] gets
    [foo-2]. *)
Example start_session_example :
  fst (start_session example_naming_loads example_naming_backend "a to-do list app"
         example_state) = Ok (Some (truediv (Path_of "projects") "todo-app")).
Proof. vm_compute. reflexivity. Qed.

(** X21.  A naming reply without content stops [main] before any project
    directory is made: [get_project_name] returns [None], and joining
    [None] to the projects directory raises [TypeError], unless making the
    [projects] directory has failed before. *)
Theorem start_session_without_name (json_loads : string → option json)
    (naming_backend : string → http_body) (typed : string) (st : state)
    (text : string) (items : list (string * json)) :
  Str.strip_ws typed ≠ "" →
  naming_backend (Str.strip_ws typed) = Body text →
  json_loads text = Some (JDict items) →
  dict_get "message" items = None →
  fst (start_session json_loads naming_backend typed st) =
    match Path_mkdir_exist_ok (Path_of "projects") (fs st) with
    | Ok _ => Raise (TypeError
                       "unsupported operand type(s) for /: 'PosixPath' and 'NoneType'")
    | Raise e => Raise e
    end.
Proof.
  intros Htyped Hreply Hitems Hmessage. unfold start_session.
  rewrite decide_False by done.
  rewrite (bind_Ok (emit _) _ st _ tt eq_refl).
  rewrite (bind_Ok (emit _) _ _ _ tt eq_refl).
  erewrite bind_Ok;
    [|by apply (get_project_name_without_content_run json_loads naming_backend
                  _ _ text items)].
  unfold bind at 1, get_fs. unfold bind at 1, lift. cbn [fs].
  by destruct (Path_mkdir_exist_ok (Path_of "projects") (fs st)).
Qed.

Lemma start_session_without_name_witness :
  fst (start_session example_naming_loads example_naming_backend_error "a to-do list app"
         example_state) =
    match Path_mkdir_exist_ok (Path_of "projects") (fs example_state) with
    | Ok _ => Raise (TypeError
                       "unsupported operand type(s) for /: 'PosixPath' and 'NoneType'")
    | Raise e => Raise e
    end.
Proof.
  apply (start_session_without_name example_naming_loads example_naming_backend_error
           "a to-do list app" example_state "<error reply>"
           [ ("error", JStr "model not found") ]);
    [vm_compute; discriminate | reflexivity | reflexivity | reflexivity].
Defined.

(** ** Sessions *)

Lemma continues_refl (st : state) : continues st st.
Proof. by split. Qed.

Lemma continues_trans (st1 st2 st3 : state) :
  continues st1 st2 → continues st2 st3 → continues st1 st3.
Proof. intros [H1 H2] [H3 H4]. split; by etrans. Qed.

Lemma appends_lift {A} (r : result A) : appends (lift r).
Proof. intros st. apply continues_refl. Qed.

Lemma appends_ret {A} (a : A) : appends (ret a).
Proof. intros st. apply continues_refl. Qed.

Lemma appends_raise {A} (e : exn) : appends (@raise A e).
Proof. intros st. apply continues_refl. Qed.

Lemma appends_get_fs : appends get_fs.
Proof. intros st. apply continues_refl. Qed.

Lemma appends_put_fs (f : filesystem) : appends (put_fs f).
Proof. by intros st. Qed.

Lemma appends_get_history : appends get_history.
Proof. intros st. apply continues_refl. Qed.

Lemma appends_emit (e : event) : appends (emit e).
Proof. intros st. split; [done|]. by apply prefix_app_r. Qed.

Lemma appends_history_append (r : role) (c : string) : appends (history_append r c).
Proof. intros st. split; [|done]. by apply prefix_app_r. Qed.

Lemma appends_bind {A B} (m : M A) (k : A → M B) :
  appends m → (∀ a, appends (k a)) → appends (bind m k).
Proof.
  intros Hm Hk st. unfold bind. pose proof (Hm st) as H1.
  destruct (m st) as [[a|e] st1]; cbn [snd] in *; [|done].
  eapply continues_trans; [exact H1 | apply Hk].
Qed.

Lemma appends_try_except {A} (m : M A) (catch : exn → bool) (h : exn → M A) :
  appends m → (∀ e, appends (h e)) → appends (try_except m catch h).
Proof.
  intros Hm Hh st. unfold try_except. pose proof (Hm st) as H1.
  destruct (m st) as [[a|e] st1]; cbn [snd] in *; [done|].
  destruct (catch e); [|done].
  eapply continues_trans; [exact H1 | apply Hh].
Qed.

Lemma appends_for_each {A B} (xs : list A) (body : B → A → M B) (acc : B) :
  (∀ acc x, appends (body acc x)) → appends (for_each xs body acc).
Proof.
  intros Hbody. revert acc. induction xs as [|x xs IH]; intros acc; cbn [for_each].
  - apply appends_ret.
  - apply appends_bind; [apply Hbody | apply IH].
Qed.

Ltac appends_step :=
  lazymatch goal with
  | |- appends (lift _) => apply appends_lift
  | |- appends (ret _) => apply appends_ret
  | |- appends (raise _) => apply appends_raise
  | |- appends get_fs => apply appends_get_fs
  | |- appends (put_fs _) => apply appends_put_fs
  | |- appends get_history => apply appends_get_history
  | |- appends (emit _) => apply appends_emit
  | |- appends (history_append _ _) => apply appends_history_append
  | |- appends (bind _ _) => apply appends_bind; [|intros ?]
  | |- appends (try_except _ _ _) => apply appends_try_except; [|intros ?]
  | |- appends (for_each _ _ _) => apply appends_for_each; intros ? ?
  | |- appends (if ?b then _ else _) => destruct b
  | |- appends (match ?x with _ => _ end) => destruct x
  end.

Lemma appends_create_file (path content : string) (project_dir : Path) :
  appends (create_file path content project_dir).
Proof. unfold create_file. cbv zeta. repeat appends_step. Qed.

Lemma appends_apply_diff_edit (path original new : string) (project_dir : Path) :
  appends (apply_diff_edit path original new project_dir).
Proof.
  unfold apply_diff_edit, read_local_file. cbv zeta.
  repeat first [apply appends_create_file | appends_step].
Qed.

Lemma appends_try_handle_add_command (user_input : string) :
  appends (try_handle_add_command user_input).
Proof. unfold try_handle_add_command, read_local_file. cbv zeta. repeat appends_step. Qed.

Lemma appends_stream_openai_response (json_loads : string → option json)
    (ollama : list message → http_reply) (user_message : string) :
  appends (stream_openai_response json_loads ollama user_message).
Proof.
  unfold stream_openai_response, begin_turn, guess_files_in_message, guess_word,
    preload_files, preload_file, round_trip, receive_stream, receive_line,
    parse_response, decode_response, build_response, loads, filter_edits, filter_edit,
    ensure_file_in_context, read_local_file.
  cbv zeta. repeat appends_step.
Qed.

Lemma appends_show_diff_table (edits : list FileToEdit) : appends (show_diff_table edits).
Proof. unfold show_diff_table. repeat appends_step. Qed.

Lemma appends_apply_response (response_data : AssistantResponse) (answer : string)
    (project_dir : Path) :
  appends (apply_response response_data answer project_dir).
Proof.
  unfold apply_response.
  repeat first [apply appends_create_file | apply appends_apply_diff_edit
               | apply appends_show_diff_table | appends_step].
Qed.

Lemma appends_get_project_name (json_loads : string → option json)
    (naming_backend : string → http_body) (user_message : string) :
  appends (get_project_name json_loads naming_backend user_message).
Proof. unfold get_project_name, loads. repeat appends_step. Qed.

Lemma appends_start_session (json_loads : string → option json)
    (naming_backend : string → http_body) (typed : string) :
  appends (start_session json_loads naming_backend typed).
Proof.
  unfold start_session. cbv zeta.
  repeat first [apply appends_get_project_name | appends_step].
Qed.

Section SessionProperties.

Variable json_loads : string → option json.
Variable naming_backend : string → http_body.
Variable ollama : list message → http_reply.

Lemma turn_continues (user_message : string) (project_dir : Path) (typed : option string)
    (st : state) :
  continues st (snd (turn json_loads ollama user_message project_dir typed st)).
Proof.
  unfold turn.
  pose proof (appends_stream_openai_response json_loads ollama user_message st) as H1.
  destruct (stream_openai_response _ _ _ st) as [[response_data|e] st1]; [|done].
  cbn [snd] in H1. eapply continues_trans; [exact H1|].
  assert (appends (for_each (default [] (files_to_create response_data))
                     (λ _ file_info,
                        create_file (create_path file_info) (create_content file_info)
                                    project_dir) tt)) as Hcreate.
  { repeat first [apply appends_create_file | appends_step]. }
  pose proof (appends_apply_response response_data (default "" typed) project_dir st1) as H2.
  destruct (default [] (files_to_edit response_data)) as [|edit edits].
  - by destruct (apply_response _ _ _ st1) as [[[]|e] st2].
  - destruct typed as [answer|].
    + by destruct (apply_response _ _ _ st1) as [[[]|e] st2].
    + match goal with |- context [bind ?m ?k st1] =>
        assert (appends (bind m k)) as H3
          by (apply appends_bind; [exact Hcreate | intros; apply appends_show_diff_table]);
        specialize (H3 st1); by destruct (bind m k st1) as [[[]|e] st2]
      end.
Qed.

Lemma main_loop_continues (project_dir : Path) (inputs : list string) (st : state) :
  continues st (snd (main_loop json_loads ollama project_dir inputs st)).
Proof.
  remember (List.length inputs) as n eqn:Hn. revert inputs st Hn.
  induction n as [n IH] using lt_wf_ind. intros inputs st ->.
  destruct inputs as [|typed rest]; cbn [main_loop].
  - apply (appends_bind (emit _) (λ _, emit _)); intros; apply appends_emit.
  - cbv zeta. case_decide.
    { eapply IH; [|done]. cbn. lia. }
    case_bool_decide.
    { apply (appends_bind (emit _) (λ _, emit _)); intros; apply appends_emit. }
    pose proof (appends_try_handle_add_command (Str.strip_ws typed) st) as H1.
    destruct (try_handle_add_command _ st) as [[[]|e] st1]; cbn [snd] in H1; [| |done].
    { eapply continues_trans; [exact H1|]. eapply IH; [|done]. cbn. lia. }
    pose proof (turn_continues (Str.strip_ws typed) project_dir (head rest) st1) as H2.
    destruct (turn _ _ _ _ _ st1) as [[asked|c] st2]; cbn [snd] in H2.
    + eapply continues_trans; [exact H1|]. eapply continues_trans; [exact H2|].
      destruct asked, rest as [|answer rest']; eapply IH; try done; cbn; lia.
    + destruct rest; by eapply continues_trans.
Qed.

Lemma session_continues (project_description : string) (project_dir : Path)
    (inputs : list string) (st : state) :
  continues st (snd (session json_loads ollama project_description project_dir inputs st)).
Proof.
  unfold session. case_decide; [apply main_loop_continues|].
  pose proof (turn_continues project_description project_dir (head inputs) st) as H2.
  destruct (turn _ _ _ _ _ st) as [[asked|c] st2]; cbn [snd] in H2.
  - eapply continues_trans; [exact H2|].
    destruct asked, inputs as [|answer rest]; apply main_loop_continues.
  - by destruct inputs.
Qed.

End SessionProperties.

(** X22.  [main] comes to an end on every finite input, and a session only
    adds: the conversation history and the output of the start are there at
    the end, with what the session has recorded and printed after them.
    This holds whatever the backends answer and however the session ends. *)
Theorem main_only_appends (json_loads : string → option json)
    (naming_backend : string → http_body) (ollama : list message → http_reply)
    (inputs : list string) (st : state) :
  ∃ how st',
    main json_loads naming_backend ollama inputs st = Some (how, st') ∧
    conversation_history st `prefix_of` conversation_history st' ∧
    output st `prefix_of` output st'.
Proof.
  unfold main. destruct inputs as [|typed rest].
  - eexists _, _. split; [done|].
    apply (appends_bind (emit _) (λ _, emit _)); intros; apply appends_emit.
  - pose proof (appends_start_session json_loads naming_backend typed st) as H1.
    pose proof (start_session_run json_loads naming_backend typed st) as H2.
    destruct (start_session _ _ typed st) as [[[project_dir|]|e] st1]; cbn [snd] in H1.
    + pose proof (session_continues json_loads ollama (Str.strip_ws typed) project_dir
                    rest st1) as H3.
      destruct (session _ _ _ _ _ st1) as [how st'] eqn:Hs.
      exists how, st'. split; [done|]. by eapply continues_trans.
    + by destruct H2 as (? & ? & _).
    + by eexists _, _.
Qed.

(** ** Sessions without a successful turn *)

Lemma rev_app_spec (s t : string) : String.rev_app s t = String.rev s +:+ t.
Proof.
  unfold String.rev. revert t. induction s as [|c s IH]; intros t; [done|].
  cbn. rewrite (IH (String c t)), (IH (String c "")), str_app_assoc. done.
Qed.

Lemma rev_String (c : ascii) (s : string) :
  String.rev (String c s) = String.rev s +:+ String c "".
Proof. unfold String.rev at 1. cbn. apply rev_app_spec. Qed.

Lemma rev_app (s t : string) : String.rev (s +:+ t) = String.rev t +:+ String.rev s.
Proof.
  induction s as [|c s IH].
  - by rewrite str_app_nil_l, str_app_nil_r.
  - rewrite str_app_cons, !rev_String, IH. by rewrite str_app_assoc.
Qed.

Lemma rev_involutive (s : string) : String.rev (String.rev s) = s.
Proof.
  induction s as [|c s IH]; [done|]. rewrite rev_String, rev_app, IH. done.
Qed.

Lemma lstrip_ws_stripped (s : string) : stripped_left (Str.lstrip_ws s).
Proof.
  induction s as [|c s IH]; [done|]. cbn [Str.lstrip_ws].
  by destruct (Str.isspace c) eqn:Hc.
Qed.

Lemma lstrip_ws_id (s : string) : stripped_left s → Str.lstrip_ws s = s.
Proof. destruct s as [|c s]; [done|]. cbn. by intros ->. Qed.

Lemma lstrip_ws_suffix (s : string) : ∃ p, s = p +:+ Str.lstrip_ws s.
Proof.
  induction s as [|c s [p IH]]; [by exists ""|]. cbn [Str.lstrip_ws].
  destruct (Str.isspace c).
  - exists (String c p). by rewrite str_app_cons, <- IH.
  - by exists "".
Qed.

Lemma stripped_left_app (p q : string) : stripped_left (p +:+ q) → stripped_left p.
Proof. by destruct p. Qed.

(** [s.strip().strip() == s.strip()] *)
Lemma strip_ws_idemp (s : string) : Str.strip_ws (Str.strip_ws s) = Str.strip_ws s.
Proof.
  unfold Str.strip_ws.
  pose proof (lstrip_ws_stripped s) as Ht. set (t := Str.lstrip_ws s) in *.
  pose proof (lstrip_ws_stripped (String.rev t)) as Hu.
  destruct (lstrip_ws_suffix (String.rev t)) as [p Hp].
  set (u := Str.lstrip_ws (String.rev t)) in *.
  assert (stripped_left (String.rev u)) as Hru.
  { apply (stripped_left_app _ (String.rev p)). by rewrite <- rev_app, <- Hp, rev_involutive. }
  by rewrite (lstrip_ws_id _ Hru), rev_involutive, (lstrip_ws_id _ Hu).
Qed.

(** On an input without NUL character the command is handled or not, and
    no file changes. *)
Lemma try_handle_add_command_returns (user_input : string) (st : state) :
  Str.has_char nul user_input = false →
  ∃ st',
    try_handle_add_command user_input st =
      (Ok (Str.startswith "/add " (Str.lower (Str.strip_ws user_input))), st') ∧
    fs st' = fs st.
Proof.
  intros Hnul.
  destruct (Str.startswith "/add " (Str.lower (Str.strip_ws user_input))) eqn:Hcmd.
  - rewrite (try_handle_add_command_run user_input st Hcmd).
    set (file_path := Str.strip_ws (Str.drop 5 user_input)).
    assert (Str.has_char nul (op_text (of_str file_path)) = false) as Hpath.
    { unfold of_str, file_path. cbn [op_text]. by apply has_char_strip_ws, has_char_drop. }
    destruct (open_read (fs st) (of_str file_path)) as [content|e] eqn:Hread.
    + by eexists.
    + rewrite (open_read_raises_OSError _ _ _ Hpath Hread). by eexists.
  - exists st. unfold try_handle_add_command. by rewrite Hcmd.
Qed.

(** The response of a failed turn proposes nothing. *)
Lemma failed_turn_response (json_loads : string → option json)
    (ollama : list message → http_reply) (user_message : string) (st : state) :
  failed_turn json_loads ollama user_message st →
  ∃ msg, fst (stream_openai_response json_loads ollama user_message st)
         = Ok (error_response msg).
Proof.
  intros Hfail. unfold failed_turn in Hfail.
  pose proof (turn_outcome json_loads ollama user_message st) as H. cbn zeta in H.
  destruct (accumulated_output _ _ _ _) as [full|].
  - destruct (structured_response _ _ _ _ _) as [r|e]; [done|].
    destruct H as [-> _]. by eexists.
  - destruct H as [[e ->] _]. by eexists.
Qed.





(** The file of the [/add] is in the history at the end, and nothing was
    sent. *)
Example main_loop_local_commands_example :
  conversation_history
    (snd (main_loop example_loads example_ollama example_dir
            ["  "; "/add app.py"; " QUIT "] example_state))
  = [mkMsg system (file_message "app.py" "x = 1; y = 1")].
Proof. vm_compute. reflexivity. Qed.
